(** * Hand-space: the per-frame simulation loop of [HandPhysicsGame.tsx]

    A shallow embedding of the object store, the gesture classifier, the
    interaction resolver and the physics step of
    [src/components/HandPhysicsGame.tsx], with the properties of the
    specification stated over it.

    JavaScript numbers are idealised as real numbers ([R]); [Math.hypot],
    [Math.atan2], [Math.sin] and [Math.cos] are the real functions.  The
    browser's sources of non-determinism ([Math.random], [performance.now],
    [Date.now], [window.innerWidth/innerHeight]) are an explicit oracle that
    is threaded through the code in call order. *)

From Stdlib Require Import String Reals Lra Psatz Lia List Bool Arith.
Import ListNotations.
Open Scope R_scope.

(* ================================================================= *)
(** ** Numbers *)

Module Num.

(** [a < b] on JavaScript numbers. *)
Definition ltb (a b : R) : bool := if Rlt_dec a b then true else false.
(** [a > b]. *)
Definition gtb (a b : R) : bool := ltb b a.
(** [a >= b]. *)
Definition geb (a b : R) : bool := negb (ltb a b).
(** [a === b]. *)
Definition eqb (a b : R) : bool := if Req_dec_T a b then true else false.

(** [Math.hypot(a, b)]. *)
Definition hypot (a b : R) : R := sqrt (a * a + b * b).

(** [Math.atan2(b, a)] on reals ([atan2 0 0 = 0] as in JavaScript). *)
Definition atan2 (b a : R) : R :=
  if Rlt_dec 0 a then atan (b / a)
  else if Rlt_dec a 0 then
         (if Rlt_dec b 0 then atan (b / a) - PI else atan (b / a) + PI)
       else if Rlt_dec 0 b then PI / 2
            else if Rlt_dec b 0 then - (PI / 2)
                 else 0.

(** [Math.floor] as a natural number index (used for array indexing). *)
Definition floorIndex (a : R) : nat := Z.to_nat (Int_part a).

End Num.
Import Num.

Arguments ltb : simpl never.
Arguments eqb : simpl never.
Arguments hypot : simpl never.
Arguments atan2 : simpl never.

(** [Set.prototype.has] on a set of numeric ids, the set kept as the list of
    the ids that were added. *)
Definition has (s : list R) (i : R) : bool := existsb (eqb i) s.

(* ================================================================= *)
(** ** Data model ([src/types.ts]) *)

Record PhysicsObject := mkObject {
  id : R;
  x : R;
  y : R;
  vx : R;
  vy : R;
  radius : R;
  color : string;
  isGrabbed : bool;
  grabbedByHandIndex : option nat;   (* [number | null] *)
  wobblePhase : R;
  createdAt : R
}.

Record GameSettings := mkSettings {
  gravity : R;
  friction : R;
  bounce : R;
  pinchThreshold : R;
  throwForce : R;
  handColor : string;
  showSkeleton : bool;
  debug : bool;
  enableCollisions : bool;
  fusionChance : R;
  blobFactor : R
}.

(** [HandPoint] of [types.ts]; its fields [x], [y] are renamed because the
    projections of [PhysicsObject] already use those names. *)
Record HandPoint := mkHandPoint { hpx : R; hpy : R }.

Definition INITIAL_SETTINGS : GameSettings :=
  {| gravity := 0; friction := 0.995; bounce := 0.9; pinchThreshold := 60;
     throwForce := 1.5; handColor := "#00ff9d"; showSkeleton := true;
     debug := false; enableCollisions := true; fusionChance := 0;
     blobFactor := 5 |}.

(** Field updates ([obj.f = v]). *)
Definition setPos (o : PhysicsObject) (nx ny : R) : PhysicsObject :=
  mkObject (id o) nx ny (vx o) (vy o) (radius o) (color o) (isGrabbed o)
           (grabbedByHandIndex o) (wobblePhase o) (createdAt o).
Definition setVel (o : PhysicsObject) (nvx nvy : R) : PhysicsObject :=
  mkObject (id o) (x o) (y o) nvx nvy (radius o) (color o) (isGrabbed o)
           (grabbedByHandIndex o) (wobblePhase o) (createdAt o).
Definition setRadius (o : PhysicsObject) (r : R) : PhysicsObject :=
  mkObject (id o) (x o) (y o) (vx o) (vy o) r (color o) (isGrabbed o)
           (grabbedByHandIndex o) (wobblePhase o) (createdAt o).
Definition setIsGrabbed (o : PhysicsObject) (g : bool) : PhysicsObject :=
  mkObject (id o) (x o) (y o) (vx o) (vy o) (radius o) (color o) g
           (grabbedByHandIndex o) (wobblePhase o) (createdAt o).
Definition setGrabbedBy (o : PhysicsObject) (h : option nat) : PhysicsObject :=
  mkObject (id o) (x o) (y o) (vx o) (vy o) (radius o) (color o) (isGrabbed o)
           h (wobblePhase o) (createdAt o).

(** The grab state the two fields [isGrabbed] / [grabbedByHandIndex] encode. *)
Inductive GrabState := Ungrabbed | GrabbedBy (handIndex : nat) | SharedGrab.

Definition grabState (o : PhysicsObject) : GrabState :=
  if isGrabbed o then
    match grabbedByHandIndex o with
    | Some h => GrabbedBy h
    | None => SharedGrab
    end
  else Ungrabbed.

(* ================================================================= *)
(** ** The browser: random draws, clocks and the window size *)

Record Browser := mkBrowser {
  mathRandom : nat -> R;       (* value of the n-th call of [Math.random()] *)
  performanceNow : nat -> R;   (* value of the n-th call of [performance.now()] *)
  dateNow : nat -> R;          (* value of the n-th call of [Date.now()] *)
  innerWidth : R;
  innerHeight : R;
  randomCalls : nat;
  nowCalls : nat;
  dateCalls : nat
}.

Definition random (w : Browser) : R * Browser :=
  (mathRandom w (randomCalls w),
   mkBrowser (mathRandom w) (performanceNow w) (dateNow w) (innerWidth w)
             (innerHeight w) (S (randomCalls w)) (nowCalls w) (dateCalls w)).

Definition now (w : Browser) : R * Browser :=
  (performanceNow w (nowCalls w),
   mkBrowser (mathRandom w) (performanceNow w) (dateNow w) (innerWidth w)
             (innerHeight w) (randomCalls w) (S (nowCalls w)) (dateCalls w)).

Definition date (w : Browser) : R * Browser :=
  (dateNow w (dateCalls w),
   mkBrowser (mathRandom w) (performanceNow w) (dateNow w) (innerWidth w)
             (innerHeight w) (randomCalls w) (nowCalls w) (S (dateCalls w))).

(** [v ?? f(Math.random())]: the draw is made only when [v] is undefined. *)
Definition orRandom (v : option R) (f : R -> R) (w : Browser) : R * Browser :=
  match v with
  | Some r => (r, w)
  | None => let (u, w1) := random w in (f u, w1)
  end.

(* ================================================================= *)
(** ** Object store: [spawnObjects] *)

Record SpawnArgs := mkSpawnArgs {
  count : nat;
  argX : option R;
  argY : option R;
  argVx : option R;
  argVy : option R;
  argRadius : option R;
  argColor : option string;
  grabbedBy : option nat
}.

Definition colors : list string :=
  ["#f43f5e"; "#3b82f6"; "#eab308"; "#a855f7"; "#ec4899"; "#06b6d4";
   "#10b981"; "#f97316"]%string.

(** The placement test of one loop: [dist < obj.radius + finalRadius + 5] for
    some [obj] of the list (the [for ... break] loops). *)
Definition tooClose (finalX finalY finalRadius : R) (obj : PhysicsObject) : bool :=
  ltb (hypot (x obj - finalX) (y obj - finalY)) (radius obj + finalRadius + 5).

Definition isSafe (world batch : list PhysicsObject)
                  (finalX finalY finalRadius : R) : bool :=
  negb (existsb (tooClose finalX finalY finalRadius) world)
  && negb (existsb (tooClose finalX finalY finalRadius) batch).

(** True when the call is a fixed-position spawn (both [x] and [y] given). *)
Definition fixedPosition (a : SpawnArgs) : bool :=
  match argX a, argY a with
  | Some _, Some _ => true
  | _, _ => false
  end.

(** The object literal pushed to [newObjects]; draws in evaluation order. *)
Definition makeObject (a : SpawnArgs) (finalX finalY finalRadius : R)
                      (w : Browser) : PhysicsObject * Browser :=
  let (d, w1) := date w in
  let (u, w2) := random w1 in
  let (ovx, w3) := orRandom (argVx a) (fun r => (r - 0.5) * 6) w2 in
  let (ovy, w4) := orRandom (argVy a) (fun r => (r - 0.5) * 6) w3 in
  let (ocol, w5) :=
    match argColor a with
    | Some c => (c, w4)
    | None => let (r, w') := random w4 in
              (nth (floorIndex (r * INR (length colors))) colors ""%string, w')
    end in
  let (ph, w6) := random w5 in
  let (t, w7) := now w6 in
  (mkObject (d + u) finalX finalY ovx ovy finalRadius ocol
            (match grabbedBy a with Some _ => true | None => false end)
            (grabbedBy a) (ph * PI * 2) t,
   w7).

(** One iteration of the [while] body after [totalAttempts++]: [Some obj] when
    an object is pushed, [None] on [continue]. *)
Definition spawnAttempt (a : SpawnArgs) (world batch : list PhysicsObject)
                        (w : Browser) : option PhysicsObject * Browser :=
  let (finalRadius, w1) := orRandom (argRadius a) (fun r => 20 + r * 25) w in
  if fixedPosition a then
    let (o, w2) :=
      makeObject a (match argX a with Some v => v | None => 0 end)
                   (match argY a with Some v => v | None => 0 end)
                   finalRadius w1 in
    (Some o, w2)
  else
    let (u1, w2) := random w1 in
    let finalX := u1 * (innerWidth w - 200) + 100 in
    let (u2, w3) := random w2 in
    let finalY := u2 * (innerHeight w - 200) + 100 in
    if isSafe world batch finalX finalY finalRadius then
      let (o, w4) := makeObject a finalX finalY finalRadius w3 in
      (Some o, w4)
    else (None, w3).

(** Loop state [(newObjects, totalAttempts, browser)]. *)
Definition SpawnState : Type := (list PhysicsObject * nat * Browser)%type.

(** [while (newObjects.length < count && totalAttempts < maxAttempts)].
    [fuel] bounds the unfolding; [spawnLoop_spec] shows that [maxAttempts]
    units are always enough for the loop condition to become false. *)
Fixpoint spawnLoop (fuel : nat) (a : SpawnArgs) (maxAttempts : nat)
                   (world : list PhysicsObject) (s : SpawnState) : SpawnState :=
  let '(newObjects, totalAttempts, w) := s in
  match fuel with
  | O => s
  | S fuel' =>
      if (length newObjects <? count a)%nat && (totalAttempts <? maxAttempts)%nat
      then
        match spawnAttempt a world newObjects w with
        | (Some o, w') =>
            spawnLoop fuel' a maxAttempts world
                      (newObjects ++ [o], S totalAttempts, w')
        | (None, w') =>
            spawnLoop fuel' a maxAttempts world
                      (newObjects, S totalAttempts, w')
        end
      else s
  end.

Definition maxAttemptsOf (a : SpawnArgs) : nat := (count a * 50)%nat.

Definition spawnRun (a : SpawnArgs) (world : list PhysicsObject)
                    (w : Browser) : SpawnState :=
  spawnLoop (maxAttemptsOf a) a (maxAttemptsOf a) world ([], O, w).

(** [spawnObjects]: the new value of [objectsRef.current] and the browser. *)
Definition spawnObjects (a : SpawnArgs) (world : list PhysicsObject)
                        (w : Browser) : list PhysicsObject * Browser :=
  let '(newObjects, _, w') := spawnRun a world w in
  (world ++ newObjects, w').

(* ================================================================= *)
(** ** Per-frame inputs and the long-lived references *)

(** A normalized landmark of the vision model. *)
Record Landmark := mkLandmark { lmx : R; lmy : R }.

(** The landmarks of one hand that the loop reads (indices 0, 4, 8, 12, 16
    and 20 of the 21 points; the others are only drawn). *)
Record HandLandmarks := mkHand {
  wrist : Landmark;       (* 0 *)
  thumbTip : Landmark;    (* 4 *)
  indexTip : Landmark;    (* 8 *)
  middleTip : Landmark;   (* 12 *)
  ringTip : Landmark;     (* 16 *)
  pinkyTip : Landmark     (* 20 *)
}.

(** The landmarks of the face that the loop reads. *)
Record FaceLandmarks := mkFace {
  upperLipLm : Landmark;     (* 13 *)
  lowerLipLm : Landmark;     (* 14 *)
  leftCornerLm : Landmark;   (* 78 *)
  rightCornerLm : Landmark   (* 308 *)
}.

(** What one frame receives: canvas size, detection results (an absent
    [handResult] is the empty list, an absent face is [None]), settings. *)
Record FrameInput := mkInput {
  canvasWidth : R;
  canvasHeight : R;
  handResult : list HandLandmarks;
  faceResult : option FaceLandmarks;
  settings : GameSettings
}.

(** The [useRef] cells.  [prevHandPosRef] is the object keyed by hand index,
    [wasPinchingRef] the boolean array (an index never written reads as
    falsy). *)
Record Refs := mkRefs {
  objectsRef : list PhysicsObject;
  prevHandPosRef : nat -> option HandPoint;
  wasPinchingRef : nat -> bool;
  lastShotTimeRef : R;
  browser : Browser
}.

Definition setKey {A : Type} (m : nat -> A) (k : nat) (v : A) : nat -> A :=
  fun k' => if (k' =? k)%nat then v else m k'.

(** Every mutation of the store, of grab ownership and of the hand history
    that a frame performs, in the order in which the frame performs them. *)
Inductive Event :=
| EvSpawn (o : PhysicsObject)          (* [spawnObjects] pushed [o] *)
| EvDoubleGrab (i : R)                 (* forced into shared grab *)
| EvDrag (h : nat) (i : R)             (* moved by the hand that holds it *)
| EvGrab (h : nat) (i : R)             (* free object taken by hand [h] *)
| EvRelease (h : nat) (i : R)          (* released by non-pinching hand [h] *)
| EvStaleRelease (i : R)               (* stale shared grab released *)
| EvPrevPos (h : nat).                 (* [prevHandPosRef.current[h]] written *)

(** [array.forEach((a, index) => ...)] threading a state. *)
Fixpoint forEachIndexed {A St : Type} (f : A -> nat -> St -> St)
                        (l : list A) (i : nat) (s : St) : St :=
  match l with
  | [] => s
  | a :: l' => forEachIndexed f l' (S i) (f a i s)
  end.

(* ================================================================= *)
(** ** Mouth state extractor *)

Record Mouth := mkMouth {
  mouthCenterX : R;
  mouthCenterY : R;
  isMouthOpen : bool;
  mouthWidth : R
}.

Definition mouthLogic (inp : FrameInput) : Mouth :=
  match faceResult inp with
  | None => mkMouth 0 0 false 0
  | Some lm =>
      let px (p : Landmark) := (1 - lmx p) * canvasWidth inp in
      let py (p : Landmark) := lmy p * canvasHeight inp in
      let mouthHeight :=
        hypot (px (upperLipLm lm) - px (lowerLipLm lm))
              (py (upperLipLm lm) - py (lowerLipLm lm)) in
      let width :=
        hypot (px (leftCornerLm lm) - px (rightCornerLm lm))
              (py (leftCornerLm lm) - py (rightCornerLm lm)) in
      mkMouth ((px (upperLipLm lm) + px (lowerLipLm lm)) / 2)
              ((py (upperLipLm lm) + py (lowerLipLm lm)) / 2)
              (gtb mouthHeight (width * 0.2))
              width
  end.

(* ================================================================= *)
(** ** Gesture classifier *)

Definition isGunGesture (lm : HandLandmarks) : bool :=
  let d (p1 p2 : Landmark) := hypot (lmx p1 - lmx p2) (lmy p1 - lmy p2) in
  let wristToIndex := d (wrist lm) (indexTip lm) in
  let wristToMiddle := d (wrist lm) (middleTip lm) in
  let wristToRing := d (wrist lm) (ringTip lm) in
  let wristToPinky := d (wrist lm) (pinkyTip lm) in
  let isIndexExtended := gtb wristToIndex 0.2 in
  let areOthersCurled :=
    ltb wristToMiddle (wristToIndex * 0.6)
    && ltb wristToRing (wristToIndex * 0.6)
    && ltb wristToPinky (wristToIndex * 0.6) in
  isIndexExtended && areOthersCurled.

(** An entry of [handPositions] ([x], [y] renamed as for [HandPoint]). *)
Record HandPos := mkHandPos {
  handX : R;
  handY : R;
  isPinching : bool;
  isGun : bool;
  tipX : R;
  tipY : R;
  velocityY : R
}.

Definition classifyHand (inp : FrameInput) (prev : nat -> option HandPoint)
                        (handIndex : nat) (lm : HandLandmarks) : HandPos :=
  let ix := (1 - lmx (indexTip lm)) * canvasWidth inp in
  let iy := lmy (indexTip lm) * canvasHeight inp in
  let tx := (1 - lmx (thumbTip lm)) * canvasWidth inp in
  let ty := lmy (thumbTip lm) * canvasHeight inp in
  let pinchX := (ix + tx) / 2 in
  let pinchY := (iy + ty) / 2 in
  let pinchDist := hypot (ix - tx) (iy - ty) in
  mkHandPos pinchX pinchY
            (ltb pinchDist (pinchThreshold (settings inp)))
            (isGunGesture lm)
            ix iy
            (match prev handIndex with
             | Some prevPos => pinchY - hpy prevPos
             | None => 0
             end).

(* ================================================================= *)
(** ** Gesture-triggered spawns (inside the hand preparation loop) *)

Definition withBrowser (r : Refs) (w : Browser) : Refs :=
  mkRefs (objectsRef r) (prevHandPosRef r) (wasPinchingRef r)
         (lastShotTimeRef r) w.

(** A call of [spawnObjects] from the loop: [objectsRef.current] is replaced
    by the extended array; the pushed objects are logged. *)
Definition spawnInto (a : SpawnArgs) (r : Refs) : Refs * list Event :=
  let '(newObjects, _, w') := spawnRun a (objectsRef r) (browser r) in
  (mkRefs (objectsRef r ++ newObjects) (prevHandPosRef r) (wasPinchingRef r)
          (lastShotTimeRef r) w',
   map EvSpawn newObjects).

Definition magicianArgs (hp : HandPos) (handIndex : nat) : SpawnArgs :=
  mkSpawnArgs 1 (Some (handX hp)) (Some (handY hp)) (Some 0) (Some 0)
              (Some 45) None (Some handIndex).

Definition bulletArgs (hp : HandPos) : SpawnArgs :=
  mkSpawnArgs 1 (Some (tipX hp)) (Some (tipY hp)) (Some 0) (Some (-25))
              (Some 10) (Some "#FFD700"%string) None.

(** [// 1. MAGICIAN SPAWN] *)
Definition magicianSpawn (m : Mouth) (hp : HandPos) (handIndex : nat)
                         (r : Refs) : Refs * list Event :=
  if isMouthOpen m && isPinching hp && negb (wasPinchingRef r handIndex) then
    let distToMouth :=
      hypot (handX hp - mouthCenterX m) (handY hp - mouthCenterY m) in
    if ltb distToMouth (mouthWidth m * 2.0) then
      spawnInto (magicianArgs hp handIndex) r
    else (r, [])
  else (r, []).

(** [// 2. GUN GESTURE SHOOTING] *)
Definition gunShot (hp : HandPos) (r : Refs) : Refs * list Event :=
  if isGun hp then
    if ltb (velocityY hp) (-15) then
      let (t, w1) := now (browser r) in
      if gtb (t - lastShotTimeRef r) 300 then
        let (r2, ev) := spawnInto (bulletArgs hp) (withBrowser r w1) in
        (mkRefs (objectsRef r2) (prevHandPosRef r2) (wasPinchingRef r2)
                t (browser r2),
         ev)
      else (withBrowser r w1, [])
    else (r, [])
  else (r, []).

(** State of the preparation loop: the references, [handPositions] so far,
    and the log. *)
Definition PrepState : Type := (Refs * list HandPos * list Event)%type.

Definition handPrepStep (inp : FrameInput) (m : Mouth)
                        (lm : HandLandmarks) (handIndex : nat)
                        (s : PrepState) : PrepState :=
  let '(r, hps, log) := s in
  let hp := classifyHand inp (prevHandPosRef r) handIndex lm in
  let (r1, ev1) := magicianSpawn m hp handIndex r in
  let (r2, ev2) := gunShot hp r1 in
  (mkRefs (objectsRef r2) (prevHandPosRef r2)
          (setKey (wasPinchingRef r2) handIndex (isPinching hp))
          (lastShotTimeRef r2) (browser r2),
   hps ++ [hp],
   log ++ ev1 ++ ev2).

Definition handPrep (inp : FrameInput) (m : Mouth) (r : Refs) : PrepState :=
  forEachIndexed (handPrepStep inp m) (handResult inp) O (r, [], []).

(* ================================================================= *)
(** ** Interaction resolver: grab resolution *)

(** [// 1. Identify Double Grabs for this frame]: the guard of the block. *)
Definition doubleGrabHands (hps : list HandPos) : option (HandPos * HandPos) :=
  match nth_error hps 0, nth_error hps 1 with
  | Some h0, Some h1 =>
      if isPinching h0 && isPinching h1 then Some (h0, h1) else None
  | _, _ => None
  end.

(** [obj.isGrabbed && obj.grabbedByHandIndex === k]. *)
Definition heldBy (k : nat) (obj : PhysicsObject) : bool :=
  isGrabbed obj
  && match grabbedByHandIndex obj with
     | Some h => (h =? k)%nat
     | None => false
     end.

Definition qualifies (h0 h1 : HandPos) (obj : PhysicsObject) : bool :=
  let d0 := hypot (x obj - handX h0) (y obj - handY h0) in
  let d1 := hypot (x obj - handX h1) (y obj - handY h1) in
  let grabRadius := radius obj + 40 in
  (ltb d0 grabRadius && ltb d1 grabRadius)
  || (heldBy 0 obj && ltb d1 grabRadius)
  || (heldBy 1 obj && ltb d0 grabRadius).

(** The two successive [if]s that bound the radius. *)
Definition clampRadius (r : R) : R :=
  let r1 := if ltb r 15 then 15 else r in
  if gtb r1 150 then 150 else r1.

(** [// RESIZE] *)
Definition resize (prev : nat -> option HandPoint) (currentDist : R)
                  (obj : PhysicsObject) : PhysicsObject :=
  match prev 0%nat, prev 1%nat with
  | Some prevH0, Some prevH1 =>
      let prevDist := hypot (hpx prevH1 - hpx prevH0) (hpy prevH1 - hpy prevH0) in
      let delta := currentDist - prevDist in
      setRadius obj (clampRadius (radius obj + delta * 0.6))
  | _, _ => obj
  end.

(** [// FORCE LOGIC: Double Grab overrides everything] *)
Definition forceDoubleGrab (prev : nat -> option HandPoint) (h0 h1 : HandPos)
                           (currentDist : R) (obj : PhysicsObject) : PhysicsObject :=
  let o1 := setGrabbedBy (setIsGrabbed obj true) None in
  let o2 := setPos o1 ((handX h0 + handX h1) / 2) ((handY h0 + handY h1) / 2) in
  let o3 := setVel o2 0 0 in
  resize prev currentDist o3.

Definition doubleGrabObj (prev : nat -> option HandPoint) (h0 h1 : HandPos)
                         (obj : PhysicsObject) : PhysicsObject :=
  let currentDist := hypot (handX h1 - handX h0) (handY h1 - handY h0) in
  if qualifies h0 h1 obj then forceDoubleGrab prev h0 h1 currentDist obj
  else obj.

(** The double-grab block: [currentDoubleGrabs] and the objects after it. *)
Definition doubleGrabPhase (prev : nat -> option HandPoint) (hps : list HandPos)
                           (objects : list PhysicsObject)
  : list R * list PhysicsObject :=
  match doubleGrabHands hps with
  | Some (h0, h1) =>
      (map id (filter (qualifies h0 h1) objects),
       map (doubleGrabObj prev h0 h1) objects)
  | None => ([], objects)
  end.

(** [// 2. Single Hand Logic]: what one hand does to one object. *)
Inductive Action := ActNone | ActDrag | ActGrab | ActRelease.

Definition heldByOther (handIndex : nat) (obj : PhysicsObject) : bool :=
  isGrabbed obj
  && match grabbedByHandIndex obj with
     | Some h => negb (h =? handIndex)%nat
     | None => false
     end.

Definition singleHandAction (currentDoubleGrabs : list R) (hand : HandPos)
                            (handIndex : nat) (obj : PhysicsObject) : Action :=
  if isPinching hand then
    if has currentDoubleGrabs (id obj) then ActNone
    else if heldBy handIndex obj then ActDrag
    else if heldByOther handIndex obj then ActNone
    else if ltb (hypot (x obj - handX hand) (y obj - handY hand))
                (radius obj + 40)
         then ActGrab
         else ActNone
  else
    if heldBy handIndex obj then
      if negb (has currentDoubleGrabs (id obj)) then ActRelease else ActNone
    else ActNone.

Definition applyAction (st : GameSettings) (hand : HandPos) (prevPos : HandPoint)
                       (handIndex : nat) (act : Action)
                       (obj : PhysicsObject) : PhysicsObject :=
  let handVx := handX hand - hpx prevPos in
  let handVy := handY hand - hpy prevPos in
  match act with
  | ActNone => obj
  | ActDrag =>
      setVel (setPos obj (handX hand) (handY hand))
             (handVx * throwForce st) (handVy * throwForce st)
  | ActGrab => setGrabbedBy (setIsGrabbed obj true) (Some handIndex)
  | ActRelease => setGrabbedBy (setIsGrabbed obj false) None
  end.

Definition actionEvent (handIndex : nat) (act : Action)
                       (obj : PhysicsObject) : list Event :=
  match act with
  | ActNone => []
  | ActDrag => [EvDrag handIndex (id obj)]
  | ActGrab => [EvGrab handIndex (id obj)]
  | ActRelease => [EvRelease handIndex (id obj)]
  end.

(** One hand of the [forEach]: skipped when it has no previous position. *)
Definition singleHandStep (st : GameSettings) (prev : nat -> option HandPoint)
                          (currentDoubleGrabs : list R)
                          (hand : HandPos) (handIndex : nat)
                          (s : list PhysicsObject * list Event)
  : list PhysicsObject * list Event :=
  let (objects, log) := s in
  match prev handIndex with
  | None => s
  | Some prevPos =>
      (map (fun obj =>
              applyAction st hand prevPos handIndex
                (singleHandAction currentDoubleGrabs hand handIndex obj) obj)
           objects,
       log ++ flat_map (fun obj =>
                actionEvent handIndex
                  (singleHandAction currentDoubleGrabs hand handIndex obj) obj)
              objects)
  end.

Definition singleHandPhase (st : GameSettings) (prev : nat -> option HandPoint)
                           (currentDoubleGrabs : list R) (hps : list HandPos)
                           (objects : list PhysicsObject)
  : list PhysicsObject * list Event :=
  forEachIndexed (singleHandStep st prev currentDoubleGrabs) hps O (objects, []).

(** [// Cleanup Stale Double Grabs] *)
Definition isStale (currentDoubleGrabs : list R) (obj : PhysicsObject) : bool :=
  match grabbedByHandIndex obj with
  | None => isGrabbed obj && negb (has currentDoubleGrabs (id obj))
  | Some _ => false
  end.

Definition cleanupObj (currentDoubleGrabs : list R)
                      (obj : PhysicsObject) : PhysicsObject :=
  if isStale currentDoubleGrabs obj then setIsGrabbed obj false else obj.

(** [// Update Previous Hand Positions] *)
Definition recordPrev (hps : list HandPos) (k : nat)
                      (prev : nat -> option HandPoint) : nat -> option HandPoint :=
  match nth_error hps k with
  | Some h => setKey prev k (Some (mkHandPoint (handX h) (handY h)))
  | None => prev
  end.

Definition prevEvents (hps : list HandPos) : list Event :=
  (match nth_error hps 0 with Some _ => [EvPrevPos 0] | None => [] end)
  ++ (match nth_error hps 1 with Some _ => [EvPrevPos 1] | None => [] end).

(** The state of a frame once the interaction resolver is done.
    [frameObjects] is the local [objects] (the array that [objectsRef.current]
    held when the frame started, its elements mutated in place);
    [frameRefs] holds the references, where [objectsRef] is the current
    array: the same (mutated) elements followed by the objects spawned in
    this frame. *)
Record Resolved := mkResolved {
  frameMouth : Mouth;
  handPositions : list HandPos;
  currentDoubleGrabs : list R;
  frameObjects : list PhysicsObject;
  frameRefs : Refs;
  frameLog : list Event
}.

(** Objects that [spawnObjects] appended during the frame: the elements of
    the current array beyond the length of the frame's [objects]. *)
Definition spawnedIn (objects current : list PhysicsObject) : list PhysicsObject :=
  skipn (length objects) current.

Definition resolveInteraction (inp : FrameInput) (r : Refs) : Resolved :=
  let (currentTime, w0) := now (browser r) in
  let m := mouthLogic inp in
  let objects := objectsRef r in
  let '(r1, hps, log1) := handPrep inp m (withBrowser r w0) in
  let prev := prevHandPosRef r1 in
  let (dg, objects1) := doubleGrabPhase prev hps objects in
  let log2 := map EvDoubleGrab dg in
  let (objects2, log3) := singleHandPhase (settings inp) prev dg hps objects1 in
  let log4 := map (fun o => EvStaleRelease (id o)) (filter (isStale dg) objects2) in
  let objects3 := map (cleanupObj dg) objects2 in
  let prev' := recordPrev hps 1 (recordPrev hps 0 prev) in
  mkResolved m hps dg objects3
             (mkRefs (objects3 ++ spawnedIn objects (objectsRef r1))
                     prev' (wasPinchingRef r1) (lastShotTimeRef r1) (browser r1))
             (log1 ++ log2 ++ log3 ++ log4 ++ prevEvents hps).

(* ================================================================= *)
(** ** Physics step: pairwise collisions *)

(** [objects[n] = v] for an index inside the array. *)
Fixpoint setNth {A : Type} (l : list A) (n : nat) (v : A) : list A :=
  match l, n with
  | [], _ => []
  | _ :: l', O => v :: l'
  | a :: l', S n' => a :: setNth l' n' v
  end.

(** State of the physics step: the frame's [objects], [objectsToRemove] (the
    ids in insertion order) and the browser. *)
Definition PhysState : Type := (list PhysicsObject * list R * Browser)%type.

(** [// FUSION LOGIC]: [now] is read first; [Math.random()] is only called
    when [settings.fusionChance > 0] (short-circuit [&&]). *)
Definition canFuse (st : GameSettings) (o1 o2 : PhysicsObject)
                   (w : Browser) : bool * Browser :=
  let (t, w1) := now w in
  if gtb (fusionChance st) 0 then
    let (u, w2) := random w1 in
    (ltb u (fusionChance st)
     && gtb (t - createdAt o1) 2000
     && gtb (t - createdAt o2) 2000,
     w2)
  else (false, w1).

Definition fuse (o1 o2 : PhysicsObject) (toRemove : list R)
  : PhysicsObject * PhysicsObject * list R :=
  if geb (radius o1) (radius o2) then
    (setRadius o1 (radius o1 + radius o2 * 0.4), o2, toRemove ++ [id o2])
  else
    (o1, setRadius o2 (radius o2 + radius o1 * 0.4), toRemove ++ [id o1]).

(** [// BOUNCE & SEPARATION] *)
Definition bounceApart (st : GameSettings) (o1 o2 : PhysicsObject)
  : PhysicsObject * PhysicsObject :=
  let dx := x o2 - x o1 in
  let dy := y o2 - y o1 in
  let dist := hypot dx dy in
  let minDist := radius o1 + radius o2 in
  let angle := atan2 dy dx in
  let sn := sin angle in
  let cs := cos angle in
  let overlap := (minDist - dist) + 1 in
  let separationX := (overlap / 2) * cos angle in
  let separationY := (overlap / 2) * sin angle in
  let vx1 := vx o1 * cs + vy o1 * sn in
  let vy1 := vy o1 * cs - vx o1 * sn in
  let vx2 := vx o2 * cs + vy o2 * sn in
  let vy2 := vy o2 * cs - vx o2 * sn in
  let vx1Final :=
    ((radius o1 - radius o2) * vx1 + 2 * radius o2 * vx2)
    / (radius o1 + radius o2) in
  let vx2Final :=
    ((radius o2 - radius o1) * vx2 + 2 * radius o1 * vx1)
    / (radius o1 + radius o2) in
  let bounceFactor := bounce st in
  (setVel (setPos o1 (x o1 - separationX) (y o1 - separationY))
          ((vx1Final * cs - vy1 * sn) * bounceFactor)
          ((vy1 * cs + vx1Final * sn) * bounceFactor),
   setVel (setPos o2 (x o2 + separationX) (y o2 + separationY))
          ((vx2Final * cs - vy2 * sn) * bounceFactor)
          ((vy2 * cs + vx2Final * sn) * bounceFactor)).

(** [dist < minDist] for the pair. *)
Definition overlapping (o1 o2 : PhysicsObject) : bool :=
  ltb (hypot (x o2 - x o1) (y o2 - y o1)) (radius o1 + radius o2).

(** The body of the inner loop once [o1], [o2] are read and found
    overlapping: the pair after the step, the removal set, the browser. *)
Definition resolveOverlap (st : GameSettings) (o1 o2 : PhysicsObject)
                          (toRemove : list R) (w : Browser)
  : PhysicsObject * PhysicsObject * list R * Browser :=
  let (fusing, w') := canFuse st o1 o2 w in
  if fusing then
    let '(o1', o2', toRemove') := fuse o1 o2 toRemove in
    (o1', o2', toRemove', w')
  else
    let (o1', o2') := bounceApart st o1 o2 in
    (o1', o2', toRemove, w').

(** The body of the inner loop for indices [i < j]. *)
Definition collidePair (st : GameSettings) (i j : nat) (s : PhysState) : PhysState :=
  let '(objects, toRemove, w) := s in
  match nth_error objects i, nth_error objects j with
  | Some o1, Some o2 =>
      if isGrabbed o1 || isGrabbed o2 then s
      else if has toRemove (id o1) || has toRemove (id o2) then s
      else if overlapping o1 o2 then
        let '(o1', o2', toRemove', w') := resolveOverlap st o1 o2 toRemove w in
        (setNth (setNth objects i o1') j o2', toRemove', w')
      else s
  | _, _ => s
  end.

(** [for (let j = i + 1; j < objects.length; j++)] *)
Definition collideRow (st : GameSettings) (n i : nat) (s : PhysState) : PhysState :=
  fold_left (fun s' j => collidePair st i j s') (seq (S i) (n - S i)) s.

(** [for (let i = 0; i < objects.length; i++)] *)
Definition collisionPass (st : GameSettings) (s : PhysState) : PhysState :=
  let n := length (fst (fst s)) in
  fold_left (fun s' i => collideRow st n i s') (seq 0 n) s.

Definition collisions (st : GameSettings) (s : PhysState) : PhysState :=
  if enableCollisions st then collisionPass st s else s.

(* ================================================================= *)
(** ** Rendering: [drawBlob] *)

(** Of the drawing calls only [drawBlob] is kept, the one that [loop] makes
    for every object of the movement pass that is not scheduled for removal
    when its turn comes: it reads the clock once, and it traces the outline
    of the object. *)

(** The canvas path commands that [drawBlob] issues. *)
Inductive PathCmd :=
| BeginPath
| MoveTo (px py : R)
| LineTo (px py : R)
| ClosePath.

Definition points : nat := 12.

(** The point computed by iteration [i] of the loop; [time] is
    [performance.now() / 200], read once before the loop. *)
Definition blobVertex (st : GameSettings) (time x y radius phase : R)
                      (i : nat) : R * R :=
  let angle := (INR i / INR points) * PI * 2 in
  let wobble :=
    if gtb (blobFactor st) 0
    then sin (angle * 3 + time + phase) * blobFactor st
    else 0 in
  let r := radius + wobble in
  (x + cos angle * r, y + sin angle * r).

(** The path of [drawBlob]: [beginPath], the loop
    [for (let i = 0; i <= points; i++)], [closePath]. *)
Definition drawBlob (st : GameSettings) (x y radius phase : R) (w : Browser)
  : list PathCmd * Browser :=
  let (t, w1) := now w in
  let time := t / 200 in
  (BeginPath
   :: map (fun i =>
             let p := blobVertex st time x y radius phase i in
             if (i =? 0)%nat then MoveTo (fst p) (snd p)
             else LineTo (fst p) (snd p))
          (seq 0 (S points))
   ++ [ClosePath],
   w1).

Arguments drawBlob : simpl never.

(** The radius of the outer circle of the gradient that fills the path (the
    last argument of [createRadialGradient]). *)
Definition gradientOuterRadius (st : GameSettings) (radius : R) : R :=
  radius + blobFactor st.

(* ================================================================= *)
(** ** Physics step: movement, walls, eating, removal *)

(** Free-body integration and the four wall tests, in source order. *)
Definition integrate (inp : FrameInput) (obj : PhysicsObject) : PhysicsObject :=
  let st := settings inp in
  let o1 := setVel obj (vx obj) (vy obj + gravity st) in
  let o2 := setPos o1 (x o1 + vx o1) (y o1 + vy o1) in
  let o3 := setVel o2 (vx o2 * friction st) (vy o2 * friction st) in
  let o4 :=
    if ltb (x o3 - radius o3) 0
    then setVel (setPos o3 (radius o3) (y o3)) (Rabs (vx o3) * bounce st) (vy o3)
    else o3 in
  let o5 :=
    if gtb (x o4 + radius o4) (canvasWidth inp)
    then setVel (setPos o4 (canvasWidth inp - radius o4) (y o4))
                (- Rabs (vx o4) * bounce st) (vy o4)
    else o4 in
  let o6 :=
    if ltb (y o5 - radius o5) 0
    then setVel (setPos o5 (x o5) (radius o5)) (vx o5) (Rabs (vy o5) * bounce st)
    else o5 in
  if gtb (y o6 + radius o6) (canvasHeight inp)
  then setVel (setPos o6 (x o6) (canvasHeight inp - radius o6))
              (vx o6) (- Rabs (vy o6) * bounce st)
  else o6.

(** [distToMouth < mouthWidth / 2] *)
Definition inMouth (m : Mouth) (obj : PhysicsObject) : bool :=
  ltb (hypot (x obj - mouthCenterX m) (y obj - mouthCenterY m))
      (mouthWidth m / 2).

(** [// EATING LOGIC]: [performance.now()] is only called when the mouth is
    open and the object is not grabbed. *)
Definition eat (m : Mouth) (obj : PhysicsObject) (toRemove : list R)
               (w : Browser) : list R * Browser :=
  if isMouthOpen m && negb (isGrabbed obj) then
    let (t, w1) := now w in
    if gtb (t - createdAt obj) 2000 then
      if inMouth m obj then (toRemove ++ [id obj], w1) else (toRemove, w1)
    else (toRemove, w1)
  else (toRemove, w).

(** The callback of [// Movement & Eating] for one object; it ends with
    [drawBlob(ctx, obj.x, obj.y, obj.radius, obj.color, obj.wobblePhase)],
    of which the browser after its reading of the clock is kept. *)
Definition moveEatObj (inp : FrameInput) (m : Mouth) (obj : PhysicsObject)
                      (toRemove : list R) (w : Browser)
  : PhysicsObject * list R * Browser :=
  if has toRemove (id obj) then (obj, toRemove, w)
  else
    let obj1 := if isGrabbed obj then obj else integrate inp obj in
    let (toRemove', w') := eat m obj1 toRemove w in
    (obj1, toRemove',
     snd (drawBlob (settings inp) (x obj1) (y obj1) (radius obj1)
                   (wobblePhase obj1) w')).

Fixpoint moveEatPass (inp : FrameInput) (m : Mouth) (objects : list PhysicsObject)
                     (toRemove : list R) (w : Browser) : PhysState :=
  match objects with
  | [] => ([], toRemove, w)
  | obj :: rest =>
      let '(obj', toRemove1, w1) := moveEatObj inp m obj toRemove w in
      let '(rest', toRemove2, w2) := moveEatPass inp m rest toRemove1 w1 in
      (obj' :: rest', toRemove2, w2)
  end.

(** [objectsRef.current.filter(o => !objectsToRemove.has(o.id))], guarded by
    [objectsToRemove.size > 0]. *)
Definition applyRemovals (toRemove : list R)
                         (current : list PhysicsObject) : list PhysicsObject :=
  match toRemove with
  | [] => current
  | _ :: _ => filter (fun o => negb (has toRemove (id o))) current
  end.

(* ================================================================= *)
(** ** The frame *)

Record FrameResult := mkFrameResult {
  resolved : Resolved;                    (* after the interaction resolver *)
  afterCollisions : list PhysicsObject;   (* [objects] after the pairwise pass *)
  fusedAway : list R;                     (* [objectsToRemove] after that pass *)
  afterMovement : list PhysicsObject;     (* [objects] after movement/eating *)
  objectsToRemove : list R;               (* the final removal set *)
  spawned : list PhysicsObject;           (* pushed by [spawnObjects] this frame *)
  refsAfter : Refs                        (* the references when the frame ends *)
}.

Definition loop (inp : FrameInput) (r : Refs) : FrameResult :=
  let res := resolveInteraction inp r in
  let r1 := frameRefs res in
  let objects := frameObjects res in
  let new := spawnedIn objects (objectsRef r1) in
  let '(objects1, toRemove1, w1) :=
    collisions (settings inp) (objects, [], browser r1) in
  let '(objects2, toRemove2, w2) :=
    moveEatPass inp (frameMouth res) objects1 toRemove1 w1 in
  mkFrameResult res objects1 toRemove1 objects2 toRemove2 new
    (mkRefs (applyRemovals toRemove2 (objects2 ++ new))
            (prevHandPosRef r1) (wasPinchingRef r1) (lastShotTimeRef r1) w2).

Arguments integrate : simpl never.

(* ================================================================= *)
(** ** The default population: the mount effect and the reset button *)

(** [spawnObjects(n)]: every argument but the count is left undefined. *)
Definition defaultSpawn (n : nat) : SpawnArgs :=
  mkSpawnArgs n None None None None None None None.

(** The effect that runs on mount and the reset button of the control
    panel: [objectsRef.current = []; spawnObjects(12)]. *)
Definition resetObjects (r : Refs) : Refs :=
  let (objects, w) := spawnObjects (defaultSpawn 12) [] (browser r) in
  mkRefs objects (prevHandPosRef r) (wasPinchingRef r) (lastShotTimeRef r) w.

(* ================================================================= *)
(** ** The interaction resolver in the order of the specification *)

(** A second definition of the resolver, which follows the order of the
    steps in section 4.4 of the specification; it is compared with
    [resolveInteraction], the one that follows the source. *)




(* ================================================================= *)
(** ** Example scenes *)

Module Scene.

(** A browser whose random draws are all [0.5] and whose clocks stand
    still at the given readings. *)
Definition browserAt (t : R) : Browser :=
  mkBrowser (fun _ => 0.5) (fun _ => t) (fun _ => 1000) 1000 800 0 0 0.

(** A free object at rest, created at time 0. *)
Definition ball (i cx cy r : R) : PhysicsObject :=
  mkObject i cx cy 0 0 r "#f43f5e" false None 0 0.

(** References of a session in which no hand has been seen yet. *)
Definition freshRefs (objects : list PhysicsObject) (t : R) : Refs :=
  mkRefs objects (fun _ => None) (fun _ => false) 0 (browserAt t).

(** A hand whose landmarks all sit on the normalized point [(u, v)]:
    thumb and index touch (a pinch), no finger is extended. *)
Definition fist (u v : R) : HandLandmarks :=
  let p := mkLandmark u v in mkHand p p p p p p.

(** A hand in gun pose around the normalized point [(u, v)]: the index tip
    is 0.3 above the wrist, the other tips stay on the wrist. *)
Definition gun (u v : R) : HandLandmarks :=
  let p := mkLandmark u v in
  mkHand p p (mkLandmark u (v - 0.3)) p p p.

(** A wide open mouth, 80 pixels wide, centered on [(100, 100)] of a
    200 x 200 canvas. *)
Definition openMouth : FaceLandmarks :=
  mkFace (mkLandmark 0.5 0.4) (mkLandmark 0.5 0.6)
         (mkLandmark 0.7 0.5) (mkLandmark 0.3 0.5).

Definition frame (hands : list HandLandmarks) (face : option FaceLandmarks)
                 (st : GameSettings) : FrameInput :=
  mkInput 200 200 hands face st.

(** The default settings with fusion certain for every eligible pair. *)
Definition fusing : GameSettings :=
  mkSettings 0 0.995 0.9 60 1.5 "#00ff9d" true false true 1 5.

(** The default settings with a perfectly elastic bounce. *)
Definition elastic : GameSettings :=
  mkSettings 0 0.995 1 60 1.5 "#00ff9d" true false true 0 5.

End Scene.

(** A clock that read 0 at its first reading and reads 5000 since, after
    that first reading. *)
Definition lateBrowser : Browser :=
  mkBrowser (fun _ => 0.5) (fun n => match n with O => 0 | S _ => 5000 end)
            (fun _ => 1000) 1000 800 0 1 0.

(* ================================================================= *)
(** ** Vocabulary of the properties *)

(** Two circles kept apart with the 5 pixel margin of [spawnObjects]. *)
Definition apart (o1 o2 : PhysicsObject) : Prop :=
  radius o1 + radius o2 + 5 <= hypot (x o1 - x o2) (y o1 - y o2).

(** What the placement search maintains for the batch: every placed object
    is apart from the existing world and from the objects placed before it. *)
Definition placedSafely (world batch : list PhysicsObject) : Prop :=
  (forall e o, In e world -> In o batch -> apart e o)
  /\ ForallOrdPairs apart batch.

(** A browser whose random stream is constantly 0.5 in a 1000 x 800 window:
    the placement search then always proposes the point (500, 400). *)
Definition steady (w : Browser) : Prop :=
  mathRandom w = (fun _ => 0.5) /\ innerWidth w = 1000 /\ innerHeight w = 800.

(** The grab fields of an object that [spawnObjects] created during a frame
    with [n] hands: free, or owned by one of the hands. *)
Definition spawnedBy (n : nat) (o : PhysicsObject) : Prop :=
  (isGrabbed o = false /\ grabbedByHandIndex o = None)
  \/ (isGrabbed o = true
      /\ exists h, (h < n)%nat /\ grabbedByHandIndex o = Some h).

(** The double-grab block on one object. *)
Definition grabObj (prev : nat -> option HandPoint) (hps : list HandPos)
                   (obj : PhysicsObject) : PhysicsObject :=
  match doubleGrabHands hps with
  | Some (h0, h1) => doubleGrabObj prev h0 h1 obj
  | None => obj
  end.

(** One hand of the single-hand block on one object. *)
Definition singleHandObj (st : GameSettings) (prev : nat -> option HandPoint)
                         (dg : list R) (hand : HandPos) (handIndex : nat)
                         (obj : PhysicsObject) : PhysicsObject :=
  match prev handIndex with
  | None => obj
  | Some prevPos =>
      applyAction st hand prevPos handIndex
                  (singleHandAction dg hand handIndex obj) obj
  end.

(** All hands of the single-hand block, in order, on one object. *)
Definition singleHandAll (st : GameSettings) (prev : nat -> option HandPoint)
                         (dg : list R) (hps : list HandPos) (start : nat)
                         (obj : PhysicsObject) : PhysicsObject :=
  forEachIndexed (singleHandObj st prev dg) hps start obj.

(** What the preparation loop has established after [n] hands. *)
Definition prepared (r0 : Refs) (n : nat) (s : PrepState) : Prop :=
  let '(r, hps, log) := s in
  exists new,
    objectsRef r = objectsRef r0 ++ new
    /\ log = map EvSpawn new
    /\ prevHandPosRef r = prevHandPosRef r0
    /\ length hps = n
    /\ Forall (spawnedBy n) new.

(** The resolver as a whole: the frame's objects are the objects of the
    store at the start of the frame, each taken through the three grab
    steps; the store is these followed by the objects spawned in the frame. *)
Definition resolveObj (st : GameSettings) (prev : nat -> option HandPoint)
                      (hps : list HandPos) (dg : list R)
                      (obj : PhysicsObject) : PhysicsObject :=
  cleanupObj dg (singleHandAll st prev dg hps 0 (grabObj prev hps obj)).

(** The object is in one of the four grab states of the data model. *)
Definition knownState (o : PhysicsObject) : Prop :=
  grabState o = Ungrabbed \/ grabState o = GrabbedBy 0
  \/ grabState o = GrabbedBy 1 \/ grabState o = SharedGrab.

(** The step of the resolver that an event belongs to. *)
Inductive Phase := PhSpawn | PhDoubleGrab | PhSingleHand | PhCleanup | PhPrevPos.

Definition phaseOf (e : Event) : Phase :=
  match e with
  | EvSpawn _ => PhSpawn
  | EvDoubleGrab _ => PhDoubleGrab
  | EvDrag _ _ | EvGrab _ _ | EvRelease _ _ => PhSingleHand
  | EvStaleRelease _ => PhCleanup
  | EvPrevPos _ => PhPrevPos
  end.

(** Reading the oracles only advances the call counters: the clock that
    [performance.now()] follows stays the same function. *)
Definition sameClock (w w' : Browser) : Prop :=
  performanceNow w' = performanceNow w.

(** The five stages of [integrate]: the move, then the four wall tests. *)
Definition moveStep (inp : FrameInput) (obj : PhysicsObject) : PhysicsObject :=
  let st := settings inp in
  let o1 := setVel obj (vx obj) (vy obj + gravity st) in
  let o2 := setPos o1 (x o1 + vx o1) (y o1 + vy o1) in
  setVel o2 (vx o2 * friction st) (vy o2 * friction st).

Definition wallLeft (inp : FrameInput) (o : PhysicsObject) : PhysicsObject :=
  if ltb (x o - radius o) 0
  then setVel (setPos o (radius o) (y o)) (Rabs (vx o) * bounce (settings inp)) (vy o)
  else o.

Definition wallRight (inp : FrameInput) (o : PhysicsObject) : PhysicsObject :=
  if gtb (x o + radius o) (canvasWidth inp)
  then setVel (setPos o (canvasWidth inp - radius o) (y o))
              (- Rabs (vx o) * bounce (settings inp)) (vy o)
  else o.

Definition wallTop (inp : FrameInput) (o : PhysicsObject) : PhysicsObject :=
  if ltb (y o - radius o) 0
  then setVel (setPos o (x o) (radius o)) (vx o) (Rabs (vy o) * bounce (settings inp))
  else o.

Definition wallBottom (inp : FrameInput) (o : PhysicsObject) : PhysicsObject :=
  if gtb (y o + radius o) (canvasHeight inp)
  then setVel (setPos o (x o) (canvasHeight inp - radius o))
              (vx o) (- Rabs (vy o) * bounce (settings inp))
  else o.

(** What a stage keeps of an object: everything but position and velocity. *)
Definition sameBody (o o' : PhysicsObject) : Prop :=
  id o' = id o /\ radius o' = radius o /\ isGrabbed o' = isGrabbed o
  /\ grabbedByHandIndex o' = grabbedByHandIndex o
  /\ createdAt o' = createdAt o /\ color o' = color o
  /\ wobblePhase o' = wobblePhase o.

(** What the whole physics step keeps of an object: its identity, its age
    and its ownership. *)
Definition sameIdentity (o o' : PhysicsObject) : Prop :=
  id o' = id o /\ isGrabbed o' = isGrabbed o
  /\ grabbedByHandIndex o' = grabbedByHandIndex o
  /\ createdAt o' = createdAt o.

(** How the movement pass relates an object to what it leaves in its place,
    given the removal set at the end of the pass. *)
Definition moved (inp : FrameInput) (finalRemove : list R)
                 (o o' : PhysicsObject) : Prop :=
  (o' = o \/ o' = integrate inp o)
  /\ (isGrabbed o = true -> o' = o)
  /\ (isGrabbed o = false -> has finalRemove (id o) = false ->
      o' = integrate inp o).

(** [o] is the object that hand [j] pulls from the open mouth. *)
Definition pulledBy (m : Mouth) (wasPinching : nat -> bool) (j : nat)
                    (hp : HandPos) (o : PhysicsObject) : Prop :=
  isMouthOpen m = true /\ isPinching hp = true /\ wasPinching j = false
  /\ hypot (handX hp - mouthCenterX m) (handY hp - mouthCenterY m)
     < mouthWidth m * 2
  /\ x o = handX hp /\ y o = handY hp /\ vx o = 0 /\ vy o = 0
  /\ radius o = 45 /\ grabState o = GrabbedBy j.

(** [o] is the projectile shot by the hand [hp]. *)
Definition shotBy (hp : HandPos) (o : PhysicsObject) : Prop :=
  isGun hp = true /\ velocityY hp < -15
  /\ x o = tipX hp /\ y o = tipY hp /\ vx o = 0 /\ vy o = -25
  /\ radius o = 10 /\ grabState o = Ungrabbed.

(** [o] was spawned by one of the hands of [hps]. *)
Definition spawnedFrom (m : Mouth) (wasPinching : nat -> bool)
                       (hps : list HandPos) (o : PhysicsObject) : Prop :=
  exists j hp, nth_error hps j = Some hp
               /\ (pulledBy m wasPinching j hp o \/ shotBy hp o).

(** What the preparation loop has established about origins and pinch flags
    after the hands [hps]. *)
Definition traced (m : Mouth) (r0 : Refs) (n : nat) (s : PrepState) : Prop :=
  let '(r, hps, log) := s in
  length hps = n
  /\ (exists new, objectsRef r = objectsRef r0 ++ new
                  /\ Forall (spawnedFrom m (wasPinchingRef r0) hps) new)
  /\ (forall j, (n <= j)%nat -> wasPinchingRef r j = wasPinchingRef r0 j)
  /\ (forall j hp, nth_error hps j = Some hp ->
                   wasPinchingRef r j = isPinching hp).

(** An open hand around the normalized point [(u, v)]: thumb and index tips
    are 0.6 apart, the other tips stay on the wrist. *)
Definition openHand (u v : R) : HandLandmarks :=
  mkHand (mkLandmark u v) (mkLandmark (u - 0.3) v) (mkLandmark (u + 0.3) v)
         (mkLandmark u v) (mkLandmark u v) (mkLandmark u v).

(** Sum of [radius * f] over the objects. *)
Definition weighted (f : PhysicsObject -> R) (objects : list PhysicsObject) : R :=
  fold_right (fun o acc => radius o * f o + acc) 0 objects.

(** The random stream as [Math.random] promises it: every draw in [0, 1). *)
Definition unitDraws (w : Browser) : Prop :=
  forall n, 0 <= mathRandom w n < 1.

(** What a default spawn gives to an object in the window of [w]. *)
Definition defaultObject (w : Browser) (o : PhysicsObject) : Prop :=
  20 <= radius o < 45
  /\ 100 <= x o <= innerWidth w - 100
  /\ 100 <= y o <= innerHeight w - 100
  /\ -3 <= vx o < 3 /\ -3 <= vy o < 3
  /\ grabState o = Ungrabbed
  /\ In (color o) colors
  /\ 0 <= wobblePhase o < 2 * PI.

(** The parts of the browser that a call leaves alone. *)
Definition sameWindow (w w' : Browser) : Prop :=
  mathRandom w' = mathRandom w /\ innerWidth w' = innerWidth w
  /\ innerHeight w' = innerHeight w.

(** Squared speed; [weighted speed2] is twice the kinetic energy of the
    objects, the radii in the role of masses. *)
Definition speed2 (o : PhysicsObject) : R := vx o * vx o + vy o * vy o.

(** The same detection results on a canvas [c] times as large. *)
Definition scaleCanvas (c : R) (inp : FrameInput) : FrameInput :=
  mkInput (c * canvasWidth inp) (c * canvasHeight inp) (handResult inp)
          (faceResult inp) (settings inp).

(** A landmark seen in a picture that is shifted by [(dx, dy)] and, when
    [mirror] is set, flipped horizontally. *)
Definition placeLandmark (mirror : bool) (dx dy : R) (p : Landmark) : Landmark :=
  mkLandmark ((if mirror then 1 - lmx p else lmx p) + dx) (lmy p + dy).

(** Reading the oracles never takes a call of the clock back. *)
Definition callsAdvance (w w' : Browser) : Prop :=
  (nowCalls w <= nowCalls w')%nat.

(** The browser as the movement pass finds it when it reaches the object of
    index [k] of the frame. *)
Definition browserAtObject (inp : FrameInput) (r : Refs) (k : nat) : Browser :=
  let res := resolveInteraction inp r in
  let '(objects1, toRemove1, w1) :=
    collisions (settings inp) (frameObjects res, [], browser (frameRefs res)) in
  snd (moveEatPass inp (frameMouth res) (firstn k objects1) toRemove1 w1).

(** The call of [performance.now()] that the eating test of the object of
    index [k] makes (counted from the start of the session). *)
Definition eatingCall (inp : FrameInput) (r : Refs) (k : nat) : nat :=
  nowCalls (browserAtObject inp r k).

(** The eating test as the object of index [k] meets it; [o] is the object
    after its movement. *)
Definition eatingTest (inp : FrameInput) (r : Refs) (k : nat)
                      (o : PhysicsObject) : Prop :=
  let m := mouthLogic inp in
  isMouthOpen m = true
  /\ isGrabbed o = false
  /\ performanceNow (browser r) (eatingCall inp r k) - createdAt o > 2000
  /\ hypot (x o - mouthCenterX m) (y o - mouthCenterY m) < mouthWidth m / 2.

(** The test of [eat] on the browser it is given. *)
Definition eats (m : Mouth) (w : Browser) (o : PhysicsObject) : Prop :=
  isMouthOpen m = true /\ isGrabbed o = false
  /\ performanceNow w (nowCalls w) - createdAt o > 2000
  /\ inMouth m o = true.


(* ================================================================= *)
(** * Properties *)

(** ** Numbers: comparisons, [hypot] and the angle of contact *)

Section NumFacts.

Lemma ltb_true_iff (a b : R) : ltb a b = true <-> a < b.
Proof. unfold ltb; destruct (Rlt_dec a b); split; intros; try easy. Qed.

Lemma ltb_false_iff (a b : R) : ltb a b = false <-> b <= a.
Proof.
  unfold ltb; destruct (Rlt_dec a b); split; intros; try easy; lra.
Qed.

Lemma ltb_lt (a b : R) : a < b -> ltb a b = true.
Proof. apply ltb_true_iff. Qed.

Lemma ltb_ge (a b : R) : b <= a -> ltb a b = false.
Proof. apply ltb_false_iff. Qed.

Lemma gtb_true_iff (a b : R) : gtb a b = true <-> a > b.
Proof. unfold gtb; rewrite ltb_true_iff; lra. Qed.

Lemma gtb_false_iff (a b : R) : gtb a b = false <-> a <= b.
Proof. unfold gtb; rewrite ltb_false_iff; lra. Qed.

Lemma geb_true_iff (a b : R) : geb a b = true <-> a >= b.
Proof.
  unfold geb; rewrite negb_true_iff, ltb_false_iff; lra.
Qed.

Lemma eqb_true_iff (a b : R) : eqb a b = true <-> a = b.
Proof. unfold eqb; destruct (Req_dec_T a b); split; intros; easy. Qed.

Lemma eqb_refl (a : R) : eqb a a = true.
Proof. now apply eqb_true_iff. Qed.

Lemma has_In (s : list R) (i : R) : has s i = true <-> In i s.
Proof.
  unfold has; rewrite existsb_exists; split.
  - intros [k [Hk He]]. apply eqb_true_iff in He. now subst.
  - intros H. exists i. split; [assumption | apply eqb_refl].
Qed.

Lemma has_false (s : list R) (i : R) : has s i = false <-> ~ In i s.
Proof.
  rewrite <- has_In. destruct (has s i); split; intros; easy.
Qed.

Lemma has_app (s t : list R) (i : R) : has (s ++ t) i = has s i || has t i.
Proof. unfold has. apply existsb_app. Qed.

Lemma sumsq_nonneg (a b : R) : 0 <= a * a + b * b.
Proof. nra. Qed.

Lemma hypot_nonneg (a b : R) : 0 <= hypot a b.
Proof. apply sqrt_pos. Qed.

Lemma hypot_sq (a b : R) : hypot a b * hypot a b = a * a + b * b.
Proof. apply sqrt_sqrt, sumsq_nonneg. Qed.

(** A non-negative number with the right square is the [hypot]. *)
Lemma hypot_unique (a b h : R) : 0 <= h -> h * h = a * a + b * b -> hypot a b = h.
Proof.
  intros Hh Hsq. unfold hypot. rewrite <- Hsq. now apply sqrt_square.
Qed.

Lemma hypot_0_r (a : R) : hypot a 0 = Rabs a.
Proof.
  apply hypot_unique; [apply Rabs_pos |].
  unfold Rabs; destruct (Rcase_abs a); lra.
Qed.

Lemma hypot_lt (a b r : R) : 0 < r -> a * a + b * b < r * r -> hypot a b < r.
Proof.
  intros Hr H. pose proof (hypot_nonneg a b). pose proof (hypot_sq a b). nra.
Qed.

Lemma hypot_ge (a b r : R) : r * r <= a * a + b * b -> r <= hypot a b.
Proof.
  intros H. pose proof (hypot_nonneg a b). pose proof (hypot_sq a b).
  destruct (Rle_dec r (hypot a b)); [assumption | nra].
Qed.

Lemma hypot_pos (a b : R) : a <> 0 \/ b <> 0 -> 0 < hypot a b.
Proof.
  intros H. pose proof (hypot_nonneg a b). pose proof (hypot_sq a b).
  destruct (Req_dec (hypot a b) 0) as [E|E]; [| lra].
  rewrite E in *. exfalso. destruct H; nra.
Qed.

Lemma hypot_zero (a b : R) : hypot a b = 0 -> a = 0 /\ b = 0.
Proof.
  intros E. pose proof (hypot_sq a b) as H. rewrite E in H. split; nra.
Qed.

(** [sqrt (1 + t²)] for the slope [t = b / a]. *)
Lemma sqrt_slope (a b : R) :
  a <> 0 -> sqrt (1 + (b / a)²) = hypot a b / Rabs a.
Proof.
  intros Ha.
  assert (Hab : 0 < Rabs a) by now apply Rabs_pos_lt.
  assert (Hsq : Rabs a * Rabs a = a * a).
  { unfold Rabs; destruct (Rcase_abs a); lra. }
  replace (1 + (b / a)²) with ((a * a + b * b) / (Rabs a * Rabs a)).
  - rewrite sqrt_div_alt by nra. rewrite sqrt_square by lra. reflexivity.
  - rewrite Hsq. unfold Rsqr. field. assumption.
Qed.

Lemma cos_atan_slope (a b : R) :
  a <> 0 -> cos (atan (b / a)) = Rabs a / hypot a b.
Proof.
  intros Ha. rewrite cos_atan, sqrt_slope by assumption.
  assert (0 < Rabs a) by now apply Rabs_pos_lt.
  assert (0 < hypot a b) by (apply hypot_pos; now left).
  field. lra.
Qed.

Lemma sin_atan_slope (a b : R) :
  a <> 0 -> sin (atan (b / a)) = (b / a) * (Rabs a / hypot a b).
Proof.
  intros Ha. rewrite sin_atan, sqrt_slope by assumption.
  assert (0 < Rabs a) by now apply Rabs_pos_lt.
  assert (0 < hypot a b) by (apply hypot_pos; now left).
  field. lra.
Qed.

Lemma cos_minus_PI (t : R) : cos (t - PI) = - cos t.
Proof.
  replace (t - PI) with (- (PI - t)) by lra.
  rewrite cos_neg. replace (PI - t) with (- t + PI) by lra.
  rewrite neg_cos, cos_neg. reflexivity.
Qed.

Lemma sin_minus_PI (t : R) : sin (t - PI) = - sin t.
Proof.
  replace (t - PI) with (- (PI - t)) by lra.
  rewrite sin_antisym. replace (PI - t) with (- t + PI) by lra.
  rewrite neg_sin, sin_antisym. lra.
Qed.

(** The contact normal: for two distinct centers, [cos] and [sin] of
    [atan2 dy dx] are the components of the unit vector along [(dx, dy)]. *)
Lemma cos_atan2 (dx dy : R) :
  dx <> 0 \/ dy <> 0 -> cos (atan2 dy dx) = dx / hypot dx dy.
Proof.
  intros Hnz. assert (Hh : 0 < hypot dx dy) by now apply hypot_pos.
  unfold atan2.
  destruct (Rlt_dec 0 dx) as [Hp|Hp].
  - rewrite cos_atan_slope by lra. rewrite Rabs_right by lra. reflexivity.
  - destruct (Rlt_dec dx 0) as [Hn|Hn].
    + assert (E : Rabs dx = - dx) by (apply Rabs_left; assumption).
      destruct (Rlt_dec dy 0).
      * rewrite cos_minus_PI, cos_atan_slope, E by lra. field. lra.
      * rewrite neg_cos, cos_atan_slope, E by lra. field. lra.
    + assert (dx = 0) by lra. subst dx.
      destruct (Rlt_dec 0 dy); [rewrite cos_PI2; field; lra |].
      destruct (Rlt_dec dy 0); [rewrite cos_neg, cos_PI2; field; lra |].
      exfalso. destruct Hnz; lra.
Qed.

Lemma sin_atan2 (dx dy : R) :
  dx <> 0 \/ dy <> 0 -> sin (atan2 dy dx) = dy / hypot dx dy.
Proof.
  intros Hnz. assert (Hh : 0 < hypot dx dy) by now apply hypot_pos.
  unfold atan2.
  destruct (Rlt_dec 0 dx) as [Hp|Hp].
  - rewrite sin_atan_slope by lra. rewrite Rabs_right by lra. field. lra.
  - destruct (Rlt_dec dx 0) as [Hn|Hn].
    + assert (E : Rabs dx = - dx) by (apply Rabs_left; assumption).
      destruct (Rlt_dec dy 0).
      * rewrite sin_minus_PI, sin_atan_slope, E by lra. field. lra.
      * rewrite neg_sin, sin_atan_slope, E by lra. field. lra.
    + assert (dx = 0) by lra. subst dx.
      assert (Ey : hypot 0 dy = Rabs dy).
      { apply hypot_unique; [apply Rabs_pos |].
        unfold Rabs; destruct (Rcase_abs dy); lra. }
      rewrite Ey in *.
      destruct (Rlt_dec 0 dy).
      * rewrite sin_PI2, Rabs_right by lra. field. lra.
      * destruct (Rlt_dec dy 0).
        -- rewrite sin_antisym, sin_PI2, Rabs_left by lra. field. lra.
        -- exfalso. destruct Hnz; lra.
Qed.

Lemma atan2_0_0 : atan2 0 0 = 0.
Proof.
  unfold atan2.
  destruct (Rlt_dec 0 0); [lra |]. reflexivity.
Qed.

End NumFacts.

(* ================================================================= *)
(** ** Lists: in-place updates and loop invariants *)

Section ListFacts.

Context {A : Type}.

Lemma length_setNth (l : list A) (n : nat) (v : A) :
  length (setNth l n v) = length l.
Proof.
  revert n; induction l as [|a l IH]; intros [|n]; simpl; auto.
Qed.

Lemma nth_error_setNth_eq (l : list A) (n : nat) (v : A) :
  (n < length l)%nat -> nth_error (setNth l n v) n = Some v.
Proof.
  revert n; induction l as [|a l IH]; intros [|n] H; simpl in *;
    try lia; auto.
  apply IH. lia.
Qed.

Lemma nth_error_setNth_ne (l : list A) (n m : nat) (v : A) :
  n <> m -> nth_error (setNth l n v) m = nth_error l m.
Proof.
  revert n m; induction l as [|a l IH]; intros [|n] [|m] H; simpl;
    try congruence; auto.
Qed.

Lemma map_setNth_same {B : Type} (f : A -> B) (l : list A) (n : nat) (a v : A) :
  nth_error l n = Some a -> f v = f a -> map f (setNth l n v) = map f l.
Proof.
  revert n; induction l as [|b l IH]; intros [|n] Hn Hf; simpl in *;
    try discriminate.
  - injection Hn as ->. now rewrite Hf.
  - f_equal. now apply IH.
Qed.

(** An invariant of the loop body is an invariant of the loop. *)
Lemma fold_left_invariant {B : Type} (P : A -> Prop) (f : A -> B -> A)
                          (l : list B) (s : A) :
  P s -> (forall s' b, P s' -> P (f s' b)) -> P (fold_left f l s).
Proof.
  intros Hs Hf. revert s Hs.
  induction l as [|b l IH]; intros s Hs; simpl; auto.
Qed.

End ListFacts.

(** Setters and the fields they leave alone. *)
Lemma radius_bounceApart (st : GameSettings) (o1 o2 : PhysicsObject) :
  radius (fst (bounceApart st o1 o2)) = radius o1
  /\ radius (snd (bounceApart st o1 o2)) = radius o2.
Proof. split; reflexivity. Qed.

(** The guarded filter at the end of the frame is a plain filter. *)
Lemma applyRemovals_filter (toRemove : list R) (current : list PhysicsObject) :
  applyRemovals toRemove current
  = filter (fun o => negb (has toRemove (id o))) current.
Proof.
  destruct toRemove as [|i l]; [| reflexivity].
  simpl. induction current as [|o c IH]; simpl; [reflexivity |].
  now rewrite <- IH.
Qed.

(* ================================================================= *)
(** ** Fusion *)

Lemma canFuse_off (st : GameSettings) (o1 o2 : PhysicsObject) (w : Browser) :
  fusionChance st = 0 -> fst (canFuse st o1 o2 w) = false.
Proof.
  intros H. unfold canFuse. destruct (now w) as [t w1].
  rewrite H. replace (gtb 0 0) with false; [reflexivity |].
  symmetry. apply gtb_false_iff. lra.
Qed.

(** With fusion switched off, one step of the inner loop neither schedules a
    removal nor changes a radius. *)
Lemma collidePair_fusion_off (st : GameSettings) (i j : nat) (s : PhysState) :
  fusionChance st = 0 ->
  snd (fst (collidePair st i j s)) = snd (fst s)
  /\ map radius (fst (fst (collidePair st i j s))) = map radius (fst (fst s)).
Proof.
  intros Hoff. destruct s as [[objects toRemove] w]. unfold collidePair.
  destruct (nth_error objects i) as [o1|] eqn:E1; [| now split].
  destruct (nth_error objects j) as [o2|] eqn:E2; [| now split].
  destruct (isGrabbed o1 || isGrabbed o2); [now split |].
  destruct (has toRemove (id o1) || has toRemove (id o2)); [now split |].
  destruct (overlapping o1 o2); [| now split].
  unfold resolveOverlap.
  pose proof (canFuse_off st o1 o2 w Hoff) as Hc.
  destruct (canFuse st o1 o2 w) as [fusing w']. simpl in Hc. subst fusing.
  destruct (bounceApart st o1 o2) as [o1' o2'] eqn:Eb.
  pose proof (radius_bounceApart st o1 o2) as [R1 R2].
  rewrite Eb in R1, R2. simpl in R1, R2. simpl. split; [reflexivity |].
  destruct (Nat.eq_dec i j) as [->|Hij].
  - assert (o1 = o2) by congruence. subst o2.
    assert (Hlt : (j < length objects)%nat)
      by (apply nth_error_Some; congruence).
    rewrite (map_setNth_same radius _ j o1' o2').
    + now apply map_setNth_same with (a := o1).
    + apply nth_error_setNth_eq. assumption.
    + congruence.
  - rewrite (map_setNth_same radius _ j o2 o2').
    + now apply map_setNth_same with (a := o1).
    + rewrite nth_error_setNth_ne by assumption. assumption.
    + assumption.
Qed.

Lemma collisionPass_fusion_off (st : GameSettings) (s : PhysState) :
  fusionChance st = 0 ->
  snd (fst (collisionPass st s)) = snd (fst s)
  /\ map radius (fst (fst (collisionPass st s))) = map radius (fst (fst s)).
Proof.
  intros Hoff. unfold collisionPass.
  apply (fold_left_invariant
           (fun s' => snd (fst s') = snd (fst s)
                      /\ map radius (fst (fst s')) = map radius (fst (fst s))));
    [now split |].
  intros s1 i [H1 H2]. unfold collideRow.
  apply (fold_left_invariant
           (fun s' => snd (fst s') = snd (fst s)
                      /\ map radius (fst (fst s')) = map radius (fst (fst s))));
    [now split |].
  intros s2 j [H3 H4].
  destruct (collidePair_fusion_off st i j s2 Hoff) as [H5 H6].
  split; congruence.
Qed.

(** The fields of a frame result in terms of its stages. *)
Lemma loop_collisions (inp : FrameInput) (r : Refs) :
  let res := resolveInteraction inp r in
  fst (fst (collisions (settings inp)
                       (frameObjects res, [], browser (frameRefs res))))
  = afterCollisions (loop inp r)
  /\ snd (fst (collisions (settings inp)
                          (frameObjects res, [], browser (frameRefs res))))
     = fusedAway (loop inp r)
  /\ resolved (loop inp r) = res.
Proof.
  unfold loop. cbv zeta.
  destruct (collisions _ _) as [[objects1 toRemove1] w1].
  destruct (moveEatPass _ _ _ _ _) as [[objects2 toRemove2] w2].
  simpl. auto.
Qed.

(** C3. Whenever [fusionChance] is 0, no pair can fuse, whatever the random
    draws and the clock are: the fusion test is false for every pair, and in
    every frame the pairwise pass schedules no removal and leaves every
    radius as it was. *)
Theorem fusion_impossible_when_chance_is_zero (inp : FrameInput) (r : Refs) :
  fusionChance (settings inp) = 0 ->
  (forall o1 o2 w, fst (canFuse (settings inp) o1 o2 w) = false)
  /\ fusedAway (loop inp r) = []
  /\ map radius (afterCollisions (loop inp r))
     = map radius (frameObjects (resolved (loop inp r))).
Proof.
  intros Hoff. split; [intros; now apply canFuse_off |].
  destruct (loop_collisions inp r) as [H1 [H2 H3]].
  rewrite <- H1, <- H2, H3. unfold collisions.
  destruct (enableCollisions (settings inp)); [| now split].
  destruct (collisionPass_fusion_off (settings inp)
              (frameObjects (resolveInteraction inp r), [],
               browser (frameRefs (resolveInteraction inp r))) Hoff) as [A B].
  split; [exact A | exact B].
Qed.

(* ================================================================= *)
(** ** Evaluating the code on concrete scenes *)

Lemma eqb_eq (a b : R) : a = b -> eqb a b = true.
Proof. apply eqb_true_iff. Qed.

Lemma eqb_neq (a b : R) : a <> b -> eqb a b = false.
Proof.
  intros H. unfold eqb. destruct (Req_dec_T a b); [contradiction | reflexivity].
Qed.

Lemma hypot_axis_x (a b : R) : b = 0 -> 0 <= a -> hypot a b = a.
Proof. intros -> H. rewrite hypot_0_r. now apply Rabs_right, Rle_ge. Qed.

Lemma hypot_axis_x_neg (a b : R) : b = 0 -> a <= 0 -> hypot a b = - a.
Proof.
  intros -> H. rewrite hypot_0_r. unfold Rabs. destruct (Rcase_abs a); lra.
Qed.

Lemma hypot_sym (a b : R) : hypot a b = hypot b a.
Proof. unfold hypot. f_equal. lra. Qed.

Lemma hypot_axis_y (a b : R) : a = 0 -> 0 <= b -> hypot a b = b.
Proof. intros. rewrite hypot_sym. now apply hypot_axis_x. Qed.

Lemma hypot_axis_y_neg (a b : R) : a = 0 -> b <= 0 -> hypot a b = - b.
Proof. intros. rewrite hypot_sym. now apply hypot_axis_x_neg. Qed.

(** Side conditions of comparisons between concrete numbers. *)
Ltac cmp_side :=
  cbn;
  first [ lra
        | apply hypot_lt; [lra | nra]
        | apply hypot_ge; nra ].

Lemma cos_atan2_same (a b : R) : a = 0 -> b = 0 -> cos (atan2 b a) = 1.
Proof. intros -> ->. rewrite atan2_0_0. apply cos_0. Qed.

Lemma sin_atan2_same (a b : R) : a = 0 -> b = 0 -> sin (atan2 b a) = 0.
Proof. intros -> ->. rewrite atan2_0_0. apply sin_0. Qed.

Ltac num_step :=
  match goal with
  | |- context [cos (atan2 ?b ?a)] =>
      first [ rewrite (cos_atan2 a b) by (left; lra)
            | rewrite (cos_atan2 a b) by (right; lra)
            | rewrite (cos_atan2_same a b) by lra ]
  | |- context [sin (atan2 ?b ?a)] =>
      first [ rewrite (sin_atan2 a b) by (left; lra)
            | rewrite (sin_atan2 a b) by (right; lra)
            | rewrite (sin_atan2_same a b) by lra ]
  | |- context [hypot ?a ?b] =>
      first [ rewrite (hypot_axis_x a b) by lra
            | rewrite (hypot_axis_x_neg a b) by lra
            | rewrite (hypot_axis_y a b) by lra
            | rewrite (hypot_axis_y_neg a b) by lra ]
  | |- context [ltb ?a ?b] =>
      first [ rewrite (ltb_lt a b) by cmp_side
            | rewrite (ltb_ge a b) by cmp_side ]
  | |- context [eqb ?a ?b] =>
      first [ rewrite (eqb_eq a b) by cmp_side
            | rewrite (eqb_neq a b) by cmp_side ]
  end.

(** The tests of the code that stand between a concrete input and its
    comparisons. *)
Create HintDb game.
#[global] Hint Unfold isSafe tooClose overlapping inMouth qualifies heldBy
  heldByOther isStale clampRadius isGunGesture gtb geb has : game.

(** Runs the embedded code on a concrete input. *)
Ltac num_eval :=
  repeat first [ progress (autounfold with game) | progress cbn | num_step ].

(** C10. When two overlapping eligible objects fuse and their radii are
    equal, the object at the smaller index of the store (the first operand
    [o1] of the pair) is the one that absorbs: its radius grows by 0.4 times
    the radius of the other and nothing else of it changes; the later object
    [o2] is left as it is, its id is the one added to the removal set, and
    the filter at the end of the frame drops it.  The first object is not
    scheduled by this step unless it carries the same id as the second. *)
Theorem equal_radii_fusion_favours_first
    (st : GameSettings) (i j : nat) (objects : list PhysicsObject)
    (toRemove : list R) (w : Browser) (o1 o2 : PhysicsObject) :
  (i < j)%nat ->
  nth_error objects i = Some o1 ->
  nth_error objects j = Some o2 ->
  isGrabbed o1 = false -> isGrabbed o2 = false ->
  has toRemove (id o1) = false -> has toRemove (id o2) = false ->
  overlapping o1 o2 = true ->
  fst (canFuse st o1 o2 w) = true ->
  radius o1 = radius o2 ->
  let s' := collidePair st i j (objects, toRemove, w) in
  exists o1',
    nth_error (fst (fst s')) i = Some o1'
    /\ radius o1' = radius o1 + 0.4 * radius o2
    /\ id o1' = id o1 /\ x o1' = x o1 /\ y o1' = y o1
    /\ vx o1' = vx o1 /\ vy o1' = vy o1
    /\ grabState o1' = grabState o1 /\ createdAt o1' = createdAt o1
    /\ nth_error (fst (fst s')) j = Some o2
    /\ snd (fst s') = toRemove ++ [id o2]
    /\ (id o1 <> id o2 -> has (snd (fst s')) (id o1) = false)
    /\ (forall current, ~ In o2 (applyRemovals (snd (fst s')) current)).
Proof.
  intros Hij E1 E2 G1 G2 R1 R2 Hov Hfuse Hrad. unfold collidePair.
  rewrite E1, E2, G1, G2, R1, R2, Hov. simpl orb. cbv iota.
  unfold resolveOverlap.
  destruct (canFuse st o1 o2 w) as [fusing w']. simpl in Hfuse. subst fusing.
  unfold fuse. replace (geb (radius o1) (radius o2)) with true
    by (symmetry; apply geb_true_iff; lra).
  cbv zeta. simpl fst. simpl snd.
  assert (Hi : (i < length objects)%nat) by (apply nth_error_Some; congruence).
  assert (Hj : (j < length objects)%nat) by (apply nth_error_Some; congruence).
  exists (setRadius o1 (radius o1 + radius o2 * 0.4)).
  split; [rewrite nth_error_setNth_ne by lia; now apply nth_error_setNth_eq |].
  split; [cbn; lra |].
  do 7 (split; [reflexivity |]).
  split; [apply nth_error_setNth_eq; now rewrite length_setNth |].
  split; [reflexivity |]. split.
  - intros Hne. rewrite has_app, R1. simpl. rewrite eqb_neq by assumption.
    reflexivity.
  - intros current Hin. rewrite applyRemovals_filter in Hin.
    apply filter_In in Hin as [_ Hneg].
    rewrite has_app in Hneg. simpl in Hneg. rewrite eqb_refl in Hneg.
    rewrite orb_true_r in Hneg. discriminate.
Qed.

Lemma equal_radii_fusion_favours_first_witness :
  let a := Scene.ball 1 0 0 30 in
  let b := Scene.ball 2 10 0 30 in
  let s' := collidePair Scene.fusing 0 1 ([a; b], [], Scene.browserAt 5000) in
  exists a', nth_error (fst (fst s')) 0 = Some a'
             /\ radius a' = 42 /\ id a' = 1
             /\ nth_error (fst (fst s')) 1 = Some b
             /\ snd (fst s') = [2].
Proof.
  intros a b.
  destruct (equal_radii_fusion_favours_first Scene.fusing 0 1 [a; b] []
              (Scene.browserAt 5000) a b)
    as [a' [H0 [Hr [Hi [_ [_ [_ [_ [_ [_ [H1 [Hrm _]]]]]]]]]]]];
    try reflexivity; try lia.
  - unfold overlapping. num_eval. reflexivity.
  - unfold canFuse. num_eval. reflexivity.
  - exists a'. split; [exact H0 |]. split; [rewrite Hr; cbn; lra |].
    split; [exact Hi |]. split; [exact H1 | exact Hrm].
Defined.

(* ================================================================= *)
(** ** Two-hand resize *)






Lemma fusion_impossible_when_chance_is_zero_witness :
  let inp := Scene.frame [] None INITIAL_SETTINGS in
  let r := Scene.freshRefs [Scene.ball 1 50 50 30; Scene.ball 2 60 50 30] 5000 in
  (forall o1 o2 w, fst (canFuse (settings inp) o1 o2 w) = false)
  /\ fusedAway (loop inp r) = []
  /\ map radius (afterCollisions (loop inp r))
     = map radius (frameObjects (resolved (loop inp r))).
Proof.
  intros inp r.
  apply (fusion_impossible_when_chance_is_zero inp r).
  reflexivity.
Defined.

(* ================================================================= *)
(** ** Gun shots *)

(** C7, as the code has it. For a hand in gun pose whose pinch point moved up
    by more than 15 pixels since the previous frame: when MORE than 300ms have
    elapsed since the last shot, exactly one object is appended to the store,
    at the index fingertip, with velocity (0,-25) and radius 10, owned by no
    hand, and the time of the last shot becomes the current time; when 300ms
    or less have elapsed, nothing is spawned and the timer is left alone. *)
Theorem gun_shot_needs_more_than_300ms (hp : HandPos) (r : Refs) :
  isGun hp = true ->
  velocityY hp < -15 ->
  let t := fst (now (browser r)) in
  (t - lastShotTimeRef r > 300 ->
   exists bullet,
     objectsRef (fst (gunShot hp r)) = objectsRef r ++ [bullet]
     /\ snd (gunShot hp r) = [EvSpawn bullet]
     /\ x bullet = tipX hp /\ y bullet = tipY hp
     /\ vx bullet = 0 /\ vy bullet = -25 /\ radius bullet = 10
     /\ grabState bullet = Ungrabbed /\ grabbedByHandIndex bullet = None
     /\ lastShotTimeRef (fst (gunShot hp r)) = t)
  /\ (t - lastShotTimeRef r <= 300 ->
      objectsRef (fst (gunShot hp r)) = objectsRef r
      /\ snd (gunShot hp r) = []
      /\ lastShotTimeRef (fst (gunShot hp r)) = lastShotTimeRef r).
Proof.
  intros Hgun Hv t. subst t. unfold gunShot.
  rewrite Hgun, (ltb_lt _ _ Hv). cbn.
  split; intros Ht.
  - apply gtb_true_iff in Ht. rewrite Ht. cbn.
    eexists. repeat split.
  - apply gtb_false_iff in Ht. rewrite Ht. cbn. repeat split.
Qed.

Lemma gun_shot_needs_more_than_300ms_witness :
  let inp := Scene.frame [Scene.gun 0.5 0.5] None INITIAL_SETTINGS in
  let prev := setKey (fun _ => None) 0%nat (Some (mkHandPoint 100 90)) in
  let hp := classifyHand inp prev 0 (Scene.gun 0.5 0.5) in
  let clock := fun n => 500 + 50 * INR n in
  let r := mkRefs [] prev (fun _ => false) 0
                  (mkBrowser (fun _ => 0.5) clock (fun _ => 1000) 1000 800 0 0 0) in
  (* first flick, 500ms after the last shot: one bullet *)
  (exists bullet,
      objectsRef (fst (gunShot hp r)) = [bullet]
      /\ x bullet = 100 /\ y bullet = 40 /\ vx bullet = 0 /\ vy bullet = -25
      /\ lastShotTimeRef (fst (gunShot hp r)) = 500)
  (* repeat flick 100ms later: nothing *)
  /\ length (objectsRef (fst (gunShot hp (fst (gunShot hp r))))) = 1%nat.
Proof.
  intros inp prev hp clock r.
  assert (Hgun : isGun hp = true).
  { unfold hp, classifyHand, isGunGesture. num_eval. reflexivity. }
  assert (Hv : velocityY hp < -15) by (unfold hp; cbn; lra).
  destruct (gun_shot_needs_more_than_300ms hp r Hgun Hv) as [Hshoot _].
  destruct Hshoot as [bullet [H1 [_ [H3 [H4 [H5 [H6 [_ [_ [_ H10]]]]]]]]]].
  { unfold r, clock. cbn. lra. }
  split.
  - exists bullet. rewrite H1, H3, H4, H5, H6, H10. unfold r, clock. cbn.
    repeat split; lra.
  - destruct (gun_shot_needs_more_than_300ms hp (fst (gunShot hp r)) Hgun Hv)
      as [_ Hwait].
    destruct Hwait as [H _].
    + rewrite H10. unfold gunShot. rewrite Hgun, (ltb_lt _ _ Hv).
      unfold r, clock. num_eval. lra.
    + rewrite H, H1. reflexivity.
Defined.

(** C7 as stated fails at the boundary: with exactly 300ms elapsed ("at
    least 300ms") the strict test [now - last > 300] is false and no
    projectile is spawned. *)
Lemma gun_shot_at_exactly_300ms_counterexample :
  ~ (forall (hp : HandPos) (r : Refs),
        isGun hp = true ->
        velocityY hp < -15 ->
        fst (now (browser r)) - lastShotTimeRef r >= 300 ->
        exists bullet,
          objectsRef (fst (gunShot hp r)) = objectsRef r ++ [bullet]).
Proof.
  intros Hclaim.
  pose (inp := Scene.frame [Scene.gun 0.5 0.5] None INITIAL_SETTINGS).
  pose (prev := setKey (fun _ => None) 0%nat (Some (mkHandPoint 100 90))).
  pose (hp := classifyHand inp prev 0 (Scene.gun 0.5 0.5)).
  pose (r := mkRefs [] prev (fun _ => false) 0 (Scene.browserAt 300)).
  assert (Hgun : isGun hp = true).
  { unfold hp, classifyHand, isGunGesture. num_eval. reflexivity. }
  assert (Hv : velocityY hp < -15) by (unfold hp; cbn; lra).
  destruct (Hclaim hp r Hgun Hv) as [bullet Hb].
  { cbn. lra. }
  revert Hb. unfold gunShot. rewrite Hgun, (ltb_lt _ _ Hv).
  num_eval. discriminate.
Qed.

(* ================================================================= *)
(** ** Spawning: termination and placement *)

Lemma ForallOrdPairs_snoc {A : Type} (R : A -> A -> Prop) (l : list A) (a : A) :
  ForallOrdPairs R l -> Forall (fun e => R e a) l -> ForallOrdPairs R (l ++ [a]).
Proof.
  induction 1 as [|b l Hb Hl IH]; intros Hall; simpl.
  - constructor; constructor.
  - inversion Hall; subst. constructor.
    + apply Forall_app. split; [assumption | now constructor].
    + now apply IH.
Qed.

Lemma ForallOrdPairs_nth {A : Type} (R : A -> A -> Prop) (l : list A) :
  ForallOrdPairs R l ->
  forall i j a b, (i < j)%nat ->
    nth_error l i = Some a -> nth_error l j = Some b -> R a b.
Proof.
  induction 1 as [|c l Hc Hl IH]; intros i j a b Hij Hi Hj.
  - destruct i; discriminate.
  - destruct j as [|j]; [lia |]. simpl in Hj. destruct i as [|i]; simpl in Hi.
    + injection Hi as ->. rewrite Forall_forall in Hc. apply Hc.
      eapply nth_error_In; eassumption.
    + apply (IH i j); [lia | assumption | assumption].
Qed.

Lemma makeObject_fields (a : SpawnArgs) (fx fy fr : R) (w : Browser) :
  let o := fst (makeObject a fx fy fr w) in
  x o = fx /\ y o = fy /\ radius o = fr.
Proof.
  unfold makeObject. cbn.
  destruct (argVx a), (argVy a), (argColor a); cbn; auto.
Qed.

Lemma tooClose_false (fx fy fr : R) (l : list PhysicsObject) (e : PhysicsObject) :
  existsb (tooClose fx fy fr) l = false -> In e l ->
  radius e + fr + 5 <= hypot (x e - fx) (y e - fy).
Proof.
  intros Hex Hin.
  assert (H : tooClose fx fy fr e = false).
  { destruct (tooClose fx fy fr e) eqn:E; [| reflexivity].
    assert (existsb (tooClose fx fy fr) l = true)
      by (apply existsb_exists; eauto).
    congruence. }
  unfold tooClose in H. now apply ltb_false_iff in H.
Qed.

(** A successful attempt of the placement search keeps the batch safe. *)
Lemma spawnAttempt_safe (a : SpawnArgs) (world batch : list PhysicsObject)
                        (w w' : Browser) (o : PhysicsObject) :
  fixedPosition a = false ->
  spawnAttempt a world batch w = (Some o, w') ->
  placedSafely world batch -> placedSafely world (batch ++ [o]).
Proof.
  intros Hfree Hatt [Hworld Hbatch]. unfold spawnAttempt in Hatt.
  rewrite Hfree in Hatt.
  destruct (orRandom (argRadius a) _ w) as [fr w1].
  destruct (random w1) as [u1 w2] eqn:E1.
  destruct (random w2) as [u2 w3] eqn:E2.
  set (fx := u1 * (innerWidth w - 200) + 100) in *.
  set (fy := u2 * (innerHeight w - 200) + 100) in *.
  destruct (isSafe world batch fx fy fr) eqn:Hsafe; [| discriminate].
  pose proof (makeObject_fields a fx fy fr w3) as [Hx [Hy Hr]].
  destruct (makeObject a fx fy fr w3) as [o' w4]. simpl in Hx, Hy, Hr.
  injection Hatt as -> _.
  unfold isSafe in Hsafe. apply andb_true_iff in Hsafe as [S1 S2].
  apply negb_true_iff in S1, S2.
  assert (Hnew : forall e, In e world \/ In e batch -> apart e o).
  { intros e He. unfold apart. rewrite Hx, Hy, Hr.
    destruct He as [He|He];
      [apply (tooClose_false _ _ _ world) | apply (tooClose_false _ _ _ batch)];
      assumption. }
  split.
  - intros e o' He Ho. apply in_app_or in Ho as [Ho | [<- | []]]; auto.
  - apply ForallOrdPairs_snoc; [assumption |].
    apply Forall_forall. auto.
Qed.

(** A fixed-position attempt never retries. *)
Lemma spawnAttempt_fixed (a : SpawnArgs) (world batch : list PhysicsObject)
                         (w : Browser) :
  fixedPosition a = true -> fst (spawnAttempt a world batch w) <> None.
Proof.
  intros Hfix. unfold spawnAttempt. rewrite Hfix.
  destruct (orRandom _ _ w) as [fr w1].
  destruct (makeObject _ _ _ _ _) as [o w2]. simpl. discriminate.
Qed.

(** The invariant of the [while] loop of [spawnObjects]. *)
Lemma spawnLoop_spec (a : SpawnArgs) (m : nat) (world : list PhysicsObject)
                     (fuel : nat) :
  forall (batch : list PhysicsObject) (n : nat) (w : Browser)
         (batch' : list PhysicsObject) (n' : nat) (w' : Browser),
    spawnLoop fuel a m world (batch, n, w) = (batch', n', w') ->
    (n <= m)%nat -> (m - n <= fuel)%nat -> (length batch <= count a)%nat ->
    (n <= n' <= m)%nat
    /\ (length batch' <= count a)%nat
    /\ ((length batch' < count a)%nat -> n' = m)
    /\ (fixedPosition a = false ->
        placedSafely world batch -> placedSafely world batch')
    /\ (fixedPosition a = true ->
        (count a - length batch <= m - n)%nat -> length batch' = count a).
Proof.
  induction fuel as [|fuel IH]; intros batch n w batch' n' w' Hrun Hn Hfuel Hlen.
  - simpl in Hrun. injection Hrun as <- <- <-.
    split; [lia | split; [lia | split; [lia | split]]]; auto. lia.
  - simpl in Hrun.
    destruct ((length batch <? count a)%nat && (n <? m)%nat) eqn:Hcond.
    + apply andb_true_iff in Hcond as [Hc1 Hc2].
      apply Nat.ltb_lt in Hc1, Hc2.
      destruct (spawnAttempt a world batch w) as [[o|] w1] eqn:Hatt.
      * apply IH in Hrun; [| lia | lia | rewrite length_app; simpl; lia].
        destruct Hrun as [H1 [H2 [H3 [H4 H5]]]].
        split; [lia | split; [lia | split; [assumption | split]]].
        -- intros Hfree Hsafe. apply H4; [assumption |].
           eapply spawnAttempt_safe; eassumption.
        -- intros Hfix Hroom. apply H5; [assumption |].
           rewrite length_app. simpl. lia.
      * apply IH in Hrun; [| lia | lia | lia].
        destruct Hrun as [H1 [H2 [H3 [H4 H5]]]].
        split; [lia | split; [lia | split; [assumption | split]]];
          [assumption |].
        intros Hfix _. exfalso.
        apply (spawnAttempt_fixed a world batch w Hfix). now rewrite Hatt.
    + injection Hrun as <- <- <-.
      apply andb_false_iff in Hcond.
      rewrite !Nat.ltb_ge in Hcond.
      split; [lia | split; [lia | split; [lia | split]]]; auto.
      intros _ Hroom. lia.
Qed.

(** C9. [spawnObjects] always returns: its loop makes at most [50 * count]
    attempts and stops with its condition false (the fuel of the model never
    runs out first).  It never yields more than [count] objects; when it
    yields fewer, every attempt has been used, and the result is still an
    ordinary store (no error value exists).  In a search for a free place
    every placed object is at least the sum of the radii plus 5 away from
    every existing object and from every object placed before it in the
    batch.  A fixed-position call places exactly [count] objects. *)
Theorem spawn_terminates_and_places_apart
    (a : SpawnArgs) (world : list PhysicsObject) (w : Browser) :
  let batch := fst (fst (spawnRun a world w)) in
  let attempts := snd (fst (spawnRun a world w)) in
  (attempts <= 50 * count a)%nat
  /\ ((length batch <? count a)%nat && (attempts <? count a * 50)%nat = false)
  /\ (length batch <= count a)%nat
  /\ ((length batch < count a)%nat -> attempts = (50 * count a)%nat)
  /\ fst (spawnObjects a world w) = world ++ batch
  /\ (fixedPosition a = false ->
      (forall e o, In e world -> In o batch -> apart e o)
      /\ (forall i j oi oj, (i < j)%nat ->
            nth_error batch i = Some oi -> nth_error batch j = Some oj ->
            apart oi oj))
  /\ (fixedPosition a = true -> length batch = count a).
Proof.
  intros batch attempts. subst batch attempts.
  unfold spawnObjects.
  destruct (spawnRun a world w) as [[batch attempts] w'] eqn:Hrun. simpl.
  unfold spawnRun in Hrun.
  apply spawnLoop_spec in Hrun; [| lia | lia | simpl; lia].
  unfold maxAttemptsOf in Hrun. destruct Hrun as [H1 [H2 [H3 [H4 H5]]]].
  assert (Hexit : (length batch <? count a)%nat
                  && (attempts <? count a * 50)%nat = false).
  { apply andb_false_iff.
    destruct (Nat.ltb_spec (length batch) (count a)) as [Hlt|Hge]; [| now left].
    right. apply Nat.ltb_ge. specialize (H3 Hlt). lia. }
  assert (Hempty : placedSafely world []).
  { split; [intros ? ? ? [] | constructor]. }
  split; [lia |]. split; [exact Hexit |]. split; [lia |].
  split; [intros Hlt; specialize (H3 Hlt); lia |].
  split; [reflexivity |]. split.
  - intros Hfree. destruct (H4 Hfree Hempty) as [Hw Hb]. split; [exact Hw |].
    intros i j oi oj Hij Hi Hj. eapply ForallOrdPairs_nth; eassumption.
  - intros Hfix. apply H5; [assumption | simpl; lia].
Qed.

(** Exhaustion does happen: with an object sitting on the only point that a
    constant random stream proposes, all 50 attempts of [spawnObjects(1)] are
    rejected and the store is returned unchanged. *)
Lemma spawnAttempt_rejected (w : Browser) :
  steady w ->
  let a := mkSpawnArgs 1 None None None None None None None in
  fst (spawnAttempt a [Scene.ball 1 500 400 10] [] w) = None
  /\ steady (snd (spawnAttempt a [Scene.ball 1 500 400 10] [] w)).
Proof.
  intros [Hr [Hw Hh]] a. unfold spawnAttempt. cbn.
  rewrite Hr, Hw, Hh. num_eval. repeat split; assumption.
Qed.

Lemma spawnLoop_rejected (fuel : nat) :
  forall (n : nat) (w : Browser),
    steady w ->
    fst (fst (spawnLoop fuel (mkSpawnArgs 1 None None None None None None None)
                        50 [Scene.ball 1 500 400 10] ([], n, w))) = [].
Proof.
  induction fuel as [|fuel IH]; intros n w Hw; [reflexivity |].
  cbn [spawnLoop length count].
  destruct ((0 <? 1)%nat && (n <? 50)%nat); [| reflexivity].
  destruct (spawnAttempt_rejected w Hw) as [Hnone Hsteady].
  destruct (spawnAttempt _ _ _ w) as [[o|] w1]; [discriminate |].
  apply IH. exact Hsteady.
Qed.

Lemma spawn_terminates_and_places_apart_witness :
  let a := mkSpawnArgs 1 None None None None None None None in
  let world := [Scene.ball 1 500 400 10] in
  fst (spawnObjects a world (Scene.browserAt 0)) = world
  /\ snd (fst (spawnRun a world (Scene.browserAt 0))) = 50%nat.
Proof.
  intros a world.
  assert (Hb : fst (fst (spawnRun a world (Scene.browserAt 0))) = []).
  { apply spawnLoop_rejected. repeat split. }
  destruct (spawn_terminates_and_places_apart a world (Scene.browserAt 0))
    as [_ [_ [_ [Hall [Hstore _]]]]].
  rewrite Hb in Hall, Hstore. split.
  - rewrite Hstore. apply app_nil_r.
  - apply Hall. simpl. lia.
Defined.

(* ================================================================= *)
(** ** Collision response *)

(** The positional correction of one overlapping pair puts the two centers
    exactly [minDist + 1] apart. *)
Lemma bounceApart_distance (st : GameSettings) (o1 o2 : PhysicsObject) :
  overlapping o1 o2 = true ->
  let o1' := fst (bounceApart st o1 o2) in
  let o2' := snd (bounceApart st o1 o2) in
  hypot (x o2' - x o1') (y o2' - y o1') = radius o1 + radius o2 + 1.
Proof.
  unfold overlapping. rewrite ltb_true_iff. intros Hov.
  unfold bounceApart. cbn.
  set (dx := x o2 - x o1) in *. set (dy := y o2 - y o1) in *.
  set (minDist := radius o1 + radius o2) in *.
  pose proof (hypot_nonneg dx dy) as Hd0.
  pose proof (hypot_sq dx dy) as Hsq.
  destruct (Req_dec (hypot dx dy) 0) as [Hz|Hnz].
  - destruct (hypot_zero dx dy Hz) as [Ex Ey].
    rewrite Ex, Ey, atan2_0_0, cos_0, sin_0.
    assert (E0 : hypot 0 0 = 0) by (rewrite <- Ex, <- Ey at 1; exact Hz).
    rewrite E0. apply hypot_unique; [lra |].
    unfold dx, dy in Ex, Ey. nra.
  - assert (Hnzv : dx <> 0 \/ dy <> 0).
    { destruct (Req_dec dx 0) as [Ex|Ex]; [| now left].
      destruct (Req_dec dy 0) as [Ey|Ey]; [| now right].
      exfalso. apply Hnz. rewrite Ex, Ey. apply hypot_unique; lra. }
    rewrite cos_atan2, sin_atan2 by assumption.
    set (d := hypot dx dy) in *.
    apply hypot_unique; [lra |].
    replace (x o2 + (minDist - d + 1) / 2 * (dx / d)
             - (x o1 - (minDist - d + 1) / 2 * (dx / d)))
      with (dx * ((minDist + 1) / d)) by (unfold dx; field; lra).
    replace (y o2 + (minDist - d + 1) / 2 * (dy / d)
             - (y o1 - (minDist - d + 1) / 2 * (dy / d)))
      with (dy * ((minDist + 1) / d)) by (unfold dy; field; lra).
    replace (dx * ((minDist + 1) / d) * (dx * ((minDist + 1) / d))
             + dy * ((minDist + 1) / d) * (dy * ((minDist + 1) / d)))
      with ((dx * dx + dy * dy) * ((minDist + 1) * (minDist + 1) / (d * d)))
      by (field; lra).
    rewrite <- Hsq. field. lra.
Qed.

(** The pairwise pass over a store of two objects is the single step on the
    pair (0, 1). *)
Lemma collisionPass_two (st : GameSettings) (o1 o2 : PhysicsObject)
                        (toRemove : list R) (w : Browser) :
  collisionPass st ([o1; o2], toRemove, w)
  = collidePair st 0 1 ([o1; o2], toRemove, w).
Proof.
  reflexivity.
Qed.

(** C2, as the code has it. The positional correction puts the two centers of
    an overlapping pair exactly [minDist + 1] apart at the moment the pair is
    resolved; in a store of two non-grabbed objects with fusion disabled this
    is the state after the whole pairwise pass, so the two objects do not
    overlap.  (With three or more objects a later correction can push an
    object back into one whose pair was already visited.) *)
Theorem pairwise_pass_separates_a_store_of_two
    (st : GameSettings) (o1 o2 : PhysicsObject) (w : Browser) :
  fusionChance st = 0 ->
  isGrabbed o1 = false -> isGrabbed o2 = false ->
  (overlapping o1 o2 = true ->
   let o1' := fst (bounceApart st o1 o2) in
   let o2' := snd (bounceApart st o1 o2) in
   hypot (x o2' - x o1') (y o2' - y o1') = radius o1 + radius o2 + 1)
  /\ exists a b,
       fst (fst (collisionPass st ([o1; o2], [], w))) = [a; b]
       /\ radius a = radius o1 /\ radius b = radius o2
       /\ radius a + radius b <= hypot (x b - x a) (y b - y a).
Proof.
  intros Hoff G1 G2. split; [apply bounceApart_distance |].
  rewrite collisionPass_two. unfold collidePair. cbn. rewrite G1, G2. cbn.
  destruct (overlapping o1 o2) eqn:Hov.
  - unfold resolveOverlap.
    pose proof (canFuse_off st o1 o2 w Hoff) as Hc.
    destruct (canFuse st o1 o2 w) as [fusing w']. simpl in Hc. subst fusing.
    pose proof (bounceApart_distance st o1 o2 Hov) as Hd.
    destruct (bounceApart st o1 o2) as [a b] eqn:Eb.
    pose proof (radius_bounceApart st o1 o2) as [R1 R2].
    rewrite Eb in R1, R2. simpl in Hd, R1, R2. cbn.
    exists a, b. rewrite R1, R2, Hd. repeat split; lra.
  - exists o1, o2. repeat split.
    unfold overlapping in Hov. apply ltb_false_iff in Hov. exact Hov.
Qed.

Lemma pairwise_pass_separates_a_store_of_two_witness :
  let o1 := Scene.ball 1 0 0 10 in
  let o2 := Scene.ball 2 15 0 10 in
  exists a b,
    fst (fst (collisionPass Scene.elastic ([o1; o2], [], Scene.browserAt 0)))
    = [a; b]
    /\ 20 <= hypot (x b - x a) (y b - y a).
Proof.
  intros o1 o2.
  destruct (pairwise_pass_separates_a_store_of_two
              Scene.elastic o1 o2 (Scene.browserAt 0))
    as [_ [a [b [H [R1 [R2 Hd]]]]]]; try reflexivity.
  exists a, b. split; [exact H |].
  rewrite R1, R2 in Hd. cbn in Hd. lra.
Defined.

(** Three objects on a line, radius 10 each, at x = 0, -21 and 15.  The pair
    (0,1) does not overlap when it is visited; resolving (0,2) afterwards
    moves object 0 to x = -3, 18 pixels from object 1. *)
Lemma three_in_a_row :
  let objects := [Scene.ball 1 0 0 10; Scene.ball 2 (-21) 0 10;
                  Scene.ball 3 15 0 10] in
  let objects' :=
    fst (fst (collisionPass Scene.elastic (objects, [], Scene.browserAt 0))) in
  exists a b c,
    objects' = [a; b; c]
    /\ isGrabbed a = false /\ isGrabbed b = false
    /\ radius a = 10 /\ radius b = 10
    /\ x a = -3 /\ y a = 0 /\ x b = -21 /\ y b = 0.
Proof.
  intros objects objects'. subst objects objects'.
  unfold collisionPass, collideRow, collidePair, resolveOverlap, canFuse,
    bounceApart.
  num_eval.
  do 3 eexists. split; [reflexivity |]. cbn. repeat split; lra.
Qed.

(** C2 as stated fails for three objects: after the full pass objects 0 and 1
    of [three_in_a_row] are 18 pixels apart although their radii sum to 20,
    more than the 1 pixel buffer short. *)
Lemma pairwise_pass_three_objects_counterexample :
  ~ (forall (st : GameSettings) (objects : list PhysicsObject) (w : Browser),
        bounce st = 1 -> fusionChance st = 0 ->
        forall (i j : nat) (a b : PhysicsObject),
          (i < j)%nat ->
          nth_error (fst (fst (collisionPass st (objects, [], w)))) i = Some a ->
          nth_error (fst (fst (collisionPass st (objects, [], w)))) j = Some b ->
          isGrabbed a = false -> isGrabbed b = false ->
          radius a + radius b - 1 <= hypot (x b - x a) (y b - y a)).
Proof.
  intros Hclaim.
  destruct three_in_a_row as [a [b [c [E [Ga [Gb [Ra [Rb [Xa [Ya [Xb Yb]]]]]]]]]]].
  specialize (Hclaim Scene.elastic
                     [Scene.ball 1 0 0 10; Scene.ball 2 (-21) 0 10;
                      Scene.ball 3 15 0 10]
                     (Scene.browserAt 0) eq_refl eq_refl 0%nat 1%nat a b).
  rewrite E in Hclaim. specialize (Hclaim ltac:(lia) eq_refl eq_refl Ga Gb).
  rewrite Ra, Rb, Xa, Ya, Xb, Yb in Hclaim.
  rewrite (hypot_axis_x_neg (-21 - -3) (0 - 0)) in Hclaim by lra. lra.
Qed.

(* ================================================================= *)
(** ** The interaction resolver, object by object *)

Lemma forEachIndexed_invariant {A St : Type} (P : nat -> St -> Prop)
      (f : A -> nat -> St -> St) (l : list A) :
  forall (i : nat) (s : St),
    P i s ->
    (forall a k s', In a l -> (i <= k < i + length l)%nat ->
                    P k s' -> P (S k) (f a k s')) ->
    P (i + length l)%nat (forEachIndexed f l i s).
Proof.
  induction l as [|a l IH]; intros i s Hs Hf; simpl.
  - now rewrite Nat.add_0_r.
  - replace (i + S (length l))%nat with (S i + length l)%nat by lia.
    apply IH.
    + apply Hf; [now left | simpl; lia | assumption].
    + intros b k s' Hb Hk. apply Hf; [now right | simpl; lia].
Qed.

Lemma doubleGrabPhase_objects (prev : nat -> option HandPoint)
      (hps : list HandPos) (objects : list PhysicsObject) :
  snd (doubleGrabPhase prev hps objects) = map (grabObj prev hps) objects.
Proof.
  unfold doubleGrabPhase, grabObj.
  destruct (doubleGrabHands hps) as [[h0 h1]|]; simpl; [reflexivity |].
  symmetry. apply map_id.
Qed.

Lemma singleHandPhase_objects (st : GameSettings) (prev : nat -> option HandPoint)
      (dg : list R) (hps : list HandPos) :
  forall (i : nat) (objects : list PhysicsObject) (log : list Event),
    fst (forEachIndexed (singleHandStep st prev dg) hps i (objects, log))
    = map (singleHandAll st prev dg hps i) objects.
Proof.
  unfold singleHandAll.
  induction hps as [|hand hps IH]; intros i objects log;
    cbn [forEachIndexed fst].
  - symmetry. apply map_id.
  - replace (singleHandStep st prev dg hand i (objects, log))
      with (map (singleHandObj st prev dg hand i) objects,
            snd (singleHandStep st prev dg hand i (objects, log))).
    + rewrite IH, map_map. reflexivity.
    + unfold singleHandStep, singleHandObj.
      destruct (prev i) as [prevPos|]; simpl; [reflexivity |].
      now rewrite map_id.
Qed.

(** The steps of the resolver never change an id. *)
Lemma id_grabObj prev hps obj : id (grabObj prev hps obj) = id obj.
Proof.
  unfold grabObj. destruct (doubleGrabHands hps) as [[h0 h1]|]; [| reflexivity].
  unfold doubleGrabObj. destruct (qualifies h0 h1 obj); [| reflexivity].
  unfold forceDoubleGrab, resize.
  destruct (prev 0%nat), (prev 1%nat); reflexivity.
Qed.

Lemma id_singleHandObj st prev dg hand i obj :
  id (singleHandObj st prev dg hand i obj) = id obj.
Proof.
  unfold singleHandObj. destruct (prev i); [| reflexivity].
  destruct (singleHandAction dg hand i obj); reflexivity.
Qed.

Lemma id_singleHandAll st prev dg hps :
  forall i obj, id (singleHandAll st prev dg hps i obj) = id obj.
Proof.
  unfold singleHandAll.
  induction hps as [|hand hps IH]; intros i obj; simpl; [reflexivity |].
  rewrite IH. apply id_singleHandObj.
Qed.

Lemma id_cleanupObj dg obj : id (cleanupObj dg obj) = id obj.
Proof. unfold cleanupObj. destruct (isStale dg obj); reflexivity. Qed.

(** The preparation loop only appends spawned objects to the store and
    leaves the hand history alone. *)
Lemma magicianSpawn_spec (m : Mouth) (hp : HandPos) (i : nat) (r : Refs) :
  exists new,
    objectsRef (fst (magicianSpawn m hp i r)) = objectsRef r ++ new
    /\ snd (magicianSpawn m hp i r) = map EvSpawn new
    /\ prevHandPosRef (fst (magicianSpawn m hp i r)) = prevHandPosRef r
    /\ Forall (spawnedBy (S i)) new.
Proof.
  unfold magicianSpawn.
  destruct (isMouthOpen m && isPinching hp && negb (wasPinchingRef r i)).
  - destruct (ltb _ _).
    + cbn. eexists [_]. repeat split. constructor; [| constructor].
      right. split; [reflexivity |]. exists i. split; [lia | reflexivity].
    + exists []. rewrite app_nil_r. repeat split. constructor.
  - exists []. rewrite app_nil_r. repeat split. constructor.
Qed.

Lemma gunShot_spec (hp : HandPos) (r : Refs) (n : nat) :
  exists new,
    objectsRef (fst (gunShot hp r)) = objectsRef r ++ new
    /\ snd (gunShot hp r) = map EvSpawn new
    /\ prevHandPosRef (fst (gunShot hp r)) = prevHandPosRef r
    /\ Forall (spawnedBy n) new.
Proof.
  unfold gunShot.
  destruct (isGun hp);
    [| exists []; rewrite app_nil_r; repeat split; constructor].
  destruct (ltb (velocityY hp) (-15));
    [| exists []; rewrite app_nil_r; repeat split; constructor].
  cbn. destruct (gtb _ 300).
  - cbn. eexists [_]. repeat split. constructor; [| constructor].
    left. split; reflexivity.
  - exists []. cbn. rewrite app_nil_r. repeat split. constructor.
Qed.

Lemma spawnedBy_mono (n n' : nat) (o : PhysicsObject) :
  (n <= n')%nat -> spawnedBy n o -> spawnedBy n' o.
Proof.
  intros Hn [H|[H [h [Hh E]]]]; [now left | right].
  split; [assumption |]. exists h. split; [lia | assumption].
Qed.

Lemma handPrepStep_prepared (inp : FrameInput) (m : Mouth) (r0 : Refs)
      (lm : HandLandmarks) (k : nat) (s : PrepState) :
  prepared r0 k s -> prepared r0 (S k) (handPrepStep inp m lm k s).
Proof.
  destruct s as [[r hps] log]. intros [new [Ho [Hl [Hp [Hn Hnew]]]]].
  unfold handPrepStep.
  set (hp := classifyHand inp (prevHandPosRef r) k lm).
  destruct (magicianSpawn_spec m hp k r) as [new1 [A1 [A2 [A3 A4]]]].
  destruct (magicianSpawn m hp k r) as [r1 ev1]. simpl in A1, A2, A3.
  destruct (gunShot_spec hp r1 (S k)) as [new2 [B1 [B2 [B3 B4]]]].
  destruct (gunShot hp r1) as [r2 ev2]. simpl in B1, B2, B3.
  exists (new ++ new1 ++ new2). simpl.
  split; [rewrite B1, A1, Ho, !app_assoc; reflexivity |].
  split; [rewrite Hl, A2, B2, !map_app; reflexivity |].
  split; [congruence |].
  split; [rewrite length_app; simpl; lia |].
  apply Forall_app; split.
  - eapply Forall_impl; [| exact Hnew]. intros o. apply spawnedBy_mono. lia.
  - apply Forall_app; split; assumption.
Qed.

Lemma handPrep_prepared (inp : FrameInput) (m : Mouth) (r : Refs) :
  prepared r (length (handResult inp)) (handPrep inp m r).
Proof.
  unfold handPrep.
  apply (forEachIndexed_invariant (prepared r) (handPrepStep inp m)
           (handResult inp) 0 (r, [], [])).
  - exists []. rewrite app_nil_r. repeat split. constructor.
  - intros lm k s _ _. apply handPrepStep_prepared.
Qed.

Lemma skipn_length_app {A : Type} (l l' : list A) :
  skipn (length l) (l ++ l') = l'.
Proof. induction l; simpl; auto. Qed.

Lemma resolveInteraction_shape (inp : FrameInput) (r : Refs) :
  let res := resolveInteraction inp r in
  let prev := prevHandPosRef r in
  let hps := handPositions res in
  let dg := currentDoubleGrabs res in
  exists new,
    length hps = length (handResult inp)
    /\ dg = fst (doubleGrabPhase prev hps (objectsRef r))
    /\ frameObjects res
       = map (resolveObj (settings inp) prev hps dg) (objectsRef r)
    /\ objectsRef (frameRefs res) = frameObjects res ++ new
    /\ Forall (spawnedBy (length (handResult inp))) new
    /\ frameMouth res = mouthLogic inp
    /\ prevHandPosRef (frameRefs res) = recordPrev hps 1 (recordPrev hps 0 prev)
    /\ frameLog res
       = map EvSpawn new
         ++ map EvDoubleGrab dg
         ++ snd (singleHandPhase (settings inp) prev dg hps
                   (snd (doubleGrabPhase prev hps (objectsRef r))))
         ++ map (fun o => EvStaleRelease (id o))
                (filter (isStale dg)
                   (fst (singleHandPhase (settings inp) prev dg hps
                           (snd (doubleGrabPhase prev hps (objectsRef r))))))
         ++ prevEvents hps.
Proof.
  unfold resolveInteraction. cbn [now].
  set (r0 := withBrowser r _).
  pose proof (handPrep_prepared inp (mouthLogic inp) r0) as Hprep.
  destruct (handPrep inp (mouthLogic inp) r0) as [[r1 hps] log1].
  destruct Hprep as [new [Ho [Hl [Hp [Hn Hnew]]]]].
  change (objectsRef r0) with (objectsRef r) in Ho.
  change (prevHandPosRef r0) with (prevHandPosRef r) in Hp.
  pose proof (doubleGrabPhase_objects (prevHandPosRef r1) hps (objectsRef r))
    as Hdg.
  destruct (doubleGrabPhase (prevHandPosRef r1) hps (objectsRef r))
    as [dg objects1] eqn:Edg.
  simpl in Hdg.
  pose proof (singleHandPhase_objects (settings inp) (prevHandPosRef r1) dg hps
                0 objects1 []) as Hsh.
  unfold singleHandPhase.
  destruct (forEachIndexed _ hps 0%nat (objects1, [])) as [objects2 log3]
    eqn:Esh.
  simpl in Hsh. simpl.
  exists new. rewrite Hp in *. rewrite Edg. simpl.
  split; [assumption |]. split; [reflexivity |].
  assert (Hobjs : map (cleanupObj dg) objects2
                  = map (resolveObj (settings inp) (prevHandPosRef r) hps dg)
                        (objectsRef r)).
  { rewrite Hsh, Hdg, !map_map. reflexivity. }
  split; [exact Hobjs |].
  split; [unfold spawnedIn; rewrite Ho, skipn_length_app; reflexivity |].
  split; [assumption |]. split; [reflexivity |]. split; [reflexivity |].
  rewrite Hl. unfold singleHandPhase. rewrite Esh. reflexivity.
Qed.

(* ================================================================= *)
(** ** Grab states *)

Lemma grabState_shared (o : PhysicsObject) :
  grabState o = SharedGrab <-> isGrabbed o = true /\ grabbedByHandIndex o = None.
Proof.
  unfold grabState.
  destruct (isGrabbed o), (grabbedByHandIndex o); split;
    try discriminate; intuition discriminate.
Qed.

Lemma knownState_handIndex (h : nat) (o : PhysicsObject) :
  (h < 2)%nat -> grabState o = GrabbedBy h -> knownState o.
Proof.
  intros Hh E. unfold knownState. rewrite E.
  destruct h as [|[|h]]; [auto | auto | lia].
Qed.

Lemma knownState_grabObj prev hps o :
  knownState o -> knownState (grabObj prev hps o).
Proof.
  intros Hk. unfold grabObj.
  destruct (doubleGrabHands hps) as [[h0 h1]|]; [| assumption].
  unfold doubleGrabObj. destruct (qualifies h0 h1 o); [| assumption].
  right; right; right. unfold forceDoubleGrab, resize.
  destruct (prev 0%nat), (prev 1%nat); reflexivity.
Qed.

Lemma grabState_applyAction st hand p i act o :
  grabState (applyAction st hand p i act o)
  = match act with
    | ActNone | ActDrag => grabState o
    | ActGrab => GrabbedBy i
    | ActRelease => Ungrabbed
    end.
Proof. destruct act; reflexivity. Qed.

Lemma knownState_singleHandObj st prev dg hand i o :
  (i < 2)%nat -> knownState o -> knownState (singleHandObj st prev dg hand i o).
Proof.
  intros Hi Hk. unfold singleHandObj. destruct (prev i) as [p|]; [| assumption].
  unfold knownState. rewrite grabState_applyAction.
  destruct (singleHandAction dg hand i o); try assumption; [| now left].
  destruct i as [|[|i]]; [auto | auto | lia].
Qed.

Lemma knownState_singleHandAll st prev dg hps :
  forall i o, (i + length hps <= 2)%nat -> knownState o ->
              knownState (singleHandAll st prev dg hps i o).
Proof.
  unfold singleHandAll.
  induction hps as [|hand hps IH]; intros i o Hn Hk; simpl in *; [assumption |].
  apply IH; [lia |]. apply knownState_singleHandObj; [lia | assumption].
Qed.

Lemma knownState_cleanupObj dg o : knownState o -> knownState (cleanupObj dg o).
Proof.
  intros Hk. unfold cleanupObj. destruct (isStale dg o); [| assumption].
  now left.
Qed.

Lemma knownState_spawnedBy (n : nat) (o : PhysicsObject) :
  (n <= 2)%nat -> spawnedBy n o -> knownState o /\ grabState o <> SharedGrab.
Proof.
  intros Hn [[G I]|[G [h [Hh I]]]].
  - unfold knownState, grabState. rewrite G. split; [now left | discriminate].
  - assert (E : grabState o = GrabbedBy h) by (unfold grabState; now rewrite G, I).
    split; [| rewrite E; discriminate].
    apply (knownState_handIndex h); [lia | exact E].
Qed.

(** An object whose id is in the double-grab set and which is shared when
    the single-hand block starts is left alone by it and by the cleanup. *)
Lemma singleHandObj_shared st prev dg hand i o :
  has dg (id o) = true -> grabbedByHandIndex o = None ->
  singleHandObj st prev dg hand i o = o.
Proof.
  intros Hin Hidx. unfold singleHandObj. destruct (prev i); [| reflexivity].
  unfold singleHandAction, heldBy. rewrite Hin, Hidx, andb_false_r.
  destruct (isPinching hand); reflexivity.
Qed.

Lemma singleHandAll_shared st prev dg hps :
  forall i o, has dg (id o) = true -> grabbedByHandIndex o = None ->
              singleHandAll st prev dg hps i o = o.
Proof.
  unfold singleHandAll.
  induction hps as [|hand hps IH]; intros i o Hin Hidx; simpl; [reflexivity |].
  rewrite singleHandObj_shared by assumption. now apply IH.
Qed.

Lemma resolveObj_qualifying st prev hps dg h0 h1 o :
  doubleGrabHands hps = Some (h0, h1) ->
  qualifies h0 h1 o = true ->
  has dg (id o) = true ->
  grabState (resolveObj st prev hps dg o) = SharedGrab.
Proof.
  intros Hh Hq Hin. unfold resolveObj.
  assert (Hg : isGrabbed (grabObj prev hps o) = true
               /\ grabbedByHandIndex (grabObj prev hps o) = None).
  { unfold grabObj, doubleGrabObj. rewrite Hh, Hq.
    unfold forceDoubleGrab, resize.
    destruct (prev 0%nat), (prev 1%nat); split; reflexivity. }
  destruct Hg as [G I].
  rewrite singleHandAll_shared; [| now rewrite id_grabObj | assumption].
  unfold cleanupObj, isStale. rewrite I, G, id_grabObj, Hin. simpl.
  apply grabState_shared. now split.
Qed.

(** An object whose id is outside the double-grab set is never left in the
    shared state by the cleanup. *)
Lemma resolveObj_outside st prev hps dg o :
  has dg (id o) = false ->
  grabState (resolveObj st prev hps dg o) <> SharedGrab.
Proof.
  intros Hout. unfold resolveObj.
  set (o2 := singleHandAll st prev dg hps 0 (grabObj prev hps o)).
  assert (Hid : id o2 = id o)
    by (unfold o2; now rewrite id_singleHandAll, id_grabObj).
  unfold cleanupObj, isStale. rewrite Hid, Hout. simpl. rewrite andb_true_r.
  unfold grabState.
  destruct (grabbedByHandIndex o2) eqn:I; destruct (isGrabbed o2) eqn:G;
    simpl; try rewrite I; try rewrite G; discriminate.
Qed.

Lemma doubleGrabs_In (prev : nat -> option HandPoint) (hps : list HandPos)
      (objects : list PhysicsObject) (i : R) :
  In i (fst (doubleGrabPhase prev hps objects)) <->
  exists h0 h1 o, doubleGrabHands hps = Some (h0, h1)
                  /\ In o objects /\ qualifies h0 h1 o = true /\ id o = i.
Proof.
  unfold doubleGrabPhase.
  destruct (doubleGrabHands hps) as [[h0 h1]|]; simpl.
  - rewrite in_map_iff. split.
    + intros [o [E Ho]]. apply filter_In in Ho as [Ho Hq].
      exists h0, h1, o. auto.
    + intros [h0' [h1' [o [E [Ho [Hq Hi]]]]]]. injection E as <- <-.
      exists o. split; [assumption |]. apply filter_In. auto.
  - split; [intros [] | intros [? [? [? [E _]]]]; discriminate].
Qed.

Lemma NoDup_map_inj {A B : Type} (f : A -> B) (l : list A) (a b : A) :
  NoDup (map f l) -> In a l -> In b l -> f a = f b -> a = b.
Proof.
  induction l as [|c l IH]; intros Hnd Ha Hb E; [destruct Ha |].
  simpl in Hnd. inversion Hnd as [|? ? Hnotin Hnd']; subst.
  destruct Ha as [->|Ha]; destruct Hb as [->|Hb]; auto.
  - exfalso. apply Hnotin. rewrite E. now apply in_map.
  - exfalso. apply Hnotin. rewrite <- E. now apply in_map.
Qed.

Lemma id_resolveObj st prev hps dg o : id (resolveObj st prev hps dg o) = id o.
Proof.
  unfold resolveObj. now rewrite id_cleanupObj, id_singleHandAll, id_grabObj.
Qed.

Lemma NoDup_app_disjoint {A : Type} (l l' : list A) (a : A) :
  NoDup (l ++ l') -> In a l -> In a l' -> False.
Proof.
  induction l as [|b l IH]; intros Hnd Ha Ha'; [destruct Ha |].
  simpl in Hnd. inversion Hnd as [|? ? Hnotin Hnd']; subst.
  destruct Ha as [->|Ha]; [| now apply IH].
  apply Hnotin. apply in_or_app. now right.
Qed.

Lemma NoDup_app_left {A : Type} (l l' : list A) : NoDup (l ++ l') -> NoDup l.
Proof.
  induction l as [|b l IH]; intros Hnd; [constructor |].
  simpl in Hnd. inversion Hnd as [|? ? Hnotin Hnd']; subst.
  constructor; [| now apply IH].
  intros Hin. apply Hnotin. apply in_or_app. now left.
Qed.

(** C4, as the code has it.  Let every object of the store be in one of the
    four grab states when the frame starts and let at most two hands be
    detected.  Then at the end of the frame's interaction resolution every
    object of the store (the spawned ones included) is in one of the four
    states [Ungrabbed], [GrabbedBy 0], [GrabbedBy 1], [SharedGrab] (which
    exclude each other, being distinct constructors); an object in
    [SharedGrab] has its id in the frame's double-grab set; and, when no two
    objects of the store carry the same id, an object whose id is in the set
    is in [SharedGrab]. *)
Theorem shared_iff_in_double_grab_set (inp : FrameInput) (r : Refs) :
  Forall knownState (objectsRef r) ->
  (length (handResult inp) <= 2)%nat ->
  let res := resolveInteraction inp r in
  forall o, In o (objectsRef (frameRefs res)) ->
    knownState o
    /\ (grabState o = SharedGrab -> In (id o) (currentDoubleGrabs res))
    /\ (NoDup (map id (objectsRef (frameRefs res))) ->
        In (id o) (currentDoubleGrabs res) -> grabState o = SharedGrab).
Proof.
  intros Hknown Hhands res o Ho.
  destruct (resolveInteraction_shape inp r)
    as [new [Hlen [Hdg [Hobjs [Hstore [Hnew _]]]]]].
  fold res in Hlen, Hdg, Hobjs, Hstore.
  set (prev := prevHandPosRef r) in *.
  set (hps := handPositions res) in *.
  set (dg := currentDoubleGrabs res) in *.
  rewrite Hstore in Ho. rewrite Hstore, map_app.
  assert (Hids : map id (frameObjects res) = map id (objectsRef r)).
  { rewrite Hobjs, map_map. apply map_ext. intros. apply id_resolveObj. }
  apply in_app_or in Ho as [Ho|Ho].
  - rewrite Hobjs in Ho. apply in_map_iff in Ho as [o0 [<- Ho0]].
    split; [| split].
    + apply knownState_cleanupObj, knownState_singleHandAll; [simpl; lia |].
      apply knownState_grabObj.
      rewrite Forall_forall in Hknown. now apply Hknown.
    + rewrite id_resolveObj. intros Hshared. apply has_In.
      destruct (has dg (id o0)) eqn:Hhas; [reflexivity |].
      exfalso.
      apply (resolveObj_outside (settings inp) prev hps dg o0 Hhas Hshared).
    + rewrite id_resolveObj. intros Hnd Hin.
      pose proof Hin as Hin'. rewrite Hdg in Hin'.
      apply doubleGrabs_In in Hin' as [h0 [h1 [o' [Hh [Ho' [Hq Hi]]]]]].
      assert (o' = o0).
      { apply (NoDup_map_inj id (objectsRef r)); try assumption.
        rewrite <- Hids. eapply NoDup_app_left; eassumption. }
      subst o'.
      apply (resolveObj_qualifying _ _ _ _ h0 h1); try assumption.
      now apply has_In.
  - rewrite Forall_forall in Hnew.
    destruct (knownState_spawnedBy _ o Hhands (Hnew o Ho)) as [Hk Hns].
    split; [assumption |]. split; [intros; contradiction |].
    intros Hnd Hin. exfalso. rewrite Hdg in Hin.
    apply doubleGrabs_In in Hin as [h0 [h1 [o' [_ [Ho' [_ Hi]]]]]].
    apply (NoDup_app_disjoint _ _ (id o) Hnd).
    + rewrite Hids, <- Hi. now apply in_map.
    + now apply in_map.
Qed.

Lemma two_fists_scene :
  let inp := Scene.frame [Scene.fist 0.5 0.5; Scene.fist 0.5 0.5] None
                         INITIAL_SETTINGS in
  let r := Scene.freshRefs [Scene.ball 1 110 100 20; Scene.ball 2 190 190 5]
                           5000 in
  let res := resolveInteraction inp r in
  map id (objectsRef (frameRefs res)) = [1; 2]
  /\ map grabState (objectsRef (frameRefs res)) = [SharedGrab; Ungrabbed]
  /\ currentDoubleGrabs res = [1].
Proof.
  intros inp r res. subst inp r res.
  unfold resolveInteraction, handPrep, handPrepStep, mouthLogic, classifyHand,
    magicianSpawn, gunShot, doubleGrabPhase, doubleGrabHands, singleHandPhase,
    singleHandStep, cleanupObj, doubleGrabObj, singleHandAction.
  num_eval. repeat split.
Qed.

Lemma shared_iff_in_double_grab_set_witness :
  let inp := Scene.frame [Scene.fist 0.5 0.5; Scene.fist 0.5 0.5] None
                         INITIAL_SETTINGS in
  let r := Scene.freshRefs [Scene.ball 1 110 100 20; Scene.ball 2 190 190 5]
                           5000 in
  let res := resolveInteraction inp r in
  Forall (fun o => knownState o
                   /\ (grabState o = SharedGrab
                       <-> In (id o) (currentDoubleGrabs res)))
         (objectsRef (frameRefs res)).
Proof.
  intros inp r res. apply Forall_forall. intros o Ho.
  destruct (shared_iff_in_double_grab_set inp r) with (o := o)
    as [Hk [Hif Honly]].
  - repeat constructor.
  - simpl. lia.
  - exact Ho.
  - split; [exact Hk |]. split; [exact Hif |].
    apply Honly.
    destruct two_fists_scene as [Hids _].
    fold inp r res in Hids. fold res. rewrite Hids.
    repeat constructor; simpl; intros H; repeat destruct H as [H|H]; lra.
Defined.

(** Two objects with the same id, one within reach of both pinching hands,
    the other far away. *)
Lemma twin_ids_scene :
  let inp := Scene.frame [Scene.fist 0.5 0.5; Scene.fist 0.5 0.5] None
                         INITIAL_SETTINGS in
  let r := Scene.freshRefs [Scene.ball 7 110 100 20; Scene.ball 7 190 190 5]
                           5000 in
  let res := resolveInteraction inp r in
  map id (objectsRef (frameRefs res)) = [7; 7]
  /\ map grabState (objectsRef (frameRefs res)) = [SharedGrab; Ungrabbed]
  /\ currentDoubleGrabs res = [7].
Proof.
  intros inp r res. subst inp r res.
  unfold resolveInteraction, handPrep, handPrepStep, mouthLogic, classifyHand,
    magicianSpawn, gunShot, doubleGrabPhase, doubleGrabHands, singleHandPhase,
    singleHandStep, cleanupObj, doubleGrabObj, singleHandAction.
  num_eval. repeat split.
Qed.

(** C4 as stated fails when two objects of the store carry the same id: the
    double-grab set holds ids, so the far twin of a shared object is a member
    of the set while it stays ungrabbed. *)
Lemma twin_ids_counterexample :
  ~ (forall (inp : FrameInput) (r : Refs),
        Forall knownState (objectsRef r) ->
        (length (handResult inp) <= 2)%nat ->
        let res := resolveInteraction inp r in
        forall o, In o (objectsRef (frameRefs res)) ->
          knownState o
          /\ (grabState o = SharedGrab <-> In (id o) (currentDoubleGrabs res))).
Proof.
  intros Hclaim.
  pose (inp := Scene.frame [Scene.fist 0.5 0.5; Scene.fist 0.5 0.5] None
                           INITIAL_SETTINGS).
  pose (r := Scene.freshRefs [Scene.ball 7 110 100 20; Scene.ball 7 190 190 5]
                             5000).
  destruct twin_ids_scene as [Hids [Hstates Hdg]]. fold inp r in Hids, Hstates, Hdg.
  specialize (Hclaim inp r). cbv zeta in Hclaim, Hids, Hstates, Hdg.
  destruct (objectsRef (frameRefs (resolveInteraction inp r)))
    as [|a [|b [|c l]]] eqn:E; try discriminate.
  simpl in Hids, Hstates. injection Hids as _ Hb. injection Hstates as _ Sb.
  destruct (Hclaim ltac:(repeat constructor) ltac:(simpl; lia) b
              ltac:(right; now left)) as [_ [_ Hif]].
  rewrite Hdg, Hb in Hif.
  assert (F : grabState b = SharedGrab) by (apply Hif; now left).
  rewrite Sb in F. discriminate.
Qed.

(* ================================================================= *)
(** ** Single-hand grab and drag *)

(** One hand on one object, case by case. *)
Lemma singleHandObj_grab st prev dg hand i p o :
  prev i = Some p -> isPinching hand = true -> has dg (id o) = false ->
  isGrabbed o = false ->
  hypot (x o - handX hand) (y o - handY hand) < radius o + 40 ->
  singleHandObj st prev dg hand i o = setGrabbedBy (setIsGrabbed o true) (Some i).
Proof.
  intros Hprev Hpinch Hout G Hd. unfold singleHandObj. rewrite Hprev.
  unfold singleHandAction, heldBy, heldByOther.
  rewrite Hpinch, Hout, G, (ltb_lt _ _ Hd). reflexivity.
Qed.

Lemma singleHandObj_drag st prev dg hand i p o :
  prev i = Some p -> isPinching hand = true -> has dg (id o) = false ->
  isGrabbed o = true -> grabbedByHandIndex o = Some i ->
  singleHandObj st prev dg hand i o
  = setVel (setPos o (handX hand) (handY hand))
           ((handX hand - hpx p) * throwForce st)
           ((handY hand - hpy p) * throwForce st).
Proof.
  intros Hprev Hpinch Hout G I. unfold singleHandObj. rewrite Hprev.
  unfold singleHandAction, heldBy. rewrite Hpinch, Hout, G, I, Nat.eqb_refl.
  reflexivity.
Qed.

Lemma singleHandObj_foreign st prev dg hand i j o :
  isGrabbed o = true -> grabbedByHandIndex o = Some j -> j <> i ->
  singleHandObj st prev dg hand i o = o.
Proof.
  intros G I Hji. unfold singleHandObj. destruct (prev i); [| reflexivity].
  unfold singleHandAction, heldBy, heldByOther. rewrite G, I.
  apply Nat.eqb_neq in Hji. rewrite Hji. simpl.
  destruct (isPinching hand); [| reflexivity].
  destruct (has dg (id o)); reflexivity.
Qed.

Lemma singleHandObj_out_of_reach st prev dg hand i o :
  isGrabbed o = false ->
  (isPinching hand = true ->
   ltb (hypot (x o - handX hand) (y o - handY hand)) (radius o + 40) = false) ->
  singleHandObj st prev dg hand i o = o.
Proof.
  intros G Hfar. unfold singleHandObj. destruct (prev i); [| reflexivity].
  unfold singleHandAction, heldBy, heldByOther. rewrite G. simpl.
  destruct (isPinching hand); [| reflexivity].
  rewrite (Hfar eq_refl). destruct (has dg (id o)); reflexivity.
Qed.

Lemma cleanupObj_owned dg o h :
  grabbedByHandIndex o = Some h -> cleanupObj dg o = o.
Proof. intros I. unfold cleanupObj, isStale. now rewrite I. Qed.

(** With at most two hands, a pinching hand [h] with a recorded previous
    position, and an object outside the double-grab set: a free object in
    reach ends the resolver owned by [h], otherwise untouched; an object
    owned by [h] ends it on the pinch point with the scaled hand velocity. *)
Lemma resolveObj_single_hand (st : GameSettings) (prev : nat -> option HandPoint)
      (hps : list HandPos) (dg : list R) (h : nat) (hand : HandPos)
      (p : HandPoint) (o : PhysicsObject) :
  (length hps <= 2)%nat ->
  nth_error hps h = Some hand ->
  isPinching hand = true ->
  prev h = Some p ->
  has dg (id o) = false ->
  (forall h0 h1, doubleGrabHands hps = Some (h0, h1) -> qualifies h0 h1 o = false) ->
  (isGrabbed o = false ->
   hypot (x o - handX hand) (y o - handY hand) < radius o + 40 ->
   resolveObj st prev hps dg o = setGrabbedBy (setIsGrabbed o true) (Some h))
  /\ (isGrabbed o = true -> grabbedByHandIndex o = Some h ->
      resolveObj st prev hps dg o
      = setVel (setPos o (handX hand) (handY hand))
               ((handX hand - hpx p) * throwForce st)
               ((handY hand - hpy p) * throwForce st)).
Proof.
  intros Hlen Hh Hpinch Hprev Hout Hnq.
  assert (Hgrab : grabObj prev hps o = o).
  { unfold grabObj. destruct (doubleGrabHands hps) as [[h0 h1]|] eqn:E;
      [| reflexivity].
    unfold doubleGrabObj. now rewrite (Hnq h0 h1 eq_refl). }
  unfold resolveObj. rewrite Hgrab. unfold singleHandAll.
  destruct hps as [|a [|b [|c hps]]]; simpl in Hlen; try lia;
    destruct h as [|[|h]]; simpl in Hh; try discriminate;
    try (destruct h; discriminate); injection Hh as ->;
    cbn [forEachIndexed]; split.
  - (* one hand, h = 0 *)
    intros G Hd. rewrite (singleHandObj_grab st prev dg hand 0 p o) by assumption.
    now apply cleanupObj_owned with (h := 0%nat).
  - intros G I. rewrite (singleHandObj_drag st prev dg hand 0 p o) by assumption.
    now apply cleanupObj_owned with (h := 0%nat).
  - (* two hands, h = 0 *)
    intros G Hd. rewrite (singleHandObj_grab st prev dg hand 0 p o) by assumption.
    rewrite (singleHandObj_foreign st prev dg b 1 0) by (auto; lia).
    now apply cleanupObj_owned with (h := 0%nat).
  - intros G I. rewrite (singleHandObj_drag st prev dg hand 0 p o) by assumption.
    rewrite (singleHandObj_foreign st prev dg b 1 0) by (auto; lia).
    now apply cleanupObj_owned with (h := 0%nat).
  - (* two hands, h = 1 *)
    intros G Hd. rewrite (singleHandObj_out_of_reach st prev dg a 0 o);
      [| assumption |].
    + rewrite (singleHandObj_grab st prev dg hand 1 p o) by assumption.
      now apply cleanupObj_owned with (h := 1%nat).
    + intros Pa.
      assert (Hq : qualifies a hand o = false).
      { apply Hnq. unfold doubleGrabHands. simpl. now rewrite Pa, Hpinch. }
      unfold qualifies in Hq. rewrite (ltb_lt _ _ Hd), andb_true_r in Hq.
      apply orb_false_iff in Hq as [Hq _]. apply orb_false_iff in Hq as [Hq _].
      exact Hq.
  - intros G I. rewrite (singleHandObj_foreign st prev dg a 0 1 o) by (auto; lia).
    rewrite (singleHandObj_drag st prev dg hand 1 p o) by assumption.
    now apply cleanupObj_owned with (h := 1%nat).
Qed.

Lemma recordPrev_same (hps : list HandPos) (prev : nat -> option HandPoint)
      (h : nat) (hand : HandPos) :
  (h < 2)%nat -> nth_error hps h = Some hand ->
  recordPrev hps 1 (recordPrev hps 0 prev) h
  = Some (mkHandPoint (handX hand) (handY hand)).
Proof.
  intros Hh Hn. unfold recordPrev, setKey.
  destruct h as [|[|h]]; [| | lia].
  - rewrite Hn. destruct (nth_error hps 1); reflexivity.
  - rewrite Hn. reflexivity.
Qed.

(** C6, as the code has it. In a frame with at most two hands, let hand [h]
    be pinching AND have a previous pinch position on record, and let an
    object be outside the frame's double-grab set.  If the object is free and
    its center is within [radius + 40] of the pinch point, it ends the
    interaction resolution exclusively grabbed by [h], not moved.  If it is
    already exclusively held by [h], it ends on the pinch point with velocity
    (pinch point - previous pinch point) * throwForce, still held by [h].  In
    both cases the pinch point is recorded as the previous position for the
    next frame. *)
Theorem single_hand_grab_and_drag
    (inp : FrameInput) (r : Refs) (h : nat) (hand : HandPos) (p : HandPoint)
    (k : nat) (o : PhysicsObject) :
  let res := resolveInteraction inp r in
  (length (handResult inp) <= 2)%nat ->
  nth_error (handPositions res) h = Some hand ->
  isPinching hand = true ->
  prevHandPosRef r h = Some p ->
  nth_error (objectsRef r) k = Some o ->
  ~ In (id o) (currentDoubleGrabs res) ->
  exists o',
    nth_error (frameObjects res) k = Some o'
    /\ nth_error (objectsRef (frameRefs res)) k = Some o'
    /\ prevHandPosRef (frameRefs res) h
       = Some (mkHandPoint (handX hand) (handY hand))
    /\ (grabState o = Ungrabbed ->
        hypot (x o - handX hand) (y o - handY hand) < radius o + 40 ->
        grabState o' = GrabbedBy h
        /\ x o' = x o /\ y o' = y o /\ vx o' = vx o /\ vy o' = vy o)
    /\ (grabState o = GrabbedBy h ->
        grabState o' = GrabbedBy h
        /\ x o' = handX hand /\ y o' = handY hand
        /\ vx o' = (handX hand - hpx p) * throwForce (settings inp)
        /\ vy o' = (handY hand - hpy p) * throwForce (settings inp)).
Proof.
  intros res Hhands Hh Hpinch Hprev Hk Hout.
  destruct (resolveInteraction_shape inp r)
    as [new [Hlen [Hdg [Hobjs [Hstore [_ [_ [Hrec _]]]]]]]].
  fold res in Hlen, Hdg, Hobjs, Hstore, Hrec.
  set (prev := prevHandPosRef r) in *.
  set (hps := handPositions res) in *.
  set (dg := currentDoubleGrabs res) in *.
  set (o' := resolveObj (settings inp) prev hps dg o).
  assert (Hh2 : (h < 2)%nat).
  { assert (h < length hps)%nat by (apply nth_error_Some; congruence). lia. }
  assert (Hhas : has dg (id o) = false) by now apply has_false.
  assert (Hnq : forall h0 h1, doubleGrabHands hps = Some (h0, h1) ->
                              qualifies h0 h1 o = false).
  { intros h0 h1 E. destruct (qualifies h0 h1 o) eqn:Hq; [| reflexivity].
    exfalso. apply Hout. rewrite Hdg. apply doubleGrabs_In.
    exists h0, h1, o. repeat split; try assumption.
    eapply nth_error_In; eassumption. }
  destruct (resolveObj_single_hand (settings inp) prev hps dg h hand p o)
    as [Hgrab Hdrag]; try assumption; [lia |].
  assert (Hk' : nth_error (frameObjects res) k = Some o').
  { rewrite Hobjs, nth_error_map, Hk. reflexivity. }
  exists o'. split; [exact Hk' |].
  split.
  { rewrite Hstore, nth_error_app1; [exact Hk' |].
    apply nth_error_Some. congruence. }
  split; [rewrite Hrec; now apply recordPrev_same |].
  split.
  - intros Hfree Hd.
    assert (G : isGrabbed o = false).
    { unfold grabState in Hfree. destruct (isGrabbed o); [| reflexivity].
      destruct (grabbedByHandIndex o); discriminate. }
    unfold o'. rewrite (Hgrab G Hd). repeat split.
  - intros Hheld.
    assert (G : isGrabbed o = true /\ grabbedByHandIndex o = Some h).
    { unfold grabState in Hheld. destruct (isGrabbed o); [| discriminate].
      destruct (grabbedByHandIndex o); [| discriminate].
      injection Hheld as ->. now split. }
    destruct G as [G I]. unfold o'. rewrite (Hdrag G I).
    unfold grabState. simpl. rewrite G, I. repeat split.
Qed.

(** Second frame of a pinch: hand 0 was at (90,100) and pinches at (100,100),
    20 pixels from a free object of radius 20 at (110,100). *)
Lemma single_hand_grab_scene :
  let inp := Scene.frame [Scene.fist 0.5 0.5] None INITIAL_SETTINGS in
  let r := mkRefs [Scene.ball 1 110 100 20]
                  (setKey (fun _ => None) 0%nat (Some (mkHandPoint 90 100)))
                  (setKey (fun _ => false) 0%nat true) 0 (Scene.browserAt 5000) in
  let res := resolveInteraction inp r in
  handPositions res = [mkHandPos 100 100 true false 100 100 0]
  /\ currentDoubleGrabs res = [].
Proof.
  intros inp r res. subst inp r res.
  unfold resolveInteraction, handPrep, handPrepStep, mouthLogic, classifyHand,
    magicianSpawn, gunShot, doubleGrabPhase, doubleGrabHands, singleHandPhase,
    singleHandStep, cleanupObj, doubleGrabObj, singleHandAction.
  num_eval. split; [| reflexivity].
  repeat f_equal; lra.
Qed.

Lemma single_hand_grab_and_drag_witness :
  let inp := Scene.frame [Scene.fist 0.5 0.5] None INITIAL_SETTINGS in
  let r := mkRefs [Scene.ball 1 110 100 20]
                  (setKey (fun _ => None) 0%nat (Some (mkHandPoint 90 100)))
                  (setKey (fun _ => false) 0%nat true) 0 (Scene.browserAt 5000) in
  exists o',
    nth_error (objectsRef (frameRefs (resolveInteraction inp r))) 0 = Some o'
    /\ grabState o' = GrabbedBy 0 /\ x o' = 110 /\ y o' = 100.
Proof.
  intros inp r.
  destruct single_hand_grab_scene as [Hhp Hdg]. fold inp r in Hhp, Hdg.
  destruct (single_hand_grab_and_drag inp r 0
              (mkHandPos 100 100 true false 100 100 0) (mkHandPoint 90 100)
              0 (Scene.ball 1 110 100 20))
    as [o' [_ [Hstore [_ [Hgrab _]]]]].
  - simpl. lia.
  - rewrite Hhp. reflexivity.
  - reflexivity.
  - reflexivity.
  - reflexivity.
  - rewrite Hdg. intros [].
  - exists o'. split; [exact Hstore |].
    destruct Hgrab as [Hs [Hx [Hy _]]]; [reflexivity | |].
    + cbn. apply hypot_lt; [lra | nra].
    + rewrite Hs, Hx, Hy. repeat split.
Defined.

(** C6 as stated fails on the first frame in which a hand is seen: without a
    previous pinch position the single-hand block returns early for that
    hand, and the free object within reach stays free. *)
Lemma first_frame_pinch_counterexample :
  ~ (forall (inp : FrameInput) (r : Refs) (h : nat) (hand : HandPos)
            (k : nat) (o : PhysicsObject),
        let res := resolveInteraction inp r in
        nth_error (handPositions res) h = Some hand ->
        isPinching hand = true ->
        nth_error (objectsRef r) k = Some o ->
        grabState o = Ungrabbed ->
        ~ In (id o) (currentDoubleGrabs res) ->
        hypot (x o - handX hand) (y o - handY hand) < radius o + 40 ->
        exists o', nth_error (frameObjects res) k = Some o'
                   /\ grabState o' = GrabbedBy h).
Proof.
  intros Hclaim.
  pose (inp := Scene.frame [Scene.fist 0.5 0.5] None INITIAL_SETTINGS).
  pose (r := Scene.freshRefs [Scene.ball 1 110 100 20] 5000).
  assert (Hres : handPositions (resolveInteraction inp r)
                 = [mkHandPos 100 100 true false 100 100 0]
                 /\ currentDoubleGrabs (resolveInteraction inp r) = []
                 /\ map grabState (frameObjects (resolveInteraction inp r))
                    = [Ungrabbed]).
  { subst inp r.
    unfold resolveInteraction, handPrep, handPrepStep, mouthLogic, classifyHand,
      magicianSpawn, gunShot, doubleGrabPhase, doubleGrabHands, singleHandPhase,
      singleHandStep, cleanupObj, doubleGrabObj, singleHandAction.
    num_eval. split; [| split; reflexivity].
    repeat f_equal; lra. }
  destruct Hres as [Hhp [Hdg Hstates]].
  destruct (Hclaim inp r 0%nat (mkHandPos 100 100 true false 100 100 0)
                   0%nat (Scene.ball 1 110 100 20))
    as [o' [Hk Hs]].
  - rewrite Hhp. reflexivity.
  - reflexivity.
  - reflexivity.
  - reflexivity.
  - rewrite Hdg. intros [].
  - cbn. apply hypot_lt; [lra | nra].
  - destruct (frameObjects (resolveInteraction inp r)) as [|o1 [|o2 l]];
      simpl in Hstates, Hk; try discriminate.
    injection Hk as ->. injection Hstates as Hs'. congruence.
Qed.

(* ================================================================= *)
(** ** Order of the steps of the interaction resolver *)

Lemma prevEvents_phase hps : Forall (fun e => phaseOf e = PhPrevPos) (prevEvents hps).
Proof.
  unfold prevEvents.
  destruct (nth_error hps 0), (nth_error hps 1); repeat constructor.
Qed.








(* ================================================================= *)
(** ** The clock of a frame *)

Lemma sameClock_refl w : sameClock w w.
Proof. reflexivity. Qed.

Lemma sameClock_trans w1 w2 w3 :
  sameClock w1 w2 -> sameClock w2 w3 -> sameClock w1 w3.
Proof. unfold sameClock. congruence. Qed.

Lemma sameClock_orRandom v f w : sameClock w (snd (orRandom v f w)).
Proof. destruct v; reflexivity. Qed.

Lemma sameClock_makeObject a fx fy fr w :
  sameClock w (snd (makeObject a fx fy fr w)).
Proof.
  unfold makeObject. cbn.
  destruct (argVx a), (argVy a), (argColor a); reflexivity.
Qed.

Lemma sameClock_spawnAttempt a world batch w :
  sameClock w (snd (spawnAttempt a world batch w)).
Proof.
  unfold spawnAttempt.
  pose proof (sameClock_orRandom (argRadius a) (fun r => 20 + r * 25) w) as H1.
  destruct (orRandom _ _ w) as [fr w1]. simpl in H1.
  destruct (fixedPosition a).
  - pose proof (sameClock_makeObject a
                  (match argX a with Some v => v | None => 0 end)
                  (match argY a with Some v => v | None => 0 end) fr w1) as H2.
    destruct (makeObject _ _ _ _ w1) as [o w2]. simpl in *.
    eapply sameClock_trans; eassumption.
  - unfold makeObject. cbn. destruct (isSafe _ _ _ _ _); [| exact H1].
    destruct (argVx a), (argVy a), (argColor a); exact H1.
Qed.

Lemma sameClock_spawnLoop a m world fuel :
  forall batch n w,
    sameClock w (snd (spawnLoop fuel a m world (batch, n, w))).
Proof.
  induction fuel as [|fuel IH]; intros batch n w; simpl; [reflexivity |].
  destruct (_ && _); [| reflexivity].
  pose proof (sameClock_spawnAttempt a world batch w) as H.
  destruct (spawnAttempt a world batch w) as [[o|] w1]; simpl in H;
    (eapply sameClock_trans; [exact H | apply IH]).
Qed.

Lemma sameClock_spawnInto a r :
  sameClock (browser r) (browser (fst (spawnInto a r))).
Proof.
  unfold spawnInto, spawnRun.
  pose proof (sameClock_spawnLoop a (maxAttemptsOf a) (objectsRef r)
                (maxAttemptsOf a) [] 0%nat (browser r)) as H.
  destruct (spawnLoop _ _ _ _ _) as [[batch n] w']. exact H.
Qed.

Lemma sameClock_magicianSpawn m hp i r :
  sameClock (browser r) (browser (fst (magicianSpawn m hp i r))).
Proof.
  unfold magicianSpawn.
  destruct (_ && _); [| reflexivity].
  destruct (ltb _ _); [apply sameClock_spawnInto | reflexivity].
Qed.

Lemma sameClock_gunShot hp r :
  sameClock (browser r) (browser (fst (gunShot hp r))).
Proof.
  unfold gunShot.
  destruct (isGun hp); [| reflexivity].
  destruct (ltb _ _); [| reflexivity].
  cbn. destruct (gtb _ 300); reflexivity.
Qed.

Lemma sameClock_handPrep inp m r :
  sameClock (browser r) (browser (fst (fst (handPrep inp m r)))).
Proof.
  unfold handPrep.
  apply (forEachIndexed_invariant
           (fun _ s => sameClock (browser r) (browser (fst (fst s))))
           (handPrepStep inp m) (handResult inp) 0 (r, [], []));
    [reflexivity |].
  intros lm k [[r1 hps] log] _ _ H. simpl in H. unfold handPrepStep.
  pose proof (sameClock_magicianSpawn m
                (classifyHand inp (prevHandPosRef r1) k lm) k r1) as H1.
  destruct (magicianSpawn _ _ _ r1) as [r2 ev1]. simpl in H1.
  pose proof (sameClock_gunShot
                (classifyHand inp (prevHandPosRef r1) k lm) r2) as H2.
  destruct (gunShot _ r2) as [r3 ev2]. simpl in H2. simpl.
  unfold sameClock in *. congruence.
Qed.

Lemma sameClock_resolveInteraction inp r :
  sameClock (browser r) (browser (frameRefs (resolveInteraction inp r))).
Proof.
  unfold resolveInteraction. cbn [now].
  set (r0 := withBrowser r _).
  pose proof (sameClock_handPrep inp (mouthLogic inp) r0) as H.
  destruct (handPrep inp (mouthLogic inp) r0) as [[r1 hps] log1].
  destruct (doubleGrabPhase _ _ _) as [dg objects1].
  destruct (singleHandPhase _ _ _ _ _) as [objects2 log3]. exact H.
Qed.

Lemma sameClock_collidePair st i j s :
  sameClock (snd s) (snd (collidePair st i j s)).
Proof.
  destruct s as [[objects toRemove] w]. unfold collidePair.
  destruct (nth_error objects i) as [o1|]; [| reflexivity].
  destruct (nth_error objects j) as [o2|]; [| reflexivity].
  destruct (_ || _); [reflexivity |].
  destruct (_ || _); [reflexivity |].
  destruct (overlapping o1 o2); [| reflexivity].
  unfold resolveOverlap, canFuse. cbn.
  destruct (gtb (fusionChance st) 0); cbn.
  - destruct (_ && _); [destruct (fuse _ _ _) as [[a b] c] | ]; reflexivity.
  - reflexivity.
Qed.

Lemma sameClock_collisions st s :
  sameClock (snd s) (snd (collisions st s)).
Proof.
  unfold collisions. destruct (enableCollisions st); [| reflexivity].
  unfold collisionPass.
  apply (fold_left_invariant (fun s' => sameClock (snd s) (snd s')));
    [reflexivity |].
  intros s1 i H1. unfold collideRow.
  apply (fold_left_invariant (fun s' => sameClock (snd s) (snd s')));
    [exact H1 |].
  intros s2 j H2.
  eapply sameClock_trans; [exact H2 | apply sameClock_collidePair].
Qed.

Ltac calls_done := unfold callsAdvance; simpl; lia.

Lemma calls_orRandom v f w : callsAdvance w (snd (orRandom v f w)).
Proof. destruct v; calls_done. Qed.

Lemma calls_makeObject a fx fy fr w :
  callsAdvance w (snd (makeObject a fx fy fr w)).
Proof.
  unfold makeObject. cbn.
  destruct (argVx a), (argVy a), (argColor a); calls_done.
Qed.

Lemma calls_spawnAttempt a world batch w :
  callsAdvance w (snd (spawnAttempt a world batch w)).
Proof.
  unfold spawnAttempt.
  pose proof (calls_orRandom (argRadius a) (fun r => 20 + r * 25) w) as H1.
  destruct (orRandom _ _ w) as [fr w1]. simpl in H1.
  destruct (fixedPosition a).
  - pose proof (calls_makeObject a
                  (match argX a with Some v => v | None => 0 end)
                  (match argY a with Some v => v | None => 0 end) fr w1) as H2.
    destruct (makeObject _ _ _ _ w1) as [o w2]. unfold callsAdvance in *.
    simpl in *. lia.
  - unfold makeObject. cbn. unfold callsAdvance in *.
    destruct (isSafe _ _ _ _ _); [| simpl in *; lia].
    destruct (argVx a), (argVy a), (argColor a); simpl in *; lia.
Qed.

Lemma calls_spawnLoop a m world fuel :
  forall batch n w,
    callsAdvance w (snd (spawnLoop fuel a m world (batch, n, w))).
Proof.
  induction fuel as [|fuel IH]; intros batch n w; simpl; [calls_done |].
  destruct (_ && _); [| calls_done].
  pose proof (calls_spawnAttempt a world batch w) as H.
  destruct (spawnAttempt a world batch w) as [[o|] w1]; simpl in H.
  - pose proof (IH (batch ++ [o]) (S n) w1). unfold callsAdvance in *. lia.
  - pose proof (IH batch (S n) w1). unfold callsAdvance in *. lia.
Qed.

Lemma calls_spawnInto a r :
  callsAdvance (browser r) (browser (fst (spawnInto a r))).
Proof.
  unfold spawnInto, spawnRun.
  pose proof (calls_spawnLoop a (maxAttemptsOf a) (objectsRef r)
                (maxAttemptsOf a) [] 0%nat (browser r)) as H.
  destruct (spawnLoop _ _ _ _ _) as [[batch n] w']. exact H.
Qed.

Lemma calls_magicianSpawn m hp i r :
  callsAdvance (browser r) (browser (fst (magicianSpawn m hp i r))).
Proof.
  unfold magicianSpawn.
  destruct (_ && _); [| calls_done].
  destruct (ltb _ _); [apply calls_spawnInto | calls_done].
Qed.

Lemma calls_gunShot hp r :
  callsAdvance (browser r) (browser (fst (gunShot hp r))).
Proof.
  unfold gunShot.
  destruct (isGun hp); [| calls_done].
  destruct (ltb _ _); [| calls_done].
  cbn. destruct (gtb _ 300); calls_done.
Qed.

Lemma calls_handPrep inp m r :
  callsAdvance (browser r) (browser (fst (fst (handPrep inp m r)))).
Proof.
  unfold handPrep.
  apply (forEachIndexed_invariant
           (fun _ s => callsAdvance (browser r) (browser (fst (fst s))))
           (handPrepStep inp m) (handResult inp) 0 (r, [], []));
    [calls_done |].
  intros lm k [[r1 hps] log] _ _ H. simpl in H. unfold handPrepStep.
  pose proof (calls_magicianSpawn m
                (classifyHand inp (prevHandPosRef r1) k lm) k r1) as H1.
  destruct (magicianSpawn _ _ _ r1) as [r2 ev1]. simpl in H1.
  pose proof (calls_gunShot
                (classifyHand inp (prevHandPosRef r1) k lm) r2) as H2.
  destruct (gunShot _ r2) as [r3 ev2]. simpl in H2. simpl.
  unfold callsAdvance in *. lia.
Qed.

(** The resolver starts with the reading [currentTime]. *)
Lemma calls_resolveInteraction inp r :
  (nowCalls (browser r)
   < nowCalls (browser (frameRefs (resolveInteraction inp r))))%nat.
Proof.
  unfold resolveInteraction. cbn [now].
  set (r0 := withBrowser r _).
  pose proof (calls_handPrep inp (mouthLogic inp) r0) as H.
  destruct (handPrep inp (mouthLogic inp) r0) as [[r1 hps] log1].
  destruct (doubleGrabPhase _ _ _) as [dg objects1].
  destruct (singleHandPhase _ _ _ _ _) as [objects2 log3].
  unfold callsAdvance in H. simpl in *. lia.
Qed.

Lemma calls_collidePair st i j s :
  callsAdvance (snd s) (snd (collidePair st i j s)).
Proof.
  destruct s as [[objects toRemove] w]. unfold collidePair.
  destruct (nth_error objects i) as [o1|]; [| calls_done].
  destruct (nth_error objects j) as [o2|]; [| calls_done].
  destruct (_ || _); [calls_done |].
  destruct (_ || _); [calls_done |].
  destruct (overlapping o1 o2); [| calls_done].
  unfold resolveOverlap, canFuse. cbn.
  destruct (gtb (fusionChance st) 0); cbn.
  - destruct (_ && _); [destruct (fuse _ _ _) as [[a b] c] | ]; calls_done.
  - calls_done.
Qed.

Lemma calls_collisions st s :
  callsAdvance (snd s) (snd (collisions st s)).
Proof.
  unfold collisions. destruct (enableCollisions st); [| calls_done].
  unfold collisionPass.
  apply (fold_left_invariant (fun s' => callsAdvance (snd s) (snd s')));
    [calls_done |].
  intros s1 i H1. unfold collideRow.
  apply (fold_left_invariant (fun s' => callsAdvance (snd s) (snd s')));
    [exact H1 |].
  intros s2 j H2. pose proof (calls_collidePair st i j s2).
  unfold callsAdvance in *. lia.
Qed.

(* ================================================================= *)
(** ** Eating and removal *)

Lemma moveEatObj_eats (inp : FrameInput) (m : Mouth) (obj : PhysicsObject)
      (toRemove : list R) (w : Browser) :
  let obj' := fst (fst (moveEatObj inp m obj toRemove w)) in
  let toRemove' := snd (fst (moveEatObj inp m obj toRemove w)) in
  sameClock w (snd (moveEatObj inp m obj toRemove w))
  /\ incl toRemove toRemove'
  /\ (eats m w obj' -> In (id obj') toRemove')
  /\ (~ eats m w obj' -> toRemove' = toRemove)
  /\ callsAdvance w (snd (moveEatObj inp m obj toRemove w)).
Proof.
  unfold moveEatObj, eats. destruct (has toRemove (id obj)) eqn:Hhas; simpl.
  - split; [reflexivity |]. split; [apply incl_refl |].
    split; [intros _; now apply has_In |]. split; [reflexivity | calls_done].
  - set (obj1 := if isGrabbed obj then obj else integrate inp obj).
    unfold eat. destruct (isMouthOpen m); simpl.
    + destruct (isGrabbed obj1) eqn:G; simpl.
      * split; [reflexivity |]. split; [apply incl_refl |].
        split; [intros [_ [F _]]; unfold obj1 in *; congruence |].
        split; [reflexivity | calls_done].
      * destruct (gtb (performanceNow w (nowCalls w) - createdAt obj1) 2000)
          eqn:Hage.
        -- destruct (inMouth m obj1) eqn:Hin; simpl.
           ++ split; [reflexivity |]. split; [apply incl_appl, incl_refl |].
              split; [intros _; apply in_or_app; right; now left |].
              split; [| calls_done].
              intros Hno. exfalso. apply Hno. apply gtb_true_iff in Hage.
              repeat split; assumption.
           ++ split; [reflexivity |]. split; [apply incl_refl |].
              split; [intros [_ [_ [_ F]]]; unfold obj1 in *; congruence |].
              split; [reflexivity | calls_done].
        -- simpl. split; [reflexivity |]. split; [apply incl_refl |].
           split; [| split; [reflexivity | calls_done]].
           intros [_ [_ [Hold _]]]. exfalso.
           apply gtb_false_iff in Hage. lra.
    + split; [reflexivity |]. split; [apply incl_refl |].
      split; [intros [F _]; discriminate |].
      split; [reflexivity | calls_done].
Qed.

(** The pass on [obj :: l] goes on from where the step on [obj] ends. *)
Lemma moveEatPass_cons_browser inp m obj l toRemove w :
  snd (moveEatPass inp m (obj :: l) toRemove w)
  = snd (moveEatPass inp m l (snd (fst (moveEatObj inp m obj toRemove w)))
                     (snd (moveEatObj inp m obj toRemove w))).
Proof.
  simpl. destruct (moveEatObj inp m obj toRemove w) as [[obj' rm1] w1].
  simpl. destruct (moveEatPass inp m l rm1 w1) as [[l' rm2] w2]. reflexivity.
Qed.

Lemma moveEatPass_eats (inp : FrameInput) (m : Mouth)
      (objects : list PhysicsObject) :
  forall (toRemove : list R) (w : Browser),
    let objects' := fst (fst (moveEatPass inp m objects toRemove w)) in
    let toRemove' := snd (fst (moveEatPass inp m objects toRemove w)) in
    let before k := snd (moveEatPass inp m (firstn k objects) toRemove w) in
    sameClock w (snd (moveEatPass inp m objects toRemove w))
    /\ incl toRemove toRemove'
    /\ (forall k o, nth_error objects' k = Some o ->
          eats m (before k) o -> In (id o) toRemove')
    /\ ((forall k o, nth_error objects' k = Some o -> ~ eats m (before k) o) ->
        toRemove' = toRemove)
    /\ callsAdvance w (snd (moveEatPass inp m objects toRemove w)).
Proof.
  induction objects as [|obj rest IH]; intros toRemove w.
  - simpl. split; [reflexivity |]. split; [apply incl_refl |].
    split; [intros [|k] o H; discriminate |].
    split; [reflexivity | calls_done].
  - cbv zeta.
    pose proof (moveEatObj_eats inp m obj toRemove w) as [C1 [I1 [E1 [N1 A1]]]].
    pose proof (fun k => moveEatPass_cons_browser inp m obj (firstn k rest)
                           toRemove w) as Hcons.
    cbn [moveEatPass].
    destruct (moveEatObj inp m obj toRemove w) as [[obj' toRemove1] w1].
    simpl in C1, I1, E1, N1, A1. cbn [fst snd] in Hcons.
    pose proof (IH toRemove1 w1) as [C2 [I2 [E2 [N2 A2]]]].
    destruct (moveEatPass inp m rest toRemove1 w1) as [[rest' toRemove2] w2].
    simpl in C2, I2, E2, N2, A2. cbn [fst snd].
    split; [eapply sameClock_trans; eassumption |].
    split; [eapply incl_tran; eassumption |].
    split; [| split].
    + intros [|k] o Hk He; simpl in Hk.
      * injection Hk as <-. apply I2, E1. exact He.
      * apply (E2 k o Hk). rewrite <- Hcons. exact He.
    + intros Hno.
      assert (H1 : toRemove1 = toRemove).
      { apply N1. apply (Hno 0%nat obj' eq_refl). }
      rewrite <- H1. apply N2. intros k o Hk He.
      apply (Hno (S k) o Hk).
      change (eats m (snd (moveEatPass inp m (obj :: firstn k rest)
                                       toRemove w)) o).
      rewrite Hcons. exact He.
    + unfold callsAdvance in *. lia.
Qed.

(** The stages of a frame behind the fields of its result. *)
Lemma loop_stages (inp : FrameInput) (r : Refs) :
  let res := resolveInteraction inp r in
  let fr := loop inp r in
  exists w1 w2,
    collisions (settings inp) (frameObjects res, [], browser (frameRefs res))
    = (afterCollisions fr, fusedAway fr, w1)
    /\ moveEatPass inp (frameMouth res) (afterCollisions fr) (fusedAway fr) w1
       = (afterMovement fr, objectsToRemove fr, w2)
    /\ objectsRef (refsAfter fr)
       = applyRemovals (objectsToRemove fr) (afterMovement fr ++ spawned fr)
    /\ resolved fr = res
    /\ spawned fr = spawnedIn (frameObjects res) (objectsRef (frameRefs res)).
Proof.
  unfold loop. cbv zeta.
  destruct (collisions _ _) as [[objects1 toRemove1] w1].
  destruct (moveEatPass _ _ _ _ _) as [[objects2 toRemove2] w2] eqn:E.
  exists w1, w2. simpl. repeat split; try reflexivity. exact E.
Qed.

(** C8.  The object of index [k] of a frame meets the eating test with the
    mouth of the frame and with one reading of the clock, the call
    [eatingCall inp r k] of [performance.now()], which is later than the
    reading that opens the frame.  Every object that passes the test (mouth
    open, not grabbed after its movement, created more than 2000ms before
    that reading, center closer to the mouth center than half the mouth
    width) is in the removal set and absent from the store when the frame
    ends; when no object passes it, the removal set is what fusion scheduled.
    The removal set contains the removals scheduled by fusion, and the store
    at the end of the frame is one filter, by that final set, of the objects
    after the whole pass followed by the objects spawned in the frame. *)
Theorem eating_schedules_and_removals_apply_once (inp : FrameInput) (r : Refs) :
  let fr := loop inp r in
  (forall k o, nth_error (afterMovement fr) k = Some o ->
     eatingTest inp r k o ->
     In (id o) (objectsToRemove fr) /\ ~ In o (objectsRef (refsAfter fr)))
  /\ ((forall k o, nth_error (afterMovement fr) k = Some o ->
         ~ eatingTest inp r k o) ->
      objectsToRemove fr = fusedAway fr)
  /\ (forall k, (nowCalls (browser r) < eatingCall inp r k)%nat)
  /\ incl (fusedAway fr) (objectsToRemove fr)
  /\ objectsRef (refsAfter fr)
     = filter (fun o => negb (has (objectsToRemove fr) (id o)))
              (afterMovement fr ++ spawned fr).
Proof.
  intros fr.
  destruct (loop_stages inp r) as [w1 [w2 [Hcol [Hmove [Hstore [Hres _]]]]]].
  fold fr in Hcol, Hmove, Hstore, Hres.
  destruct (resolveInteraction_shape inp r) as [_ [_ [_ [_ [_ [_ [Hm _]]]]]]].
  rewrite Hm in Hmove.
  set (m := mouthLogic inp) in *.
  pose proof (moveEatPass_eats inp m (afterCollisions fr) (fusedAway fr) w1)
    as [_ [Hincl [Heat [Hnone _]]]].
  rewrite Hmove in Hincl, Heat, Hnone. cbn [fst snd] in Hincl, Heat, Hnone.
  rewrite applyRemovals_filter in Hstore.
  assert (Hat : forall k, browserAtObject inp r k
                = snd (moveEatPass inp m (firstn k (afterCollisions fr))
                                   (fusedAway fr) w1)).
  { intros k. unfold browserAtObject. rewrite Hcol, Hm. reflexivity. }
  assert (Hclock : performanceNow w1 = performanceNow (browser r)).
  { pose proof (sameClock_resolveInteraction inp r) as H1.
    pose proof (sameClock_collisions (settings inp)
                  (frameObjects (resolveInteraction inp r), [],
                   browser (frameRefs (resolveInteraction inp r)))) as H2.
    rewrite Hcol in H2. simpl in H2. unfold sameClock in *. congruence. }
  assert (Hcalls : (nowCalls (browser r) < nowCalls w1)%nat).
  { pose proof (calls_resolveInteraction inp r) as H1.
    pose proof (calls_collisions (settings inp)
                  (frameObjects (resolveInteraction inp r), [],
                   browser (frameRefs (resolveInteraction inp r)))) as H2.
    rewrite Hcol in H2. unfold callsAdvance in H2. simpl in H2. lia. }
  assert (Hsame : forall k o,
             eatingTest inp r k o
             <-> eats m (snd (moveEatPass inp m (firstn k (afterCollisions fr))
                                          (fusedAway fr) w1)) o).
  { intros k o. unfold eatingTest, eats, eatingCall. rewrite Hat.
    fold m.
    pose proof (moveEatPass_eats inp m (firstn k (afterCollisions fr))
                  (fusedAway fr) w1) as [Hc _].
    unfold sameClock in Hc. rewrite Hc, Hclock.
    unfold inMouth. rewrite ltb_true_iff. tauto. }
  split; [| split; [| split; [| split; assumption]]].
  - intros k o Hk Ht.
    assert (Hin : In (id o) (objectsToRemove fr))
      by (apply (Heat k o Hk); now apply Hsame).
    split; [exact Hin |].
    rewrite Hstore. intros Hfil. apply filter_In in Hfil as [_ Hneg].
    apply has_In in Hin. rewrite Hin in Hneg. discriminate.
  - intros Hno. apply Hnone. intros k o Hk He.
    apply (Hno k o Hk). now apply Hsame.
  - intros k. unfold eatingCall. rewrite Hat.
    pose proof (moveEatPass_eats inp m (firstn k (afterCollisions fr))
                  (fusedAway fr) w1) as [_ [_ [_ [_ Ha]]]].
    unfold callsAdvance in Ha. lia.
Qed.

(** An object at rest inside the canvas stays where it is. *)
Lemma integrate_resting_ball :
  integrate (Scene.frame [] (Some Scene.openMouth) INITIAL_SETTINGS)
            (Scene.ball 1 110 100 10)
  = Scene.ball 1 110 100 10.
Proof.
  unfold integrate. num_eval. unfold Scene.ball, setVel, setPos. cbn.
  f_equal; lra.
Qed.

(** The scenario of the specification: mouth open, 80 pixels wide, a free
    object 10 pixels from the mouth center, stamped by the first reading of
    the clock and tested at the third. *)
Lemma eating_scene :
  let inp := Scene.frame [] (Some Scene.openMouth) INITIAL_SETTINGS in
  let r := mkRefs [Scene.ball 1 110 100 10] (fun _ => None) (fun _ => false) 0
                  lateBrowser in
  isMouthOpen (mouthLogic inp) = true
  /\ mouthWidth (mouthLogic inp) = 80
  /\ mouthCenterX (mouthLogic inp) = 100
  /\ mouthCenterY (mouthLogic inp) = 100
  /\ (exists o, afterMovement (loop inp r) = [o]
                /\ id o = 1 /\ isGrabbed o = false
                /\ x o = 110 /\ y o = 100 /\ createdAt o = 0)
  /\ spawned (loop inp r) = []
  /\ eatingCall inp r 0 = 2%nat.
Proof.
  intros inp r.
  assert (Hm : isMouthOpen (mouthLogic inp) = true
               /\ mouthWidth (mouthLogic inp) = 80
               /\ mouthCenterX (mouthLogic inp) = 100
               /\ mouthCenterY (mouthLogic inp) = 100).
  { subst inp. unfold mouthLogic. num_eval. repeat split; lra. }
  destruct Hm as [M1 [M2 [M3 M4]]].
  repeat (split; [assumption |]).
  assert (Hres : frameObjects (resolveInteraction inp r) = [Scene.ball 1 110 100 10]
                 /\ objectsRef (frameRefs (resolveInteraction inp r))
                    = [Scene.ball 1 110 100 10]
                 /\ browser (frameRefs (resolveInteraction inp r))
                    = snd (now lateBrowser)
                 /\ frameMouth (resolveInteraction inp r) = mouthLogic inp).
  { subst inp r.
    unfold resolveInteraction, handPrep, doubleGrabPhase, doubleGrabHands,
      singleHandPhase, cleanupObj, spawnedIn.
    num_eval. repeat split. }
  destruct Hres as [R1 [R2 [R3 R4]]].
  assert (Hcall : eatingCall inp r 0 = 2%nat).
  { unfold eatingCall, browserAtObject. rewrite R1, R3.
    unfold collisions, collisionPass, collideRow. cbn. reflexivity. }
  destruct (loop_stages inp r) as [w1 [w2 [Hcol [Hmove [_ [_ Hsp]]]]]].
  remember (loop inp r) as fr eqn:Efr. clear Efr.
  rewrite R1, R3 in Hcol. rewrite R1, R2 in Hsp. rewrite R4 in Hmove.
  unfold collisions, collisionPass, collideRow in Hcol. cbn in Hcol.
  injection Hcol as E1 E2 E3. rewrite <- E1, <- E2, <- E3 in Hmove.
  split; [| split; [exact Hsp | exact Hcall]].
  revert Hmove. subst inp.
  unfold moveEatPass, moveEatObj. cbn. rewrite integrate_resting_ball.
  unfold eat, mouthLogic. num_eval. intros Hmove. injection Hmove as <- _ _.
  eexists. split; [reflexivity |]. cbn. repeat split; lra.
Qed.

Lemma eating_schedules_and_removals_apply_once_witness :
  let inp := Scene.frame [] (Some Scene.openMouth) INITIAL_SETTINGS in
  let r := mkRefs [Scene.ball 1 110 100 10] (fun _ => None) (fun _ => false) 0
                  lateBrowser in
  objectsToRemove (loop inp r) <> [] /\ objectsRef (refsAfter (loop inp r)) = [].
Proof.
  intros inp r.
  destruct eating_scene
    as [Hopen [Hw [Hcx [Hcy [[o [E [Hid [Hg [Hx [Hy Hc]]]]]] [Hs Hcall]]]]]].
  fold inp r in Hopen, Hw, Hcx, Hcy, E, Hs, Hcall.
  destruct (eating_schedules_and_removals_apply_once inp r)
    as [Heat [_ [_ [_ Hstore]]]].
  destruct (Heat 0%nat o) as [Hin _].
  - rewrite E. reflexivity.
  - unfold eatingTest. rewrite Hcall, Hopen, Hw, Hcx, Hcy, Hx, Hy, Hc.
    repeat split; try assumption.
    + cbn. lra.
    + apply hypot_lt; [lra | nra].
  - split; [intros F; rewrite F in Hin; destruct Hin |].
    rewrite Hstore, Hs, E. simpl. apply has_In in Hin. rewrite Hin. reflexivity.
Defined.

(* ================================================================= *)
(** * Further properties of the frame *)

(** ** Free-body integration and the walls *)

Lemma integrate_stages (inp : FrameInput) (o : PhysicsObject) :
  integrate inp o
  = wallBottom inp (wallTop inp (wallRight inp (wallLeft inp (moveStep inp o)))).
Proof. reflexivity. Qed.

Lemma sameBody_refl o : sameBody o o.
Proof. repeat split. Qed.

Lemma sameBody_trans o1 o2 o3 : sameBody o1 o2 -> sameBody o2 o3 -> sameBody o1 o3.
Proof.
  unfold sameBody. intros [A1 [A2 [A3 [A4 [A5 [A6 A7]]]]]]
                          [B1 [B2 [B3 [B4 [B5 [B6 B7]]]]]].
  repeat split; congruence.
Qed.

Lemma sameBody_moveStep inp o : sameBody o (moveStep inp o).
Proof. repeat split. Qed.

Lemma sameBody_wallLeft inp o : sameBody o (wallLeft inp o).
Proof. unfold wallLeft. destruct (ltb _ _); repeat split. Qed.

Lemma sameBody_wallRight inp o : sameBody o (wallRight inp o).
Proof. unfold wallRight. destruct (gtb _ _); repeat split. Qed.

Lemma sameBody_wallTop inp o : sameBody o (wallTop inp o).
Proof. unfold wallTop. destruct (ltb _ _); repeat split. Qed.

Lemma sameBody_wallBottom inp o : sameBody o (wallBottom inp o).
Proof. unfold wallBottom. destruct (gtb _ _); repeat split. Qed.

(** Integration never writes a field other than position and velocity. *)
Lemma sameBody_integrate (inp : FrameInput) (o : PhysicsObject) :
  sameBody o (integrate inp o).
Proof.
  rewrite integrate_stages.
  eapply sameBody_trans; [| apply sameBody_wallBottom].
  eapply sameBody_trans; [| apply sameBody_wallTop].
  eapply sameBody_trans; [| apply sameBody_wallRight].
  eapply sameBody_trans; [| apply sameBody_wallLeft].
  apply sameBody_moveStep.
Qed.

(** The two horizontal tests leave the object between the side walls, and
    the two vertical tests do not touch [x]. *)
Lemma walls_x (inp : FrameInput) (o : PhysicsObject) :
  2 * radius o <= canvasWidth inp ->
  radius o <= x (wallRight inp (wallLeft inp o)) <= canvasWidth inp - radius o.
Proof.
  intros Hw. unfold wallRight, wallLeft, gtb.
  destruct (ltb (x o - radius o) 0) eqn:E1;
    [apply ltb_true_iff in E1 | apply ltb_false_iff in E1]; cbn;
    match goal with
    | |- context [ltb ?a ?b] =>
        destruct (ltb a b) eqn:E2;
        [apply ltb_true_iff in E2 | apply ltb_false_iff in E2]
    end; cbn; lra.
Qed.

Lemma walls_y (inp : FrameInput) (o : PhysicsObject) :
  2 * radius o <= canvasHeight inp ->
  radius o <= y (wallBottom inp (wallTop inp o)) <= canvasHeight inp - radius o.
Proof.
  intros Hh. unfold wallBottom, wallTop, gtb.
  destruct (ltb (y o - radius o) 0) eqn:E1;
    [apply ltb_true_iff in E1 | apply ltb_false_iff in E1]; cbn;
    match goal with
    | |- context [ltb ?a ?b] =>
        destruct (ltb a b) eqn:E2;
        [apply ltb_true_iff in E2 | apply ltb_false_iff in E2]
    end; cbn; lra.
Qed.

Lemma x_wallTop inp o : x (wallTop inp o) = x o.
Proof. unfold wallTop. destruct (ltb _ _); reflexivity. Qed.

Lemma x_wallBottom inp o : x (wallBottom inp o) = x o.
Proof. unfold wallBottom. destruct (gtb _ _); reflexivity. Qed.

(** The integration step alone: an object whose diameter fits in the canvas
    lies entirely inside the canvas after it, whatever its position and
    velocity were before. *)
Lemma integrate_stays_inside_canvas (inp : FrameInput) (o : PhysicsObject) :
  2 * radius o <= canvasWidth inp ->
  2 * radius o <= canvasHeight inp ->
  radius o <= x (integrate inp o) <= canvasWidth inp - radius o
  /\ radius o <= y (integrate inp o) <= canvasHeight inp - radius o.
Proof.
  intros Hw Hh. rewrite integrate_stages. split.
  - rewrite x_wallBottom, x_wallTop.
    destruct (sameBody_moveStep inp o) as [_ [Hr _]]. rewrite <- Hr.
    apply walls_x. now rewrite Hr.
  - set (o2 := wallRight inp (wallLeft inp (moveStep inp o))).
    assert (Hr : radius o2 = radius o).
    { unfold o2.
      destruct (sameBody_wallRight inp (wallLeft inp (moveStep inp o)))
        as [_ [H1 _]].
      destruct (sameBody_wallLeft inp (moveStep inp o)) as [_ [H2 _]].
      destruct (sameBody_moveStep inp o) as [_ [H3 _]]. congruence. }
    rewrite <- Hr. apply walls_y. now rewrite Hr.
Qed.

Lemma integrate_stays_inside_canvas_witness :
  let inp := Scene.frame [] None INITIAL_SETTINGS in
  let o := mkObject 1 195 5 30 (-40) 10 "#f43f5e" false None 0 0 in
  10 <= x (integrate inp o) <= 190 /\ 10 <= y (integrate inp o) <= 190.
Proof.
  intros inp o.
  destruct (integrate_stays_inside_canvas inp o) as [Hx Hy];
    [cbn; lra | cbn; lra |].
  cbn in Hx, Hy. lra.
Defined.

(* ================================================================= *)
(** ** What the physics step keeps *)

Lemma sameBody_sym o o' : sameBody o o' -> sameBody o' o.
Proof.
  unfold sameBody. intros [A1 [A2 [A3 [A4 [A5 [A6 A7]]]]]].
  repeat split; congruence.
Qed.

Lemma Forall2_refl {A : Type} (R : A -> A -> Prop) (l : list A) :
  (forall a, R a a) -> Forall2 R l l.
Proof. intros H. induction l; constructor; auto. Qed.

Lemma Forall2_transitive {A : Type} (R : A -> A -> Prop) (l1 l2 l3 : list A) :
  (forall a b c, R a b -> R b c -> R a c) ->
  Forall2 R l1 l2 -> Forall2 R l2 l3 -> Forall2 R l1 l3.
Proof.
  intros Ht H12. revert l3.
  induction H12 as [|a b l1 l2 Hab H12 IH]; intros l3 H23;
    inversion H23; subst; constructor; eauto.
Qed.

Lemma Forall2_setNth {A : Type} (R : A -> A -> Prop) (l : list A) (n : nat)
      (a v : A) :
  (forall b, R b b) -> nth_error l n = Some a -> R a v ->
  Forall2 R l (setNth l n v).
Proof.
  intros Hr. revert n.
  induction l as [|b l IH]; intros [|n] Hn Hv; simpl in *; try discriminate.
  - injection Hn as ->. constructor; [assumption | now apply Forall2_refl].
  - constructor; [apply Hr | now apply IH].
Qed.

Lemma Forall2_nth_left {A : Type} (R : A -> A -> Prop) (l l' : list A) :
  Forall2 R l l' ->
  forall k a, nth_error l k = Some a -> exists b, nth_error l' k = Some b /\ R a b.
Proof.
  induction 1 as [|a0 b0 l l' H0 H IH]; intros [|k] a Hk; simpl in *;
    try discriminate.
  - injection Hk as <-. eauto.
  - now apply IH.
Qed.

Lemma Forall2_nth_right {A : Type} (R : A -> A -> Prop) (l l' : list A) :
  Forall2 R l l' ->
  forall k b, nth_error l' k = Some b -> exists a, nth_error l k = Some a /\ R a b.
Proof.
  induction 1 as [|a0 b0 l l' H0 H IH]; intros [|k] b Hk; simpl in *;
    try discriminate.
  - injection Hk as <-. eauto.
  - now apply IH.
Qed.

Lemma Forall2_map_eq {A B : Type} (R : A -> A -> Prop) (f : A -> B) (l l' : list A) :
  (forall a b, R a b -> f b = f a) -> Forall2 R l l' -> map f l' = map f l.
Proof.
  intros Hf. induction 1; simpl; [reflexivity |]. f_equal; auto.
Qed.

Lemma sameBody_resolveOverlap st o1 o2 toRemove w :
  let '(o1', o2', _, _) := resolveOverlap st o1 o2 toRemove w in
  (sameBody o1 o1' \/ (id o1' = id o1 /\ isGrabbed o1' = isGrabbed o1
                       /\ grabbedByHandIndex o1' = grabbedByHandIndex o1
                       /\ createdAt o1' = createdAt o1))
  /\ id o1' = id o1 /\ id o2' = id o2
  /\ isGrabbed o1' = isGrabbed o1 /\ isGrabbed o2' = isGrabbed o2
  /\ createdAt o1' = createdAt o1 /\ createdAt o2' = createdAt o2
  /\ grabbedByHandIndex o1' = grabbedByHandIndex o1
  /\ grabbedByHandIndex o2' = grabbedByHandIndex o2.
Proof.
  unfold resolveOverlap. destruct (canFuse st o1 o2 w) as [[|] w'].
  - unfold fuse. destruct (geb _ _); repeat split; right; repeat split.
  - unfold bounceApart. cbn. repeat split. left. repeat split.
Qed.

Lemma sameIdentity_refl o : sameIdentity o o.
Proof. repeat split. Qed.

Lemma sameIdentity_trans o1 o2 o3 :
  sameIdentity o1 o2 -> sameIdentity o2 o3 -> sameIdentity o1 o3.
Proof.
  unfold sameIdentity. intros [A1 [A2 [A3 A4]]] [B1 [B2 [B3 B4]]].
  repeat split; congruence.
Qed.

Lemma sameIdentity_sym o o' : sameIdentity o o' -> sameIdentity o' o.
Proof.
  unfold sameIdentity. intros [A1 [A2 [A3 A4]]]. repeat split; congruence.
Qed.

Lemma sameBody_identity o o' : sameBody o o' -> sameIdentity o o'.
Proof.
  unfold sameBody, sameIdentity. intros [A1 [A2 [A3 [A4 [A5 _]]]]]. auto.
Qed.

Lemma collidePair_identity st i j s :
  Forall2 sameIdentity (fst (fst s)) (fst (fst (collidePair st i j s))).
Proof.
  destruct s as [[objects toRemove] w]. unfold collidePair.
  assert (Hrefl : Forall2 sameIdentity objects objects)
    by (apply Forall2_refl, sameIdentity_refl).
  destruct (nth_error objects i) as [o1|] eqn:E1; [| exact Hrefl].
  destruct (nth_error objects j) as [o2|] eqn:E2; [| exact Hrefl].
  destruct (_ || _); [exact Hrefl |].
  destruct (_ || _); [exact Hrefl |].
  destruct (overlapping o1 o2); [| exact Hrefl].
  pose proof (sameBody_resolveOverlap st o1 o2 toRemove w) as H.
  destruct (resolveOverlap st o1 o2 toRemove w) as [[[o1' o2'] rm'] w'].
  destruct H as [_ [I1 [I2 [G1 [G2 [C1 [C2 [X1 X2]]]]]]]]. simpl.
  assert (S1 : sameIdentity o1 o1') by (repeat split; assumption).
  assert (S2 : sameIdentity o2 o2') by (repeat split; assumption).
  apply (Forall2_transitive sameIdentity _ (setNth objects i o1'));
    [apply sameIdentity_trans | |].
  - now apply (Forall2_setNth sameIdentity objects i o1 o1');
      [apply sameIdentity_refl | |].
  - destruct (Nat.eq_dec i j) as [->|Hij].
    + assert (o1 = o2) by congruence. subst o2.
      apply (Forall2_setNth sameIdentity _ j o1' o2');
        [apply sameIdentity_refl | |].
      * apply nth_error_setNth_eq. apply nth_error_Some. congruence.
      * eapply sameIdentity_trans; [apply sameIdentity_sym; exact S1 | exact S2].
    + apply (Forall2_setNth sameIdentity _ j o2 o2');
        [apply sameIdentity_refl | | exact S2].
      rewrite nth_error_setNth_ne by assumption. exact E2.
Qed.

Lemma collisions_identity st s :
  Forall2 sameIdentity (fst (fst s)) (fst (fst (collisions st s))).
Proof.
  unfold collisions. destruct (enableCollisions st);
    [| apply Forall2_refl, sameIdentity_refl].
  unfold collisionPass.
  apply (fold_left_invariant
           (fun s' => Forall2 sameIdentity (fst (fst s)) (fst (fst s'))));
    [apply Forall2_refl, sameIdentity_refl |].
  intros s1 i H1. unfold collideRow.
  apply (fold_left_invariant
           (fun s' => Forall2 sameIdentity (fst (fst s)) (fst (fst s'))));
    [exact H1 |].
  intros s2 j H2.
  eapply Forall2_transitive;
    [apply sameIdentity_trans | exact H2 | apply collidePair_identity].
Qed.

(** The pairwise pass reads and writes non-grabbed objects only. *)
Lemma collidePair_grabbed st i j s (k : nat) (o : PhysicsObject) :
  nth_error (fst (fst s)) k = Some o -> isGrabbed o = true ->
  nth_error (fst (fst (collidePair st i j s))) k = Some o.
Proof.
  destruct s as [[objects toRemove] w]. simpl. intros Hk Hg.
  unfold collidePair.
  destruct (nth_error objects i) as [o1|] eqn:E1; [| exact Hk].
  destruct (nth_error objects j) as [o2|] eqn:E2; [| exact Hk].
  destruct (isGrabbed o1 || isGrabbed o2) eqn:G; [exact Hk |].
  apply orb_false_iff in G as [G1 G2].
  destruct (_ || _); [exact Hk |].
  destruct (overlapping o1 o2); [| exact Hk].
  destruct (resolveOverlap st o1 o2 toRemove w) as [[[o1' o2'] rm'] w'].
  simpl.
  assert (k <> i) by (intros ->; congruence).
  assert (k <> j) by (intros ->; congruence).
  rewrite !nth_error_setNth_ne by auto. exact Hk.
Qed.

Lemma collisions_grabbed st s (k : nat) (o : PhysicsObject) :
  nth_error (fst (fst s)) k = Some o -> isGrabbed o = true ->
  nth_error (fst (fst (collisions st s))) k = Some o.
Proof.
  intros Hk Hg. unfold collisions. destruct (enableCollisions st); [| exact Hk].
  unfold collisionPass.
  apply (fold_left_invariant
           (fun s' => nth_error (fst (fst s')) k = Some o)); [exact Hk |].
  intros s1 i H1. unfold collideRow.
  apply (fold_left_invariant
           (fun s' => nth_error (fst (fst s')) k = Some o)); [exact H1 |].
  intros s2 j H2. now apply collidePair_grabbed.
Qed.

Lemma has_incl (s t : list R) (i : R) :
  incl s t -> has t i = false -> has s i = false.
Proof.
  intros Hst Ht. apply has_false. intros Hin. apply has_false in Ht.
  apply Ht, Hst, Hin.
Qed.

Lemma moveEatPass_moved (inp : FrameInput) (m : Mouth)
      (objects : list PhysicsObject) :
  forall (toRemove : list R) (w : Browser),
    Forall2 (moved inp (snd (fst (moveEatPass inp m objects toRemove w))))
            objects (fst (fst (moveEatPass inp m objects toRemove w))).
Proof.
  induction objects as [|obj rest IH]; intros toRemove w; simpl;
    [constructor |].
  pose proof (moveEatObj_eats inp m obj toRemove w) as [_ [I1 _]].
  assert (Hobj : fst (fst (moveEatObj inp m obj toRemove w))
                 = if has toRemove (id obj) then obj
                   else if isGrabbed obj then obj else integrate inp obj).
  { unfold moveEatObj. destruct (has toRemove (id obj)); [reflexivity |].
    destruct (eat _ _ _ _). reflexivity. }
  destruct (moveEatObj inp m obj toRemove w) as [[obj' toRemove1] w1].
  simpl in I1, Hobj.
  pose proof (IH toRemove1 w1) as Hrest.
  pose proof (moveEatPass_eats inp m rest toRemove1 w1) as [_ [I2 _]].
  destruct (moveEatPass inp m rest toRemove1 w1) as [[rest' toRemove2] w2].
  simpl in Hrest, I2. simpl. constructor; [| exact Hrest].
  subst obj'. unfold moved.
  destruct (has toRemove (id obj)) eqn:Hhas.
  - split; [now left |]. split; [reflexivity |].
    intros _ Hfin. exfalso.
    apply (has_incl toRemove toRemove2) in Hfin;
      [congruence | eapply incl_tran; eassumption].
  - destruct (isGrabbed obj) eqn:G.
    + split; [now left |]. split; [reflexivity | discriminate].
    + split; [now right |]. split; [discriminate | reflexivity].
Qed.

Lemma moveEatPass_identity inp m objects toRemove w :
  Forall2 sameIdentity objects
          (fst (fst (moveEatPass inp m objects toRemove w))).
Proof.
  pose proof (moveEatPass_moved inp m objects toRemove w) as H.
  induction H as [|o o' l l' [[->| ->] _] H IH]; constructor; auto.
  - apply sameIdentity_refl.
  - apply sameBody_identity, sameBody_integrate.
Qed.

Lemma createdAt_resolveObj st prev hps dg o :
  createdAt (resolveObj st prev hps dg o) = createdAt o.
Proof.
  unfold resolveObj.
  assert (Hc : forall o', createdAt (cleanupObj dg o') = createdAt o').
  { intros o'. unfold cleanupObj. destruct (isStale dg o'); reflexivity. }
  assert (Hs : forall hps' i o',
             createdAt (singleHandAll st prev dg hps' i o') = createdAt o').
  { unfold singleHandAll. induction hps' as [|hand hps' IH]; intros i o';
      simpl; [reflexivity |].
    rewrite IH. unfold singleHandObj. destruct (prev i); [| reflexivity].
    destruct (singleHandAction dg hand i o'); reflexivity. }
  rewrite Hc, Hs. unfold grabObj.
  destruct (doubleGrabHands hps) as [[h0 h1]|]; [| reflexivity].
  unfold doubleGrabObj. destruct (qualifies h0 h1 o); [| reflexivity].
  unfold forceDoubleGrab, resize.
  destruct (prev 0%nat), (prev 1%nat); reflexivity.
Qed.

(** The objects of a frame, from the resolver to the end of the physics
    step, index by index. *)
Lemma physics_identity (inp : FrameInput) (r : Refs) :
  Forall2 sameIdentity (frameObjects (resolveInteraction inp r))
          (afterMovement (loop inp r)).
Proof.
  destruct (loop_stages inp r) as [w1 [w2 [Hcol [Hmove _]]]].
  pose proof (collisions_identity (settings inp)
                (frameObjects (resolveInteraction inp r), [],
                 browser (frameRefs (resolveInteraction inp r)))) as H1.
  rewrite Hcol in H1. simpl in H1.
  pose proof (moveEatPass_identity inp (frameMouth (resolveInteraction inp r))
                (afterCollisions (loop inp r)) (fusedAway (loop inp r)) w1) as H2.
  rewrite Hmove in H2. simpl in H2.
  eapply Forall2_transitive; [apply sameIdentity_trans | exact H1 | exact H2].
Qed.

(** X1. Every object of the frame that is free and not scheduled for removal
    when the frame ends, and whose diameter fits in the canvas, lies
    entirely inside the canvas at the end of the frame. *)
Theorem free_survivors_are_inside_canvas
    (inp : FrameInput) (r : Refs) (k : nat) (o : PhysicsObject) :
  nth_error (afterMovement (loop inp r)) k = Some o ->
  isGrabbed o = false ->
  ~ In (id o) (objectsToRemove (loop inp r)) ->
  2 * radius o <= canvasWidth inp ->
  2 * radius o <= canvasHeight inp ->
  radius o <= x o <= canvasWidth inp - radius o
  /\ radius o <= y o <= canvasHeight inp - radius o.
Proof.
  intros Hk Hg Hout Hw Hh.
  destruct (loop_stages inp r) as [w1 [w2 [_ [Hmove _]]]].
  pose proof (moveEatPass_moved inp (frameMouth (resolveInteraction inp r))
                (afterCollisions (loop inp r)) (fusedAway (loop inp r)) w1) as H.
  rewrite Hmove in H. simpl in H.
  destruct (Forall2_nth_right _ _ _ H k o Hk) as [o0 [_ [Hor [_ Hint]]]].
  assert (Hsame : sameBody o0 o).
  { destruct Hor as [->| ->];
      [apply sameBody_refl | apply sameBody_integrate]. }
  destruct Hsame as [Hid [Hr [Hg0 _]]].
  assert (E : o = integrate inp o0).
  { apply Hint; [congruence |]. rewrite <- Hid. now apply has_false. }
  subst o. destruct (sameBody_integrate inp o0) as [_ [Hr' _]].
  rewrite Hr' in *. now apply integrate_stays_inside_canvas.
Qed.

Lemma physics_grabbed (inp : FrameInput) (r : Refs) (k : nat) (o : PhysicsObject) :
  nth_error (frameObjects (resolveInteraction inp r)) k = Some o ->
  isGrabbed o = true ->
  nth_error (afterCollisions (loop inp r)) k = Some o
  /\ nth_error (afterMovement (loop inp r)) k = Some o.
Proof.
  intros Hk Hg.
  destruct (loop_stages inp r) as [w1 [w2 [Hcol [Hmove _]]]].
  pose proof (collisions_grabbed (settings inp)
                (frameObjects (resolveInteraction inp r), [],
                 browser (frameRefs (resolveInteraction inp r))) k o Hk Hg) as H1.
  rewrite Hcol in H1. simpl in H1. split; [exact H1 |].
  pose proof (moveEatPass_moved inp (frameMouth (resolveInteraction inp r))
                (afterCollisions (loop inp r)) (fusedAway (loop inp r)) w1) as H.
  rewrite Hmove in H. simpl in H.
  destruct (Forall2_nth_left _ _ _ H k o H1) as [o' [Hk' [_ [Hsame _]]]].
  now rewrite Hk', (Hsame Hg).
Qed.

(** X2. The physics step never touches a grabbed object: an object that the
    interaction resolver leaves grabbed is, field for field, the same after
    the pairwise pass and at the end of the frame (not pushed by collisions,
    not fused, not moved, not bounced off a wall). *)
Theorem physics_leaves_grabbed_objects_alone
    (inp : FrameInput) (r : Refs) (k : nat) (o : PhysicsObject) :
  nth_error (frameObjects (resolveInteraction inp r)) k = Some o ->
  isGrabbed o = true ->
  nth_error (afterCollisions (loop inp r)) k = Some o
  /\ nth_error (afterMovement (loop inp r)) k = Some o.
Proof.
  intros Hk Hg.
  destruct (loop_stages inp r) as [w1 [w2 [Hcol [Hmove _]]]].
  pose proof (collisions_grabbed (settings inp)
                (frameObjects (resolveInteraction inp r), [],
                 browser (frameRefs (resolveInteraction inp r))) k o Hk Hg) as H1.
  rewrite Hcol in H1. simpl in H1. split; [exact H1 |].
  pose proof (moveEatPass_moved inp (frameMouth (resolveInteraction inp r))
                (afterCollisions (loop inp r)) (fusedAway (loop inp r)) w1) as H.
  rewrite Hmove in H. simpl in H.
  destruct (Forall2_nth_left _ _ _ H k o H1) as [o' [Hk' [_ [Hsame _]]]].
  now rewrite Hk', (Hsame Hg).
Qed.

Lemma frame_ids (inp : FrameInput) (r : Refs) :
  map id (afterMovement (loop inp r)) = map id (objectsRef r).
Proof.
  pose proof (physics_identity inp r) as Hphys.
  destruct (resolveInteraction_shape inp r) as [new [_ [_ [Hobjs _]]]].
  rewrite (Forall2_map_eq sameIdentity id _ _ (fun a b H => proj1 H) Hphys).
  rewrite Hobjs, map_map. apply map_ext. intros. apply id_resolveObj.
Qed.

(** X3. Ids, creation times and ownership are stable through a frame: index
    by index, the objects at the end of the physics step carry the ids and
    creation times of the store at the start of the frame and the ownership
    that the interaction resolver decided; every object of the store at the
    end of the frame is one of these or was spawned in this frame. *)
Theorem frame_keeps_ids_and_ages (inp : FrameInput) (r : Refs) :
  let fr := loop inp r in
  map id (afterMovement fr) = map id (objectsRef r)
  /\ map createdAt (afterMovement fr) = map createdAt (objectsRef r)
  /\ map grabState (afterMovement fr)
     = map grabState (frameObjects (resolveInteraction inp r))
  /\ (forall o, In o (objectsRef (refsAfter fr)) ->
        In o (afterMovement fr) \/ In o (spawned fr)).
Proof.
  intros fr. pose proof (physics_identity inp r) as Hphys. fold fr in Hphys.
  destruct (resolveInteraction_shape inp r) as [new [_ [_ [Hobjs _]]]].
  split; [| split; [| split]].
  - apply frame_ids.
  - rewrite (Forall2_map_eq sameIdentity createdAt _ _
               (fun a b H => proj2 (proj2 (proj2 H))) Hphys).
    rewrite Hobjs, map_map. apply map_ext. intros. apply createdAt_resolveObj.
  - apply (Forall2_map_eq sameIdentity grabState _ _); [| exact Hphys].
    intros a b [_ [G [I _]]]. unfold grabState. now rewrite G, I.
  - intros o Ho.
    destruct (loop_stages inp r) as [w1 [w2 [_ [_ [Hstore _]]]]].
    fold fr in Hstore. rewrite Hstore, applyRemovals_filter in Ho.
    apply filter_In in Ho as [Ho _]. now apply in_app_or.
Qed.

Lemma moveEatPass_mouth_closed (inp : FrameInput) (m : Mouth)
      (objects : list PhysicsObject) :
  isMouthOpen m = false ->
  forall toRemove w,
    snd (fst (moveEatPass inp m objects toRemove w)) = toRemove.
Proof.
  intros Hclosed.
  induction objects as [|obj rest IH]; intros toRemove w; simpl; [reflexivity |].
  assert (H1 : snd (fst (moveEatObj inp m obj toRemove w)) = toRemove).
  { unfold moveEatObj. destruct (has toRemove (id obj)); [reflexivity |].
    unfold eat. rewrite Hclosed. reflexivity. }
  destruct (moveEatObj inp m obj toRemove w) as [[obj' toRemove1] w1].
  simpl in H1. subst toRemove1.
  pose proof (IH toRemove w1) as H2.
  destruct (moveEatPass inp m rest toRemove w1) as [[rest' toRemove2] w2].
  exact H2.
Qed.

(** X4. With the mouth closed (or no face detected) and fusion switched off,
    a frame removes nothing: the removal set is empty and the store at the
    end of the frame is the frame's objects, in their order, followed by the
    objects spawned in the frame. *)
Theorem nothing_removed_with_mouth_closed_and_fusion_off
    (inp : FrameInput) (r : Refs) :
  isMouthOpen (mouthLogic inp) = false ->
  fusionChance (settings inp) = 0 ->
  let fr := loop inp r in
  objectsToRemove fr = []
  /\ objectsRef (refsAfter fr) = afterMovement fr ++ spawned fr
  /\ map id (objectsRef (refsAfter fr))
     = map id (objectsRef r) ++ map id (spawned fr).
Proof.
  intros Hclosed Hoff fr.
  destruct (loop_stages inp r) as [w1 [w2 [Hcol [Hmove [Hstore _]]]]].
  fold fr in Hcol, Hmove, Hstore.
  destruct (resolveInteraction_shape inp r) as [_ [_ [_ [_ [_ [_ [Hm _]]]]]]].
  assert (Hfused : fusedAway fr = []).
  { pose proof (collisionPass_fusion_off (settings inp)
                  (frameObjects (resolveInteraction inp r), [],
                   browser (frameRefs (resolveInteraction inp r))) Hoff)
      as [H _].
    unfold collisions in Hcol.
    destruct (enableCollisions (settings inp)).
    - rewrite Hcol in H. exact H.
    - now injection Hcol as _ <- _. }
  assert (Hrm : objectsToRemove fr = []).
  { pose proof (moveEatPass_mouth_closed inp
                  (frameMouth (resolveInteraction inp r))
                  (afterCollisions fr)) as H.
    rewrite Hm in H. specialize (H Hclosed (fusedAway fr) w1).
    rewrite Hm in Hmove. rewrite Hmove in H. simpl in H. congruence. }
  split; [exact Hrm |].
  assert (Hs : objectsRef (refsAfter fr) = afterMovement fr ++ spawned fr).
  { rewrite Hstore, Hrm. reflexivity. }
  split; [exact Hs |].
  rewrite Hs, map_app.
  unfold fr. now rewrite frame_ids.
Qed.

(* ================================================================= *)
(** ** Frames with missing hands *)

Lemma skipn_all_self {A : Type} (l : list A) : skipn (length l) l = [].
Proof. induction l; simpl; auto. Qed.

Lemma cleanupObj_empty (o : PhysicsObject) :
  grabState (cleanupObj [] o)
  = match grabState o with SharedGrab => Ungrabbed | s => s end
  /\ x (cleanupObj [] o) = x o /\ y (cleanupObj [] o) = y o
  /\ vx (cleanupObj [] o) = vx o /\ vy (cleanupObj [] o) = vy o
  /\ radius (cleanupObj [] o) = radius o.
Proof.
  unfold cleanupObj, isStale, grabState. simpl.
  destruct (grabbedByHandIndex o) eqn:I; destruct (isGrabbed o) eqn:G;
    simpl; rewrite ?I, ?G; repeat split.
Qed.

(** X5. A frame in which no hand is detected (also a failed detection):
    nothing is spawned, the hand history, the pinch flags and the shot timer
    are left as they were, no object is moved by the resolver; an object held
    by one hand stays held by it, and an object in the shared state is
    released. *)
Theorem frame_without_hands (inp : FrameInput) (r : Refs) :
  handResult inp = [] ->
  let res := resolveInteraction inp r in
  objectsRef (frameRefs res) = frameObjects res
  /\ length (frameObjects res) = length (objectsRef r)
  /\ currentDoubleGrabs res = []
  /\ prevHandPosRef (frameRefs res) = prevHandPosRef r
  /\ wasPinchingRef (frameRefs res) = wasPinchingRef r
  /\ lastShotTimeRef (frameRefs res) = lastShotTimeRef r
  /\ forall k o, nth_error (objectsRef r) k = Some o ->
       exists o', nth_error (frameObjects res) k = Some o'
         /\ grabState o'
            = match grabState o with SharedGrab => Ungrabbed | s => s end
         /\ x o' = x o /\ y o' = y o /\ vx o' = vx o /\ vy o' = vy o
         /\ radius o' = radius o.
Proof.
  intros Hnone res. subst res.
  unfold resolveInteraction, handPrep, doubleGrabPhase, doubleGrabHands,
    singleHandPhase, recordPrev, spawnedIn.
  rewrite Hnone. cbn.
  rewrite skipn_all_self, app_nil_r, length_map.
  repeat (split; [reflexivity |]).
  intros k o Hk. exists (cleanupObj [] o).
  split; [rewrite nth_error_map, Hk; reflexivity |].
  apply cleanupObj_empty.
Qed.

Lemma frame_without_hands_witness :
  let inp := Scene.frame [] None INITIAL_SETTINGS in
  let held := mkObject 1 50 50 3 4 20 "#f43f5e" true (Some 0%nat) 0 0 in
  let shared := mkObject 2 120 50 0 0 20 "#f43f5e" true None 0 0 in
  let r := Scene.freshRefs [held; shared] 5000 in
  map grabState (objectsRef (frameRefs (resolveInteraction inp r)))
  = [GrabbedBy 0; Ungrabbed].
Proof.
  intros inp held shared r.
  destruct (frame_without_hands inp r eq_refl)
    as [Hstore [_ [_ [_ [_ [_ Hobj]]]]]].
  rewrite Hstore.
  destruct (Hobj 0%nat held eq_refl) as [a [Ha [Sa _]]].
  destruct (Hobj 1%nat shared eq_refl) as [b [Hb [Sb _]]].
  destruct (frameObjects (resolveInteraction inp r)) as [|a' [|b' [|c l]]] eqn:E;
    try discriminate.
  simpl in Ha, Hb. injection Ha as ->. injection Hb as ->.
  simpl. now rewrite Sa, Sb.
Defined.

(** An object held by a hand that is not among the detected hands is not
    touched by the resolver. *)
Lemma resolveObj_absent_hand st prev hps dg h o :
  (length hps <= h)%nat -> (h < 2)%nat ->
  isGrabbed o = true -> grabbedByHandIndex o = Some h ->
  resolveObj st prev hps dg o = o.
Proof.
  intros Hlen Hh G I. unfold resolveObj, singleHandAll, grabObj.
  destruct hps as [|a [|b hps]]; simpl in Hlen.
  - simpl. now apply cleanupObj_owned with (h := h).
  - assert (h = 1%nat) by lia. subst h.
    unfold doubleGrabHands. simpl.
    rewrite (singleHandObj_foreign st prev dg a 0 1 o) by (auto; lia).
    now apply cleanupObj_owned with (h := 1%nat).
  - lia.
Qed.

(** X6. A hold is sticky: when the hand that holds an object is not detected
    in a frame (no hand at all, or only hand 0 while hand 1 holds), the
    object is, field for field, the same after the resolver and at the end
    of the frame: still held, not moved, not subject to physics. *)
Theorem hold_survives_absent_hand
    (inp : FrameInput) (r : Refs) (h k : nat) (o : PhysicsObject) :
  (length (handResult inp) <= h)%nat -> (h < 2)%nat ->
  nth_error (objectsRef r) k = Some o ->
  grabState o = GrabbedBy h ->
  nth_error (frameObjects (resolveInteraction inp r)) k = Some o
  /\ nth_error (afterMovement (loop inp r)) k = Some o.
Proof.
  intros Hlen Hh Hk Hheld.
  assert (G : isGrabbed o = true /\ grabbedByHandIndex o = Some h).
  { unfold grabState in Hheld. destruct (isGrabbed o); [| discriminate].
    destruct (grabbedByHandIndex o); [| discriminate].
    injection Hheld as ->. now split. }
  destruct G as [G I].
  destruct (resolveInteraction_shape inp r) as [new [Hl [_ [Hobjs _]]]].
  assert (Hres : nth_error (frameObjects (resolveInteraction inp r)) k = Some o).
  { rewrite Hobjs, nth_error_map, Hk. simpl. f_equal.
    apply resolveObj_absent_hand with (h := h); try assumption. lia. }
  split; [exact Hres |].
  now apply (physics_grabbed inp r k o Hres).
Qed.

Lemma hold_survives_absent_hand_witness :
  let inp := Scene.frame [Scene.fist 0.5 0.5] None INITIAL_SETTINGS in
  let held := mkObject 1 100 100 3 4 20 "#f43f5e" true (Some 1%nat) 0 0 in
  let r := Scene.freshRefs [held] 5000 in
  nth_error (afterMovement (loop inp r)) 0 = Some held.
Proof.
  intros inp held r.
  apply (hold_survives_absent_hand inp r 1 0 held);
    [simpl; lia | lia | reflexivity | reflexivity].
Defined.

(* ================================================================= *)
(** ** Where spawned objects come from *)

Lemma magicianSpawn_origin (m : Mouth) (hp : HandPos) (i : nat) (r : Refs) :
  exists new,
    objectsRef (fst (magicianSpawn m hp i r)) = objectsRef r ++ new
    /\ wasPinchingRef (fst (magicianSpawn m hp i r)) = wasPinchingRef r
    /\ Forall (pulledBy m (wasPinchingRef r) i hp) new.
Proof.
  unfold magicianSpawn.
  destruct (isMouthOpen m && isPinching hp && negb (wasPinchingRef r i)) eqn:C.
  - destruct (ltb _ _) eqn:D.
    + apply andb_true_iff in C as [C C3]. apply andb_true_iff in C as [C1 C2].
      apply negb_true_iff in C3. apply ltb_true_iff in D.
      cbn. eexists [_]. repeat split. constructor; [| constructor].
      repeat split; first [assumption | lra].
    + exists []. rewrite app_nil_r. repeat split. constructor.
  - exists []. rewrite app_nil_r. repeat split. constructor.
Qed.

Lemma gunShot_origin (hp : HandPos) (r : Refs) :
  exists new,
    objectsRef (fst (gunShot hp r)) = objectsRef r ++ new
    /\ wasPinchingRef (fst (gunShot hp r)) = wasPinchingRef r
    /\ Forall (shotBy hp) new.
Proof.
  unfold gunShot.
  destruct (isGun hp) eqn:G;
    [| exists []; rewrite app_nil_r; repeat split; constructor].
  destruct (ltb (velocityY hp) (-15)) eqn:V;
    [| exists []; rewrite app_nil_r; repeat split; constructor].
  apply ltb_true_iff in V. cbn. destruct (gtb _ 300).
  - cbn. eexists [_]. repeat split. constructor; [| constructor].
    repeat split; assumption.
  - exists []. cbn. rewrite app_nil_r. repeat split. constructor.
Qed.

Lemma spawnedFrom_more m was hps hp o :
  spawnedFrom m was hps o -> spawnedFrom m was (hps ++ [hp]) o.
Proof.
  intros [j [hp' [Hj H]]]. exists j, hp'. split; [| exact H].
  rewrite nth_error_app1; [exact Hj |]. apply nth_error_Some. congruence.
Qed.

Lemma handPrepStep_traced (inp : FrameInput) (m : Mouth) (r0 : Refs)
      (lm : HandLandmarks) (k : nat) (s : PrepState) :
  traced m r0 k s -> traced m r0 (S k) (handPrepStep inp m lm k s).
Proof.
  destruct s as [[r hps] log]. intros [Hn [[new [Ho Hnew]] [Hrest Hdone]]].
  unfold handPrepStep.
  set (hp := classifyHand inp (prevHandPosRef r) k lm).
  destruct (magicianSpawn_origin m hp k r) as [new1 [A1 [A2 A3]]].
  destruct (magicianSpawn m hp k r) as [r1 ev1]. simpl in A1, A2.
  destruct (gunShot_origin hp r1) as [new2 [B1 [B2 B3]]].
  destruct (gunShot hp r1) as [r2 ev2]. simpl in B1, B2.
  assert (Hk : nth_error (hps ++ [hp]) k = Some hp).
  { rewrite nth_error_app2 by lia. rewrite Hn, Nat.sub_diag. reflexivity. }
  assert (Hwas : wasPinchingRef r k = wasPinchingRef r0 k)
    by (apply Hrest; lia).
  simpl. split; [rewrite length_app; simpl; lia |]. split; [| split].
  - exists (new ++ new1 ++ new2).
    split; [rewrite B1, A1, Ho, !app_assoc; reflexivity |].
    apply Forall_app; split;
      [eapply Forall_impl; [| exact Hnew]; intros o; apply spawnedFrom_more |].
    apply Forall_app; split.
    + eapply Forall_impl; [| exact A3]. intros o Hp. exists k, hp.
      split; [exact Hk |]. left.
      destruct Hp as [P1 [P2 [P3 P4]]]. rewrite Hwas in P3.
      repeat split; try assumption; apply P4.
    + eapply Forall_impl; [| exact B3]. intros o Hs. exists k, hp.
      split; [exact Hk | now right].
  - intros j Hj. unfold setKey.
    destruct (Nat.eqb_spec j k) as [->|Hjk]; [lia |].
    rewrite B2, A2. apply Hrest. lia.
  - intros j hp' Hj. unfold setKey.
    destruct (Nat.eqb_spec j k) as [->|Hjk].
    + rewrite Hk in Hj. now injection Hj as <-.
    + rewrite B2, A2. apply Hdone.
      assert (j < length (hps ++ [hp]))%nat
        by (apply nth_error_Some; congruence).
      rewrite length_app in H. simpl in H.
      rewrite nth_error_app1 in Hj by lia. exact Hj.
Qed.

Lemma handPrep_traced (inp : FrameInput) (m : Mouth) (r : Refs) :
  traced m r (length (handResult inp)) (handPrep inp m r).
Proof.
  unfold handPrep.
  apply (forEachIndexed_invariant (traced m r) (handPrepStep inp m)
           (handResult inp) 0 (r, [], [])).
  - split; [reflexivity |]. split; [| split].
    + exists []. rewrite app_nil_r. split; [reflexivity | constructor].
    + reflexivity.
    + intros [|j] hp H; discriminate.
  - intros lm k s _ _. apply handPrepStep_traced.
Qed.

(** The fields of the references that the physics step passes through. *)
Lemma loop_refs (inp : FrameInput) (r : Refs) :
  prevHandPosRef (refsAfter (loop inp r))
  = prevHandPosRef (frameRefs (resolveInteraction inp r))
  /\ wasPinchingRef (refsAfter (loop inp r))
     = wasPinchingRef (frameRefs (resolveInteraction inp r))
  /\ lastShotTimeRef (refsAfter (loop inp r))
     = lastShotTimeRef (frameRefs (resolveInteraction inp r)).
Proof.
  unfold loop. cbv zeta.
  destruct (collisions _ _) as [[objects1 toRemove1] w1].
  destruct (moveEatPass _ _ _ _ _) as [[objects2 toRemove2] w2].
  simpl. auto.
Qed.

(** The preparation loop seen from the frame. *)
Lemma resolveInteraction_traced (inp : FrameInput) (r : Refs) :
  let res := resolveInteraction inp r in
  Forall (spawnedFrom (mouthLogic inp) (wasPinchingRef r) (handPositions res))
         (spawnedIn (frameObjects res) (objectsRef (frameRefs res)))
  /\ (forall j, (length (handResult inp) <= j)%nat ->
                wasPinchingRef (frameRefs res) j = wasPinchingRef r j)
  /\ (forall j hp, nth_error (handPositions res) j = Some hp ->
                   wasPinchingRef (frameRefs res) j = isPinching hp).
Proof.
  unfold resolveInteraction. cbn [now].
  set (r0 := withBrowser r _).
  pose proof (handPrep_traced inp (mouthLogic inp) r0) as Ht.
  destruct (handPrep inp (mouthLogic inp) r0) as [[r1 hps] log1].
  destruct Ht as [Hn [[new [Ho Hnew]] [Hrest Hdone]]].
  change (objectsRef r0) with (objectsRef r) in Ho.
  change (wasPinchingRef r0) with (wasPinchingRef r) in Hnew, Hrest.
  destruct (doubleGrabPhase _ _ _) as [dg objects1] eqn:Edg.
  pose proof (doubleGrabPhase_objects (prevHandPosRef r1) hps (objectsRef r))
    as Hd. rewrite Edg in Hd. simpl in Hd.
  pose proof (singleHandPhase_objects (settings inp) (prevHandPosRef r1) dg hps
                0 objects1 []) as Hs.
  unfold singleHandPhase.
  destruct (forEachIndexed _ hps 0%nat (objects1, [])) as [objects2 log3].
  simpl in Hs. simpl.
  split; [| split; assumption].
  unfold spawnedIn. rewrite skipn_length_app, Ho, skipn_length_app.
  exact Hnew.
Qed.

Lemma spawned_origin_aux (inp : FrameInput) (r : Refs) :
  Forall (spawnedFrom (mouthLogic inp) (wasPinchingRef r)
                      (handPositions (resolveInteraction inp r)))
         (spawned (loop inp r)).
Proof.
  destruct (loop_stages inp r) as [w1 [w2 [_ [_ [_ [_ Hsp]]]]]].
  rewrite Hsp. apply resolveInteraction_traced.
Qed.

(** X7. Every object that a frame adds to the store is either a projectile
    of radius 10 at the index fingertip of a hand in gun pose that flicked
    upwards, with velocity (0,-25) and no owner, or an object of radius 45 at
    rest on the pinch point of a hand that just started to pinch near the
    open mouth, owned by that hand.  Nothing else is ever spawned. *)
Theorem spawned_objects_have_an_origin (inp : FrameInput) (r : Refs) :
  Forall (spawnedFrom (mouthLogic inp) (wasPinchingRef r)
                      (handPositions (resolveInteraction inp r)))
         (spawned (loop inp r)).
Proof.
  destruct (loop_stages inp r) as [w1 [w2 [_ [_ [_ [_ Hsp]]]]]].
  rewrite Hsp. apply resolveInteraction_traced.
Qed.

(** The entries of [handPositions] are the classified landmarks, hand by
    hand, against the hand history of the start of the frame. *)
Lemma handPrepStep_positions inp m lm k r hps log :
  prevHandPosRef (fst (fst (handPrepStep inp m lm k (r, hps, log))))
  = prevHandPosRef r
  /\ snd (fst (handPrepStep inp m lm k (r, hps, log)))
     = hps ++ [classifyHand inp (prevHandPosRef r) k lm].
Proof.
  unfold handPrepStep.
  set (hp := classifyHand inp (prevHandPosRef r) k lm).
  destruct (magicianSpawn_spec m hp k r) as [new1 [_ [_ [A _]]]].
  destruct (magicianSpawn m hp k r) as [r1 ev1]. simpl in A.
  destruct (gunShot_spec hp r1 0) as [new2 [_ [_ [B _]]]].
  destruct (gunShot hp r1) as [r2 ev2]. simpl in B. simpl.
  split; [congruence | reflexivity].
Qed.

Lemma forEach_positions inp m (hands : list HandLandmarks) :
  forall i r hps log,
    length hps = i ->
    forall j hp,
      nth_error (snd (fst (forEachIndexed (handPrepStep inp m) hands i
                                          (r, hps, log)))) j = Some hp ->
      nth_error hps j = Some hp
      \/ exists lm, (i <= j)%nat /\ nth_error hands (j - i) = Some lm
                    /\ hp = classifyHand inp (prevHandPosRef r) j lm.
Proof.
  induction hands as [|lm hands IH]; intros i r hps log Hlen j hp Hj;
    cbn [forEachIndexed] in Hj; [now left |].
  destruct (handPrepStep_positions inp m lm i r hps log) as [Hp Hh].
  destruct (handPrepStep inp m lm i (r, hps, log)) as [[r1 hps1] log1].
  simpl in Hp, Hh. subst hps1.
  apply IH in Hj; [| rewrite length_app; simpl; lia].
  destruct Hj as [Hj | [lm' [Hij [Hn E]]]].
  - destruct (Nat.lt_ge_cases j (length hps)) as [Hlt|Hge].
    + left. now rewrite nth_error_app1 in Hj.
    + rewrite nth_error_app2 in Hj by assumption.
      destruct (j - length hps)%nat as [|d] eqn:D; simpl in Hj;
        [| destruct d; discriminate].
      injection Hj as <-. right. exists lm.
      assert (j = i) by lia. subst j.
      rewrite Nat.sub_diag. repeat split. lia.
  - right. exists lm'. rewrite Hp in E. split; [lia |]. split; [| exact E].
    replace (j - i)%nat with (S (j - S i)) by lia. exact Hn.
Qed.

Lemma handPositions_classified (inp : FrameInput) (r : Refs) (j : nat)
      (hp : HandPos) :
  nth_error (handPositions (resolveInteraction inp r)) j = Some hp ->
  exists lm, nth_error (handResult inp) j = Some lm
             /\ hp = classifyHand inp (prevHandPosRef r) j lm.
Proof.
  unfold resolveInteraction. cbn [now].
  set (r0 := withBrowser r _).
  pose proof (forEach_positions inp (mouthLogic inp) (handResult inp)
                0 r0 [] [] eq_refl j hp) as H.
  unfold handPrep.
  destruct (forEachIndexed (handPrepStep inp (mouthLogic inp))
                           (handResult inp) 0%nat (r0, [], []))
    as [[r1 hps] log1].
  destruct (doubleGrabPhase _ _ _) as [dg objects1].
  destruct (singleHandPhase _ _ _ _ _) as [objects2 log3].
  simpl. simpl in H. intros Hj.
  destruct (H Hj) as [F | [lm [_ [Hn E]]]]; [destruct j; discriminate |].
  exists lm. rewrite Nat.sub_0_r in Hn. split; assumption.
Qed.

Lemma singleHandPhase_no_history st prev dg hps :
  (forall h, prev h = None) ->
  forall i s, forEachIndexed (singleHandStep st prev dg) hps i s = s.
Proof.
  intros Hnone. induction hps as [|hand hps IH]; intros i s; simpl;
    [reflexivity |].
  rewrite IH. unfold singleHandStep. destruct s. now rewrite Hnone.
Qed.

(** X8. In a frame that starts with an empty hand history (the first frame
    in which hands are seen), no projectile is shot whatever the pose, the
    single-hand block grabs, drags and releases nothing, and no radius
    changes: only mouth spawns and the two-hand snap can happen. *)
Theorem first_frame_is_limited (inp : FrameInput) (r : Refs) :
  (forall h, prevHandPosRef r h = None) ->
  let res := resolveInteraction inp r in
  Forall (fun o => grabState o <> Ungrabbed) (spawned (loop inp r))
  /\ Forall (fun e => phaseOf e <> PhSingleHand) (frameLog res)
  /\ map radius (frameObjects res) = map radius (objectsRef r).
Proof.
  intros Hnone res. split; [| split].
  - pose proof (spawned_origin_aux inp r) as Hsp.
    eapply Forall_impl; [| exact Hsp].
    intros o [j [hp [Hj [Hpull | Hshot]]]].
    + destruct Hpull as [_ [_ [_ [_ [_ [_ [_ [_ [_ Hs]]]]]]]]].
      rewrite Hs. discriminate.
    + exfalso. destruct Hshot as [_ [Hv _]].
      apply handPositions_classified in Hj as [lm [_ ->]].
      unfold classifyHand in Hv. rewrite Hnone in Hv. simpl in Hv. lra.
  - destruct (resolveInteraction_shape inp r)
      as [new [_ [_ [_ [_ [_ [_ [_ Hlog]]]]]]]].
    fold res in Hlog. rewrite Hlog.
    unfold singleHandPhase.
    rewrite singleHandPhase_no_history by assumption. simpl.
    assert (Hmap : forall (A : Type) (f : A -> Event) (l : list A),
               (forall a, phaseOf (f a) <> PhSingleHand) ->
               Forall (fun e => phaseOf e <> PhSingleHand) (map f l)).
    { intros A f l Hf. apply Forall_forall. intros e He.
      apply in_map_iff in He as [a [<- _]]. apply Hf. }
    apply Forall_app; split; [apply Hmap; discriminate |].
    apply Forall_app; split; [apply Hmap; discriminate |].
    apply Forall_app; split; [apply Hmap; discriminate |].
    eapply Forall_impl; [| apply prevEvents_phase].
    intros e ->. discriminate.
  - destruct (resolveInteraction_shape inp r) as [new [_ [_ [Hobjs _]]]].
    fold res in Hobjs. rewrite Hobjs, map_map. apply map_ext. intros o.
    unfold resolveObj, singleHandAll.
    assert (Hs : forall hps i o',
               forEachIndexed (singleHandObj (settings inp) (prevHandPosRef r)
                                 (currentDoubleGrabs res)) hps i o' = o').
    { induction hps as [|hand hps IH]; intros i o'; simpl; [reflexivity |].
      rewrite IH. unfold singleHandObj. now rewrite Hnone. }
    rewrite Hs. unfold cleanupObj.
    assert (Hg : radius (grabObj (prevHandPosRef r) (handPositions res) o)
                 = radius o).
    { unfold grabObj. destruct (doubleGrabHands _) as [[h0 h1]|]; [| reflexivity].
      unfold doubleGrabObj. destruct (qualifies h0 h1 o); [| reflexivity].
      unfold forceDoubleGrab, resize. now rewrite Hnone. }
    destruct (isStale _ _); simpl; exact Hg.
Qed.

Lemma first_frame_is_limited_witness :
  let inp := Scene.frame [Scene.gun 0.5 0.5] (Some Scene.openMouth)
                         INITIAL_SETTINGS in
  let r := Scene.freshRefs [Scene.ball 1 110 100 20] 5000 in
  Forall (fun o => grabState o <> Ungrabbed) (spawned (loop inp r)).
Proof.
  intros inp r.
  exact (proj1 (first_frame_is_limited inp r (fun _ => eq_refl))).
Defined.

(* ================================================================= *)
(** ** The hands of a frame, from the landmarks *)

Lemma handPositions_nth (inp : FrameInput) (r : Refs) (j : nat) :
  nth_error (handPositions (resolveInteraction inp r)) j
  = option_map (classifyHand inp (prevHandPosRef r) j)
               (nth_error (handResult inp) j).
Proof.
  destruct (resolveInteraction_shape inp r) as [new [Hlen _]].
  destruct (nth_error (handPositions (resolveInteraction inp r)) j)
    as [hp|] eqn:E.
  - destruct (handPositions_classified inp r j hp E) as [lm [Hlm ->]].
    now rewrite Hlm.
  - apply nth_error_None in E. rewrite Hlen in E. apply nth_error_None in E.
    now rewrite E.
Qed.

(* ================================================================= *)
(** ** Releasing *)

Lemma doubleGrabHands_open_hand hps h hand :
  (h < 2)%nat -> nth_error hps h = Some hand -> isPinching hand = false ->
  doubleGrabHands hps = None.
Proof.
  intros Hh Hn Hp. unfold doubleGrabHands.
  destruct h as [|[|h]]; [| | lia]; rewrite Hn.
  - destruct (nth_error hps 1); [| reflexivity]. now rewrite Hp.
  - destruct (nth_error hps 0); [| reflexivity]. now rewrite Hp, andb_false_r.
Qed.

Lemma singleHandObj_release st prev dg hand i p o :
  prev i = Some p -> isPinching hand = false -> has dg (id o) = false ->
  isGrabbed o = true -> grabbedByHandIndex o = Some i ->
  singleHandObj st prev dg hand i o = setGrabbedBy (setIsGrabbed o false) None.
Proof.
  intros Hprev Hpinch Hout G I. unfold singleHandObj. rewrite Hprev.
  unfold singleHandAction, heldBy. rewrite Hpinch, Hout, G, I, Nat.eqb_refl.
  reflexivity.
Qed.

(** A hand meeting a free object grabs it or leaves it alone. *)
Lemma singleHandObj_free st prev dg hand i o :
  isGrabbed o = false ->
  singleHandObj st prev dg hand i o = o
  \/ singleHandObj st prev dg hand i o
     = setGrabbedBy (setIsGrabbed o true) (Some i).
Proof.
  intros G. unfold singleHandObj. destruct (prev i); [| now left].
  unfold singleHandAction, heldBy, heldByOther. rewrite G. simpl.
  destruct (isPinching hand); [| now left].
  destruct (has dg (id o)); [now left |].
  destruct (ltb _ _); [now right | now left].
Qed.

Lemma resolveObj_release st prev hps h hand p o :
  (length hps <= 2)%nat -> nth_error hps h = Some hand ->
  isPinching hand = false -> prev h = Some p ->
  isGrabbed o = true -> grabbedByHandIndex o = Some h ->
  let o' := resolveObj st prev hps [] o in
  (grabState o' = Ungrabbed \/ (h = 0%nat /\ grabState o' = GrabbedBy 1))
  /\ (h = 1%nat -> grabState o' = Ungrabbed)
  /\ x o' = x o /\ y o' = y o /\ vx o' = vx o /\ vy o' = vy o
  /\ radius o' = radius o.
Proof.
  intros Hlen Hh Hpinch Hprev G I o'. subst o'.
  assert (Hh2 : (h < 2)%nat).
  { assert (h < length hps)%nat by (apply nth_error_Some; congruence). lia. }
  unfold resolveObj, grabObj.
  rewrite (doubleGrabHands_open_hand hps h hand Hh2 Hh Hpinch).
  unfold singleHandAll.
  set (free := setGrabbedBy (setIsGrabbed o false) None).
  assert (Hfree : cleanupObj [] free = free) by reflexivity.
  destruct hps as [|a [|b [|c hps]]]; simpl in Hlen; try lia;
    destruct h as [|[|h]]; simpl in Hh; try discriminate; try lia;
    injection Hh as ->; cbn [forEachIndexed].
  - rewrite (singleHandObj_release st prev [] hand 0 p o) by auto.
    fold free. rewrite Hfree.
    split; [now left |]. split; [discriminate |]. repeat split.
  - rewrite (singleHandObj_release st prev [] hand 0 p o) by auto.
    fold free.
    destruct (singleHandObj_free st prev [] b 1 free eq_refl) as [-> | ->].
    + rewrite Hfree.
      split; [now left |]. split; [discriminate |]. repeat split.
    + split; [right; split; reflexivity |]. split; [discriminate |].
      repeat split.
  - rewrite (singleHandObj_foreign st prev [] a 0 1 o) by (auto; lia).
    rewrite (singleHandObj_release st prev [] hand 1 p o) by auto.
    fold free. rewrite Hfree.
    split; [now left |]. split; [reflexivity |]. repeat split.
Qed.

(** X9. Releasing: when the hand that exclusively holds an object is
    detected, has a previous pinch position and is not pinching, the object
    ends the interaction resolution where it was, with the velocity and the
    radius it had (the velocity of the last drag: a throw).  It ends free,
    except that an object released by hand 0 may be picked up in the same
    frame by a pinching hand 1 within reach. *)
Theorem release_keeps_position_and_velocity
    (inp : FrameInput) (r : Refs) (h : nat) (hand : HandPos) (p : HandPoint)
    (k : nat) (o : PhysicsObject) :
  let res := resolveInteraction inp r in
  (length (handResult inp) <= 2)%nat ->
  nth_error (handPositions res) h = Some hand ->
  isPinching hand = false ->
  prevHandPosRef r h = Some p ->
  nth_error (objectsRef r) k = Some o ->
  grabState o = GrabbedBy h ->
  exists o',
    nth_error (frameObjects res) k = Some o'
    /\ (grabState o' = Ungrabbed \/ (h = 0%nat /\ grabState o' = GrabbedBy 1))
    /\ (h = 1%nat -> grabState o' = Ungrabbed)
    /\ x o' = x o /\ y o' = y o /\ vx o' = vx o /\ vy o' = vy o
    /\ radius o' = radius o.
Proof.
  intros res Hhands Hh Hpinch Hprev Hk Hheld.
  assert (G : isGrabbed o = true /\ grabbedByHandIndex o = Some h).
  { unfold grabState in Hheld. destruct (isGrabbed o); [| discriminate].
    destruct (grabbedByHandIndex o); [| discriminate].
    injection Hheld as ->. now split. }
  destruct G as [G I].
  destruct (resolveInteraction_shape inp r) as [new [Hlen [Hdg [Hobjs _]]]].
  fold res in Hlen, Hdg, Hobjs.
  assert (Hh2 : (h < 2)%nat).
  { assert (h < length (handPositions res))%nat
      by (apply nth_error_Some; congruence). lia. }
  assert (Hempty : currentDoubleGrabs res = []).
  { rewrite Hdg. unfold doubleGrabPhase.
    now rewrite (doubleGrabHands_open_hand _ h hand Hh2 Hh Hpinch). }
  exists (resolveObj (settings inp) (prevHandPosRef r) (handPositions res) [] o).
  split.
  - rewrite Hobjs, Hempty, nth_error_map, Hk. reflexivity.
  - apply (resolveObj_release (settings inp) (prevHandPosRef r)
             (handPositions res) h hand p o); try assumption. lia.
Qed.

Lemma release_keeps_position_and_velocity_witness :
  let inp := Scene.frame [openHand 0.5 0.5] None INITIAL_SETTINGS in
  let held := mkObject 1 100 100 3 4 20 "#f43f5e" true (Some 0%nat) 0 0 in
  let r := mkRefs [held] (setKey (fun _ => None) 0%nat (Some (mkHandPoint 100 100)))
                  (fun _ => true) 0 (Scene.browserAt 5000) in
  exists o', nth_error (frameObjects (resolveInteraction inp r)) 0 = Some o'
             /\ grabState o' <> GrabbedBy 0
             /\ x o' = 100 /\ y o' = 100 /\ vx o' = 3 /\ vy o' = 4.
Proof.
  intros inp held r.
  destruct (release_keeps_position_and_velocity inp r 0
              (classifyHand inp (prevHandPosRef r) 0 (openHand 0.5 0.5))
              (mkHandPoint 100 100) 0 held)
    as [o' [Hk [Hs [_ [Hx [Hy [Hvx [Hvy _]]]]]]]].
  - simpl. lia.
  - rewrite handPositions_nth. reflexivity.
  - unfold classifyHand, openHand. cbn. apply ltb_ge.
    apply hypot_ge. lra.
  - reflexivity.
  - reflexivity.
  - reflexivity.
  - exists o'. split; [exact Hk |].
    rewrite Hx, Hy, Hvx, Hvy.
    split; [destruct Hs as [Hs | [_ Hs]]; rewrite Hs; discriminate |].
    repeat split.
Defined.

(* ================================================================= *)
(** ** The shared grab, through the whole frame *)

(** X10. An object that qualifies for the shared grab while both hands pinch
    ends the interaction resolution on the midpoint of the two pinch points,
    at rest and in the shared state, whatever the single-hand block and the
    cleanup do afterwards and however many hands are detected; the physics
    step then leaves it exactly there.  Its radius is untouched as long as
    one of the two hands has no previous pinch position. *)
Theorem shared_object_sits_between_the_hands
    (inp : FrameInput) (r : Refs) (h0 h1 : HandPos) (k : nat)
    (o : PhysicsObject) :
  let res := resolveInteraction inp r in
  doubleGrabHands (handPositions res) = Some (h0, h1) ->
  nth_error (objectsRef r) k = Some o ->
  qualifies h0 h1 o = true ->
  exists o',
    nth_error (frameObjects res) k = Some o'
    /\ nth_error (afterMovement (loop inp r)) k = Some o'
    /\ grabState o' = SharedGrab
    /\ x o' = (handX h0 + handX h1) / 2 /\ y o' = (handY h0 + handY h1) / 2
    /\ vx o' = 0 /\ vy o' = 0
    /\ (prevHandPosRef r 0%nat = None \/ prevHandPosRef r 1%nat = None ->
        radius o' = radius o).
Proof.
  intros res Hh Hk Hq.
  destruct (resolveInteraction_shape inp r) as [new [_ [Hdg [Hobjs _]]]].
  fold res in Hdg, Hobjs.
  set (prev := prevHandPosRef r) in *.
  set (hps := handPositions res) in *.
  set (dg := currentDoubleGrabs res) in *.
  assert (Hin : has dg (id o) = true).
  { apply has_In. rewrite Hdg. apply doubleGrabs_In.
    exists h0, h1, o. repeat split; try assumption.
    eapply nth_error_In; eassumption. }
  set (o1 := forceDoubleGrab prev h0 h1
               (hypot (handX h1 - handX h0) (handY h1 - handY h0)) o).
  assert (Hgrab : grabObj prev hps o = o1).
  { unfold grabObj, doubleGrabObj. now rewrite Hh, Hq. }
  assert (F : id o1 = id o /\ isGrabbed o1 = true
              /\ grabbedByHandIndex o1 = None
              /\ x o1 = (handX h0 + handX h1) / 2
              /\ y o1 = (handY h0 + handY h1) / 2
              /\ vx o1 = 0 /\ vy o1 = 0
              /\ (prev 0%nat = None \/ prev 1%nat = None -> radius o1 = radius o)).
  { unfold o1, forceDoubleGrab, resize.
    destruct (prev 0%nat), (prev 1%nat); cbn; repeat split;
      intros [E|E]; try discriminate; reflexivity. }
  destruct F as [Fid [Fg [Fi [Fx [Fy [Fvx [Fvy Fr]]]]]]].
  assert (Hres : resolveObj (settings inp) prev hps dg o = o1).
  { unfold resolveObj. rewrite Hgrab.
    rewrite singleHandAll_shared; [| now rewrite Fid | assumption].
    unfold cleanupObj, isStale. now rewrite Fi, Fg, Fid, Hin. }
  assert (Hk' : nth_error (frameObjects res) k = Some o1).
  { rewrite Hobjs, nth_error_map, Hk. simpl. now rewrite Hres. }
  exists o1. split; [exact Hk' |].
  split; [apply (physics_grabbed inp r k o1 Hk' Fg) |].
  split; [apply grabState_shared; now split |].
  repeat (split; [assumption |]). exact Fr.
Qed.

Lemma shared_object_sits_between_the_hands_witness :
  let inp := Scene.frame [Scene.fist 0.4 0.5; Scene.fist 0.6 0.5] None
                         INITIAL_SETTINGS in
  let r := Scene.freshRefs [Scene.ball 1 110 100 20] 5000 in
  exists o', nth_error (afterMovement (loop inp r)) 0 = Some o'
             /\ x o' = 100 /\ y o' = 100 /\ radius o' = 20.
Proof.
  intros inp r.
  destruct (shared_object_sits_between_the_hands inp r
              (classifyHand inp (prevHandPosRef r) 0 (Scene.fist 0.4 0.5))
              (classifyHand inp (prevHandPosRef r) 1 (Scene.fist 0.6 0.5))
              0 (Scene.ball 1 110 100 20))
    as [o' [_ [Hk [_ [Hx [Hy [_ [_ Hr]]]]]]]].
  - unfold doubleGrabHands. rewrite !handPositions_nth.
    unfold classifyHand. num_eval. reflexivity.
  - reflexivity.
  - unfold classifyHand. num_eval. reflexivity.
  - exists o'. split; [exact Hk |].
    rewrite Hx, Hy, Hr by (now left). cbn. repeat split; lra.
Defined.

(* ================================================================= *)
(** ** Across two frames *)

(** X11. A pinch that is held spawns once: a hand that was pinching in one
    frame pulls no object from the mouth in the next frame, whatever the
    second frame shows (no object spawned in it is owned by that hand). *)
Theorem held_pinch_pulls_nothing
    (inp1 inp2 : FrameInput) (r : Refs) (j : nat) (hp1 : HandPos) :
  nth_error (handPositions (resolveInteraction inp1 r)) j = Some hp1 ->
  isPinching hp1 = true ->
  Forall (fun o => grabState o <> GrabbedBy j)
         (spawned (loop inp2 (refsAfter (loop inp1 r)))).
Proof.
  intros Hj Hpinch.
  set (r2 := refsAfter (loop inp1 r)).
  assert (Hwas : wasPinchingRef r2 j = true).
  { unfold r2. destruct (loop_refs inp1 r) as [_ [-> _]].
    destruct (resolveInteraction_traced inp1 r) as [_ [_ Hdone]].
    now rewrite (Hdone j hp1 Hj). }
  eapply Forall_impl; [| apply (spawned_origin_aux inp2 r2)].
  intros o [j' [hp [_ [Hpull | Hshot]]]].
  - destruct Hpull as [_ [_ [Hw [_ [_ [_ [_ [_ [_ Hs]]]]]]]]].
    rewrite Hs. intros E. injection E as ->. congruence.
  - destruct Hshot as [_ [_ [_ [_ [_ [_ [_ Hs]]]]]]]. rewrite Hs. discriminate.
Qed.

Lemma held_pinch_pulls_nothing_witness :
  let inp := Scene.frame [Scene.fist 0.5 0.5] (Some Scene.openMouth)
                         INITIAL_SETTINGS in
  let r := Scene.freshRefs [] 5000 in
  Forall (fun o => grabState o <> GrabbedBy 0)
         (spawned (loop inp (refsAfter (loop inp r)))).
Proof.
  intros inp r.
  apply (held_pinch_pulls_nothing inp inp r 0
           (classifyHand inp (prevHandPosRef r) 0 (Scene.fist 0.5 0.5))).
  - rewrite handPositions_nth. reflexivity.
  - unfold classifyHand. num_eval. reflexivity.
Defined.

(** X12. The hand history after a frame: the pinch points of the detected
    hands 0 and 1 are recorded, and every other entry is left as it was: the
    entry of a hand that is not detected is never cleared, and a hand of
    index 2 or more never gets one. *)
Theorem hand_history_after_frame (inp : FrameInput) (r : Refs) (h : nat) :
  prevHandPosRef (refsAfter (loop inp r)) h
  = match (if (h <? 2)%nat then nth_error (handResult inp) h else None) with
    | Some lm =>
        let hand := classifyHand inp (prevHandPosRef r) h lm in
        Some (mkHandPoint (handX hand) (handY hand))
    | None => prevHandPosRef r h
    end.
Proof.
  destruct (loop_refs inp r) as [-> _].
  destruct (resolveInteraction_shape inp r)
    as [new [_ [_ [_ [_ [_ [_ [-> _]]]]]]]].
  unfold recordPrev, setKey. rewrite !handPositions_nth.
  destruct h as [|[|h]];
    destruct (nth_error (handResult inp) 0) as [a|];
    destruct (nth_error (handResult inp) 1) as [b|]; reflexivity.
Qed.

(* ================================================================= *)
(** ** Scenes for the properties of the physics step *)

Lemma nothing_removed_with_mouth_closed_and_fusion_off_witness :
  let inp := Scene.frame [Scene.fist 0.5 0.5] None INITIAL_SETTINGS in
  let r := Scene.freshRefs [Scene.ball 1 100 100 20; Scene.ball 2 110 100 20]
                           5000 in
  objectsToRemove (loop inp r) = []
  /\ map id (objectsRef (refsAfter (loop inp r)))
     = [1; 2] ++ map id (spawned (loop inp r)).
Proof.
  intros inp r.
  destruct (nothing_removed_with_mouth_closed_and_fusion_off inp r
              eq_refl eq_refl) as [H1 [_ H3]].
  split; assumption.
Defined.

Lemma physics_leaves_grabbed_objects_alone_witness :
  let inp := Scene.frame [] None INITIAL_SETTINGS in
  let held := mkObject 1 100 100 3 4 20 "#f43f5e" true (Some 0%nat) 0 0 in
  let r := Scene.freshRefs [held; Scene.ball 2 110 100 20] 5000 in
  nth_error (afterCollisions (loop inp r)) 0 = Some held
  /\ nth_error (afterMovement (loop inp r)) 0 = Some held.
Proof.
  intros inp held r.
  apply (physics_leaves_grabbed_objects_alone inp r 0 held);
    [| reflexivity].
  destruct (resolveInteraction_shape inp r) as [new [_ [_ [Hobjs _]]]].
  rewrite Hobjs. reflexivity.
Defined.

Lemma free_survivors_are_inside_canvas_witness :
  let inp := Scene.frame [] None INITIAL_SETTINGS in
  let fast := mkObject 1 195 100 30 0 10 "#f43f5e" false None 0 0 in
  let r := Scene.freshRefs [fast] 5000 in
  exists o, afterMovement (loop inp r) = [o]
            /\ 10 <= x o <= 190 /\ 10 <= y o <= 190.
Proof.
  intros inp fast r.
  assert (Hres : frameObjects (resolveInteraction inp r) = [fast]
                 /\ frameMouth (resolveInteraction inp r) = mouthLogic inp).
  { subst inp r.
    unfold resolveInteraction, handPrep, doubleGrabPhase, doubleGrabHands,
      singleHandPhase, cleanupObj, spawnedIn.
    num_eval. repeat split. }
  destruct Hres as [R1 R4].
  destruct (loop_stages inp r) as [w1 [w2 [Hcol [Hmove _]]]].
  pose proof (free_survivors_are_inside_canvas inp r 0 (integrate inp fast))
    as Hin.
  remember (loop inp r) as fr eqn:Efr. clear Efr.
  rewrite R1 in Hcol. rewrite R4 in Hmove.
  unfold collisions, collisionPass, collideRow in Hcol. cbn in Hcol.
  injection Hcol as E1 E2 E3. rewrite <- E1, <- E2 in Hmove.
  revert Hmove. unfold moveEatPass, moveEatObj, eat. cbn.
  intros Hmove. injection Hmove as E4 E5 _.
  destruct (sameBody_integrate inp fast) as [_ [Hr [Hg _]]].
  exists (integrate inp fast). split; [symmetry; exact E4 |].
  rewrite <- E4, <- E5, Hr, Hg in Hin.
  change (radius fast) with 10 in Hin.
  change (canvasWidth inp) with 200 in Hin.
  change (canvasHeight inp) with 200 in Hin.
  destruct Hin as [[A B] [C D]];
    [reflexivity | reflexivity | intros [] | lra | lra |].
  repeat split; lra.
Defined.

(* ================================================================= *)
(** ** The bounce: momentum and energy *)

(** The velocity resolution of [// BOUNCE & SEPARATION] as algebra: [c], [s]
    are the cosine and sine of the contact angle, [r1], [r2] the radii in
    the role of masses, [b] the bounce factor. *)
Lemma bounce_algebra (r1 r2 u1 w1 u2 w2 c s b : R) :
  r1 + r2 <> 0 -> c * c + s * s = 1 ->
  let n1 := u1 * c + w1 * s in
  let t1 := w1 * c - u1 * s in
  let n2 := u2 * c + w2 * s in
  let t2 := w2 * c - u2 * s in
  let f1 := ((r1 - r2) * n1 + 2 * r2 * n2) / (r1 + r2) in
  let f2 := ((r2 - r1) * n2 + 2 * r1 * n1) / (r1 + r2) in
  let u1' := (f1 * c - t1 * s) * b in
  let w1' := (t1 * c + f1 * s) * b in
  let u2' := (f2 * c - t2 * s) * b in
  let w2' := (t2 * c + f2 * s) * b in
  r1 * u1' + r2 * u2' = b * (r1 * u1 + r2 * u2)
  /\ r1 * w1' + r2 * w2' = b * (r1 * w1 + r2 * w2)
  /\ r1 * (u1' * u1' + w1' * w1') + r2 * (u2' * u2' + w2' * w2')
     = b * b * (r1 * (u1 * u1 + w1 * w1) + r2 * (u2 * u2 + w2 * w2)).
Proof.
  intros Hr H n1 t1 n2 t2 f1 f2 u1' w1' u2' w2'.
  assert (E1 : r1 * f1 + r2 * f2 = r1 * n1 + r2 * n2)
    by (unfold f1, f2; field; assumption).
  assert (E2 : r1 * (f1 * f1) + r2 * (f2 * f2)
               = r1 * (n1 * n1) + r2 * (n2 * n2))
    by (unfold f1, f2; field; assumption).
  clearbody f1 f2. unfold u1', w1', u2', w2'. split; [| split].
  - replace (r1 * ((f1 * c - t1 * s) * b) + r2 * ((f2 * c - t2 * s) * b))
      with (b * (c * (r1 * f1 + r2 * f2) - s * (r1 * t1 + r2 * t2))) by ring.
    rewrite E1. unfold n1, n2, t1, t2.
    replace (c * (r1 * (u1 * c + w1 * s) + r2 * (u2 * c + w2 * s))
             - s * (r1 * (w1 * c - u1 * s) + r2 * (w2 * c - u2 * s)))
      with ((r1 * u1 + r2 * u2) * (c * c + s * s)) by ring.
    rewrite H. ring.
  - replace (r1 * ((t1 * c + f1 * s) * b) + r2 * ((t2 * c + f2 * s) * b))
      with (b * (s * (r1 * f1 + r2 * f2) + c * (r1 * t1 + r2 * t2))) by ring.
    rewrite E1. unfold n1, n2, t1, t2.
    replace (s * (r1 * (u1 * c + w1 * s) + r2 * (u2 * c + w2 * s))
             + c * (r1 * (w1 * c - u1 * s) + r2 * (w2 * c - u2 * s)))
      with ((r1 * w1 + r2 * w2) * (c * c + s * s)) by ring.
    rewrite H. ring.
  - replace (r1 * ((f1 * c - t1 * s) * b * ((f1 * c - t1 * s) * b)
                   + (t1 * c + f1 * s) * b * ((t1 * c + f1 * s) * b))
             + r2 * ((f2 * c - t2 * s) * b * ((f2 * c - t2 * s) * b)
                     + (t2 * c + f2 * s) * b * ((t2 * c + f2 * s) * b)))
      with (b * b * ((c * c + s * s)
                     * ((r1 * (f1 * f1) + r2 * (f2 * f2))
                        + (r1 * (t1 * t1) + r2 * (t2 * t2))))) by ring.
    rewrite E2, H. unfold n1, n2, t1, t2.
    replace (1 * (r1 * ((u1 * c + w1 * s) * (u1 * c + w1 * s))
                  + r2 * ((u2 * c + w2 * s) * (u2 * c + w2 * s))
                  + (r1 * ((w1 * c - u1 * s) * (w1 * c - u1 * s))
                     + r2 * ((w2 * c - u2 * s) * (w2 * c - u2 * s)))))
      with ((c * c + s * s)
            * (r1 * (u1 * u1 + w1 * w1) + r2 * (u2 * u2 + w2 * w2))) by ring.
    rewrite H. ring.
Qed.

Lemma cos_sin_unit (a : R) : cos a * cos a + sin a * sin a = 1.
Proof. pose proof (sin2_cos2 a) as H. unfold Rsqr in H. lra. Qed.

Lemma overlapping_radii (o1 o2 : PhysicsObject) :
  overlapping o1 o2 = true -> 0 < radius o1 + radius o2.
Proof.
  unfold overlapping. intros H. apply ltb_true_iff in H.
  pose proof (hypot_nonneg (x o2 - x o1) (y o2 - y o1)). lra.
Qed.

Lemma bounceApart_momentum (st : GameSettings) (o1 o2 : PhysicsObject) :
  radius o1 + radius o2 <> 0 ->
  let p := bounceApart st o1 o2 in
  radius o1 * vx (fst p) + radius o2 * vx (snd p)
  = bounce st * (radius o1 * vx o1 + radius o2 * vx o2)
  /\ radius o1 * vy (fst p) + radius o2 * vy (snd p)
     = bounce st * (radius o1 * vy o1 + radius o2 * vy o2)
  /\ radius o1 * (vx (fst p) * vx (fst p) + vy (fst p) * vy (fst p))
     + radius o2 * (vx (snd p) * vx (snd p) + vy (snd p) * vy (snd p))
     = bounce st * bounce st
       * (radius o1 * (vx o1 * vx o1 + vy o1 * vy o1)
          + radius o2 * (vx o2 * vx o2 + vy o2 * vy o2)).
Proof.
  intros Hr p. subst p. unfold bounceApart. cbv zeta.
  cbn [fst snd vx vy setVel setPos].
  apply (bounce_algebra (radius o1) (radius o2) (vx o1) (vy o1) (vx o2) (vy o2)
           (cos (atan2 (y o2 - y o1) (x o2 - x o1)))
           (sin (atan2 (y o2 - y o1) (x o2 - x o1))) (bounce st) Hr).
  apply cos_sin_unit.
Qed.

(** X13. When two overlapping objects bounce, the radii act as masses: the
    radius-weighted momentum of the pair is multiplied by the bounce factor
    in both coordinates, the radius-weighted kinetic energy by its square
    (both are conserved for bounce = 1), and the two centers are pushed
    apart symmetrically, so that their midpoint stays where it was. *)
Theorem bounce_scales_momentum_and_energy
    (st : GameSettings) (o1 o2 : PhysicsObject) :
  overlapping o1 o2 = true ->
  let p := bounceApart st o1 o2 in
  let m1 := radius o1 in
  let m2 := radius o2 in
  m1 * vx (fst p) + m2 * vx (snd p) = bounce st * (m1 * vx o1 + m2 * vx o2)
  /\ m1 * vy (fst p) + m2 * vy (snd p) = bounce st * (m1 * vy o1 + m2 * vy o2)
  /\ m1 * (vx (fst p) * vx (fst p) + vy (fst p) * vy (fst p))
     + m2 * (vx (snd p) * vx (snd p) + vy (snd p) * vy (snd p))
     = bounce st * bounce st
       * (m1 * (vx o1 * vx o1 + vy o1 * vy o1)
          + m2 * (vx o2 * vx o2 + vy o2 * vy o2))
  /\ x (fst p) + x (snd p) = x o1 + x o2
  /\ y (fst p) + y (snd p) = y o1 + y o2.
Proof.
  intros Hov p m1 m2.
  assert (Hr : radius o1 + radius o2 <> 0).
  { pose proof (overlapping_radii o1 o2 Hov). lra. }
  destruct (bounceApart_momentum st o1 o2 Hr) as [A [B C]].
  repeat (split; [assumption |]).
  subst p. unfold bounceApart. cbv zeta. cbn [fst snd x y setVel setPos].
  split; lra.
Qed.

Lemma bounce_scales_momentum_and_energy_witness :
  let o1 := mkObject 1 100 100 2 0 20 "#f43f5e" false None 0 0 in
  let o2 := Scene.ball 2 125 100 10 in
  let p := bounceApart INITIAL_SETTINGS o1 o2 in
  20 * vx (fst p) + 10 * vx (snd p) = 36
  /\ x (fst p) + x (snd p) = 225.
Proof.
  intros o1 o2 p.
  destruct (bounce_scales_momentum_and_energy INITIAL_SETTINGS o1 o2)
    as [A [_ [_ [D _]]]].
  - unfold overlapping. cbn. apply ltb_lt.
    rewrite hypot_axis_x; lra.
  - fold p in A, D.
    change (radius o1) with 20 in A. change (radius o2) with 10 in A.
    change (vx o1) with 2 in A. change (vx o2) with 0 in A.
    change (bounce INITIAL_SETTINGS) with 0.9 in A.
    change (x o1) with 100 in D. change (x o2) with 125 in D.
    split; lra.
Defined.

Lemma weighted_setNth (f : PhysicsObject -> R) (l : list PhysicsObject)
      (i : nat) (a a' : PhysicsObject) :
  nth_error l i = Some a ->
  weighted f (setNth l i a') = weighted f l - radius a * f a + radius a' * f a'.
Proof.
  revert i. induction l as [|b l IH]; intros [|i] H; simpl in *;
    try discriminate.
  - injection H as ->. lra.
  - rewrite (IH i H). lra.
Qed.

Lemma fold_left_invariant_in {A B : Type} (P : A -> Prop) (f : A -> B -> A)
      (l : list B) (s : A) :
  P s -> (forall s' b, In b l -> P s' -> P (f s' b)) -> P (fold_left f l s).
Proof.
  revert s. induction l as [|b l IH]; intros s Hs Hf; simpl; [exact Hs |].
  apply IH.
  - apply Hf; [now left | exact Hs].
  - intros s' b' Hin. apply Hf. now right.
Qed.

Lemma collidePair_momentum (st : GameSettings) (i j : nat) (s : PhysState) :
  bounce st = 1 -> fusionChance st = 0 -> i <> j ->
  weighted vx (fst (fst (collidePair st i j s))) = weighted vx (fst (fst s))
  /\ weighted vy (fst (fst (collidePair st i j s))) = weighted vy (fst (fst s)).
Proof.
  intros Hb Hoff Hij. destruct s as [[objects toRemove] w]. unfold collidePair.
  destruct (nth_error objects i) as [o1|] eqn:E1; [| now split].
  destruct (nth_error objects j) as [o2|] eqn:E2; [| now split].
  destruct (isGrabbed o1 || isGrabbed o2); [now split |].
  destruct (has toRemove (id o1) || has toRemove (id o2)); [now split |].
  destruct (overlapping o1 o2) eqn:Hov; [| now split].
  unfold resolveOverlap.
  pose proof (canFuse_off st o1 o2 w Hoff) as Hc.
  destruct (canFuse st o1 o2 w) as [fusing w']. simpl in Hc. subst fusing.
  assert (Hr : radius o1 + radius o2 <> 0).
  { pose proof (overlapping_radii o1 o2 Hov). lra. }
  destruct (bounceApart_momentum st o1 o2 Hr) as [A [B _]].
  pose proof (radius_bounceApart st o1 o2) as [R1 R2].
  destruct (bounceApart st o1 o2) as [o1' o2']. simpl in A, B, R1, R2. simpl.
  assert (E2' : nth_error (setNth objects i o1') j = Some o2)
    by (rewrite nth_error_setNth_ne by assumption; exact E2).
  rewrite !(weighted_setNth _ _ j o2 o2' E2'),
          !(weighted_setNth _ _ i o1 o1' E1), R1, R2.
  rewrite Hb in A, B. split; lra.
Qed.

Lemma collisions_momentum (st : GameSettings) (s : PhysState) :
  bounce st = 1 -> fusionChance st = 0 ->
  weighted vx (fst (fst (collisions st s))) = weighted vx (fst (fst s))
  /\ weighted vy (fst (fst (collisions st s))) = weighted vy (fst (fst s)).
Proof.
  intros Hb Hoff. unfold collisions.
  destruct (enableCollisions st); [| now split].
  unfold collisionPass.
  set (P := fun s' : PhysState =>
              weighted vx (fst (fst s')) = weighted vx (fst (fst s))
              /\ weighted vy (fst (fst s')) = weighted vy (fst (fst s))).
  apply (fold_left_invariant P); [now split |].
  intros s1 i H1. unfold collideRow.
  apply (fold_left_invariant_in P); [exact H1 |].
  intros s2 j Hj [H3 H4]. apply in_seq in Hj.
  destruct (collidePair_momentum st i j s2 Hb Hoff) as [H5 H6]; [lia |].
  split; congruence.
Qed.

(** X14. With a bounce factor of 1 and fusion switched off, the pairwise
    pass of a frame conserves the total radius-weighted momentum of the
    frame's objects, in both coordinates, for every number of objects and
    every order of contacts. *)
Theorem pairwise_pass_conserves_momentum (inp : FrameInput) (r : Refs) :
  bounce (settings inp) = 1 ->
  fusionChance (settings inp) = 0 ->
  let before := frameObjects (resolveInteraction inp r) in
  let after := afterCollisions (loop inp r) in
  weighted vx after = weighted vx before
  /\ weighted vy after = weighted vy before.
Proof.
  intros Hb Hoff before after. subst before after.
  destruct (loop_collisions inp r) as [Hc _].
  pose proof (collisions_momentum (settings inp)
                (frameObjects (resolveInteraction inp r), [],
                 browser (frameRefs (resolveInteraction inp r)))
                Hb Hoff) as H.
  rewrite Hc in H. exact H.
Qed.

Lemma pairwise_pass_conserves_momentum_witness :
  let inp := Scene.frame [] None Scene.elastic in
  let o1 := mkObject 1 100 100 2 1 20 "#f43f5e" false None 0 0 in
  let r := Scene.freshRefs [o1; Scene.ball 2 130 100 10; Scene.ball 3 115 120 10]
                           5000 in
  weighted vx (afterCollisions (loop inp r)) = 40
  /\ weighted vy (afterCollisions (loop inp r)) = 20.
Proof.
  intros inp o1 r.
  destruct (pairwise_pass_conserves_momentum inp r eq_refl eq_refl) as [A B].
  rewrite A, B.
  destruct (resolveInteraction_shape inp r) as [new [_ [_ [Hobjs _]]]].
  rewrite Hobjs. cbn. split; lra.
Defined.

(* ================================================================= *)
(** ** How many objects a frame can add *)

Lemma magicianSpawn_count (m : Mouth) (hp : HandPos) (i : nat) (r : Refs) :
  (length (objectsRef (fst (magicianSpawn m hp i r)))
   <= S (length (objectsRef r)))%nat.
Proof.
  unfold magicianSpawn.
  destruct (isMouthOpen m && isPinching hp && negb (wasPinchingRef r i));
    [| simpl; lia].
  destruct (ltb _ _); [| simpl; lia].
  cbn. rewrite length_app. simpl. lia.
Qed.

Lemma gunShot_count (hp : HandPos) (r : Refs) :
  (length (objectsRef (fst (gunShot hp r))) <= S (length (objectsRef r)))%nat.
Proof.
  unfold gunShot.
  destruct (isGun hp); [| simpl; lia].
  destruct (ltb (velocityY hp) (-15)); [| simpl; lia].
  cbn. destruct (gtb _ 300); cbn; [| lia].
  rewrite length_app. simpl. lia.
Qed.

Lemma handPrepStep_count (inp : FrameInput) (m : Mouth) (lm : HandLandmarks)
      (k : nat) (s : PrepState) :
  (length (objectsRef (fst (fst (handPrepStep inp m lm k s))))
   <= 2 + length (objectsRef (fst (fst s))))%nat.
Proof.
  destruct s as [[r hps] log]. unfold handPrepStep.
  set (hp := classifyHand inp (prevHandPosRef r) k lm).
  pose proof (magicianSpawn_count m hp k r) as H1.
  destruct (magicianSpawn m hp k r) as [r1 ev1]. simpl in H1.
  pose proof (gunShot_count hp r1) as H2.
  destruct (gunShot hp r1) as [r2 ev2]. simpl in H2. simpl. lia.
Qed.

(** X20. A frame adds at most two objects to the store for every detected
    hand (one pulled from the mouth, one shot). *)
Theorem frame_spawns_at_most_two_per_hand (inp : FrameInput) (r : Refs) :
  (length (spawned (loop inp r)) <= 2 * length (handResult inp))%nat.
Proof.
  destruct (loop_stages inp r) as [w1 [w2 [_ [_ [_ [_ ->]]]]]].
  unfold resolveInteraction. cbn [now].
  set (r0 := withBrowser r _).
  assert (Hc : (length (objectsRef (fst (fst (handPrep inp (mouthLogic inp) r0))))
                <= 2 * length (handResult inp) + length (objectsRef r))%nat).
  { unfold handPrep.
    apply (forEachIndexed_invariant
             (fun n (s : PrepState) =>
                (length (objectsRef (fst (fst s)))
                 <= 2 * n + length (objectsRef r))%nat)
             (handPrepStep inp (mouthLogic inp)) (handResult inp) 0 (r0, [], [])).
    - simpl. lia.
    - intros lm k s _ _ Hs.
      pose proof (handPrepStep_count inp (mouthLogic inp) lm k s). lia. }
  pose proof (handPrep_traced inp (mouthLogic inp) r0) as Ht.
  destruct (handPrep inp (mouthLogic inp) r0) as [[r1 hps] log1].
  destruct Ht as [_ [[new [Ho _]] _]].
  change (objectsRef r0) with (objectsRef r) in Ho.
  destruct (doubleGrabPhase _ _ _) as [dg objects1] eqn:Edg.
  pose proof (doubleGrabPhase_objects (prevHandPosRef r1) hps (objectsRef r))
    as Hd. rewrite Edg in Hd. simpl in Hd.
  pose proof (singleHandPhase_objects (settings inp) (prevHandPosRef r1) dg hps
                0 objects1 []) as Hs.
  unfold singleHandPhase.
  destruct (forEachIndexed _ hps 0%nat (objects1, [])) as [objects2 log3].
  simpl in Hs, Hc. simpl.
  unfold spawnedIn. rewrite skipn_length_app, Ho, skipn_length_app.
  rewrite Ho, length_app in Hc. lia.
Qed.

(* ================================================================= *)
(** ** The default population: [spawnObjects(12)] on an emptied store *)

Lemma floorIndex_lt (a : R) (n : nat) :
  0 <= a < INR n -> (floorIndex a < n)%nat.
Proof.
  intros [H0 Hn]. unfold floorIndex.
  destruct (base_Int_part a) as [Hle Hgt].
  assert (Hz0 : (-1 < Int_part a)%Z) by (apply lt_IZR; lra).
  assert (Hzn : (Int_part a < Z.of_nat n)%Z).
  { apply lt_IZR. rewrite <- INR_IZR_INZ. lra. }
  lia.
Qed.

Lemma default_color (u : R) :
  0 <= u < 1 ->
  In (nth (floorIndex (u * INR (length colors))) colors ""%string) colors.
Proof.
  intros Hu. apply nth_In, floorIndex_lt.
  assert (0 < INR (length colors)) by (apply lt_0_INR; simpl; lia). nra.
Qed.

Lemma spawnAttempt_window (a : SpawnArgs) (world batch : list PhysicsObject)
      (w : Browser) :
  sameWindow w (snd (spawnAttempt a world batch w)).
Proof.
  unfold spawnAttempt, makeObject, orRandom, fixedPosition.
  destruct a as [n ax ay avx avy ar ac gb].
  destruct ar, ax, ay, avx, avy, ac; cbn;
    try destruct (isSafe _ _ _ _ _); cbn; repeat split.
Qed.

Lemma spawnAttempt_default (n : nat) (world batch : list PhysicsObject)
      (w : Browser) (o : PhysicsObject) :
  unitDraws w -> 200 <= innerWidth w -> 200 <= innerHeight w ->
  fst (spawnAttempt (defaultSpawn n) world batch w) = Some o ->
  defaultObject w o.
Proof.
  intros Hu Hw Hh. unfold spawnAttempt, defaultSpawn, orRandom, fixedPosition.
  cbn [argRadius argX argY random fst snd mathRandom randomCalls innerWidth
       innerHeight].
  destruct (isSafe _ _ _ _ _); [| discriminate].
  unfold makeObject, orRandom.
  cbn [argVx argVy argColor grabbedBy random now date fst snd mathRandom
       randomCalls innerWidth innerHeight].
  intros E. injection E as <-.
  set (k := randomCalls w).
  pose proof (Hu k) as U0. pose proof (Hu (S k)) as U1.
  pose proof (Hu (S (S k))) as U2. pose proof (Hu (S (S (S (S k))))) as U4.
  pose proof (Hu (S (S (S (S (S k)))))) as U5.
  pose proof (Hu (S (S (S (S (S (S k))))))) as U6.
  pose proof (Hu (S (S (S (S (S (S (S k)))))))) as U7.
  pose proof PI_RGT_0 as Hpi.
  unfold defaultObject.
  cbn [radius x y vx vy color wobblePhase grabState isGrabbed].
  split; [lra |]. split; [nra |]. split; [nra |].
  split; [lra |]. split; [lra |]. split; [reflexivity |].
  split; [now apply default_color |]. nra.
Qed.

(** The invariant of the placement loop for a default spawn. *)
Lemma spawnLoop_default (n m : nat) (world : list PhysicsObject) (w0 : Browser)
      (fuel : nat) :
  unitDraws w0 -> 200 <= innerWidth w0 -> 200 <= innerHeight w0 ->
  forall (batch : list PhysicsObject) (k : nat) (w : Browser),
    sameWindow w0 w -> Forall (defaultObject w0) batch ->
    Forall (defaultObject w0)
           (fst (fst (spawnLoop fuel (defaultSpawn n) m world (batch, k, w)))).
Proof.
  intros Hu Hw Hh.
  induction fuel as [|fuel IH]; intros batch k w Hsame Hb; [exact Hb |].
  cbn [spawnLoop].
  destruct ((length batch <? count (defaultSpawn n))%nat && (k <? m)%nat);
    [| exact Hb].
  destruct Hsame as [S1 [S2 S3]].
  assert (Hu' : unitDraws w) by (intros i; rewrite S1; apply Hu).
  pose proof (spawnAttempt_window (defaultSpawn n) world batch w)
    as [T1 [T2 T3]].
  pose proof (spawnAttempt_default n world batch w) as Hd.
  destruct (spawnAttempt (defaultSpawn n) world batch w) as [[o|] w1];
    simpl in T1, T2, T3, Hd.
  - apply IH; [repeat split; congruence |].
    apply Forall_app. split; [exact Hb |]. constructor; [| constructor].
    specialize (Hd o Hu'). rewrite S2, S3 in Hd.
    destruct Hd as [D1 [D2 [D3 D4]]]; try lra; [reflexivity |].
    rewrite S2 in D2. rewrite S3 in D3.
    exact (conj D1 (conj D2 (conj D3 D4))).
  - apply IH; [repeat split; congruence | exact Hb].
Qed.

(** X15. The default population.  With every random draw in [0, 1) and a
    window of at least 200 x 200, the store right after the mount effect or
    the reset button holds at most 12 objects; each is free, has a radius
    in [20, 45), a center at least 100 pixels inside the window, velocity
    components in [-3, 3), one of the eight palette colors and a wobble
    phase in [0, 2 pi); any two of them are at least the sum of their radii
    plus 5 apart. *)
Theorem reset_gives_the_default_population (r : Refs) :
  unitDraws (browser r) ->
  200 <= innerWidth (browser r) -> 200 <= innerHeight (browser r) ->
  let objects := objectsRef (resetObjects r) in
  (length objects <= 12)%nat
  /\ Forall (defaultObject (browser r)) objects
  /\ ForallOrdPairs apart objects.
Proof.
  intros Hu Hw Hh objects. subst objects. unfold resetObjects, spawnObjects.
  pose proof (spawnLoop_default 12 (maxAttemptsOf (defaultSpawn 12)) []
                (browser r) (maxAttemptsOf (defaultSpawn 12)) Hu Hw Hh
                [] 0%nat (browser r)) as Hd.
  unfold spawnRun.
  destruct (spawnLoop _ _ _ _ _) as [[batch attempts] w'] eqn:Hrun.
  simpl in Hd. simpl.
  apply spawnLoop_spec in Hrun; [| lia | lia | simpl; lia].
  destruct Hrun as [_ [Hlen [_ [Hsafe _]]]]. simpl in Hlen.
  split; [exact Hlen |].
  split; [apply Hd; [repeat split | constructor] |].
  apply Hsafe; [reflexivity |]. split; [intros ? ? [] | constructor].
Qed.

Lemma reset_gives_the_default_population_witness :
  let r := Scene.freshRefs [Scene.ball 1 500 400 10] 5000 in
  (length (objectsRef (resetObjects r)) <= 12)%nat
  /\ Forall (fun o => 20 <= radius o < 45 /\ 100 <= x o <= 900)
            (objectsRef (resetObjects r)).
Proof.
  intros r.
  destruct (reset_gives_the_default_population r) as [Hlen [Hobj _]].
  - intros n. cbn. lra.
  - cbn. lra.
  - cbn. lra.
  - split; [exact Hlen |].
    eapply Forall_impl; [| exact Hobj].
    intros o [Hr [Hx _]]. cbn in Hx. split; [exact Hr | lra].
Defined.

(* ================================================================= *)
(** ** The physics step and kinetic energy *)

Lemma Rabs_sq (a : R) : Rabs a * Rabs a = a * a.
Proof. unfold Rabs. destruct (Rcase_abs a); lra. Qed.

Lemma scaled_sq_le (a b : R) : 0 <= b <= 1 -> (a * b) * (a * b) <= a * a.
Proof. intros Hb. assert (b * b <= 1) by nra. nra. Qed.

Lemma speed2_moveStep (inp : FrameInput) (o : PhysicsObject) :
  gravity (settings inp) = 0 -> 0 <= friction (settings inp) <= 1 ->
  speed2 (moveStep inp o) <= speed2 o.
Proof.
  intros Hg Hf. unfold speed2, moveStep. cbn. rewrite Hg, Rplus_0_r.
  pose proof (scaled_sq_le (vx o) _ Hf). pose proof (scaled_sq_le (vy o) _ Hf).
  lra.
Qed.

Lemma speed2_wallLeft inp o :
  0 <= bounce (settings inp) <= 1 -> speed2 (wallLeft inp o) <= speed2 o.
Proof.
  intros Hb. unfold wallLeft. destruct (ltb _ _); [| lra].
  unfold speed2. cbn.
  pose proof (scaled_sq_le (Rabs (vx o)) _ Hb) as H. rewrite Rabs_sq in H. lra.
Qed.

Lemma speed2_wallRight inp o :
  0 <= bounce (settings inp) <= 1 -> speed2 (wallRight inp o) <= speed2 o.
Proof.
  intros Hb. unfold wallRight. destruct (gtb _ _); [| lra].
  unfold speed2. cbn.
  pose proof (scaled_sq_le (Rabs (vx o)) _ Hb) as H. rewrite Rabs_sq in H. lra.
Qed.

Lemma speed2_wallTop inp o :
  0 <= bounce (settings inp) <= 1 -> speed2 (wallTop inp o) <= speed2 o.
Proof.
  intros Hb. unfold wallTop. destruct (ltb _ _); [| lra].
  unfold speed2. cbn.
  pose proof (scaled_sq_le (Rabs (vy o)) _ Hb) as H. rewrite Rabs_sq in H. lra.
Qed.

Lemma speed2_wallBottom inp o :
  0 <= bounce (settings inp) <= 1 -> speed2 (wallBottom inp o) <= speed2 o.
Proof.
  intros Hb. unfold wallBottom. destruct (gtb _ _); [| lra].
  unfold speed2. cbn.
  pose proof (scaled_sq_le (Rabs (vy o)) _ Hb) as H. rewrite Rabs_sq in H. lra.
Qed.

Lemma speed2_integrate (inp : FrameInput) (o : PhysicsObject) :
  gravity (settings inp) = 0 -> 0 <= friction (settings inp) <= 1 ->
  0 <= bounce (settings inp) <= 1 ->
  speed2 (integrate inp o) <= speed2 o.
Proof.
  intros Hg Hf Hb. rewrite integrate_stages.
  eapply Rle_trans; [apply speed2_wallBottom; assumption |].
  eapply Rle_trans; [apply speed2_wallTop; assumption |].
  eapply Rle_trans; [apply speed2_wallRight; assumption |].
  eapply Rle_trans; [apply speed2_wallLeft; assumption |].
  now apply speed2_moveStep.
Qed.

Lemma weighted_le (f : PhysicsObject -> R) (Rel : PhysicsObject -> PhysicsObject -> Prop)
      (P : PhysicsObject -> Prop) (l l' : list PhysicsObject) :
  (forall a b, P a -> Rel a b -> radius b * f b <= radius a * f a) ->
  Forall2 Rel l l' -> Forall P l -> weighted f l' <= weighted f l.
Proof.
  intros Hstep H. induction H as [|a b l l' Hab H IH]; intros HP; simpl;
    [lra |].
  inversion HP as [|? ? Pa Pl]; subst.
  specialize (IH Pl). specialize (Hstep a b Pa Hab). lra.
Qed.

Lemma nonneg_radii (l l' : list PhysicsObject) :
  map radius l' = map radius l ->
  Forall (fun o => 0 <= radius o) l -> Forall (fun o => 0 <= radius o) l'.
Proof.
  revert l'. induction l as [|a l IH]; intros [|b l'] E H; simpl in E;
    try discriminate; [constructor |].
  injection E as Eb El. inversion H; subst.
  constructor; [lra | now apply IH].
Qed.

Lemma speed2_nonneg (o : PhysicsObject) : 0 <= speed2 o.
Proof. unfold speed2. nra. Qed.

Lemma collidePair_energy (st : GameSettings) (i j : nat) (s : PhysState) :
  0 <= bounce st <= 1 -> fusionChance st = 0 -> i <> j ->
  Forall (fun o => 0 <= radius o) (fst (fst s)) ->
  weighted speed2 (fst (fst (collidePair st i j s)))
  <= weighted speed2 (fst (fst s)).
Proof.
  intros Hb Hoff Hij Hpos. destruct s as [[objects toRemove] w].
  simpl in Hpos. unfold collidePair.
  destruct (nth_error objects i) as [o1|] eqn:E1; [| simpl; lra].
  destruct (nth_error objects j) as [o2|] eqn:E2; [| simpl; lra].
  destruct (isGrabbed o1 || isGrabbed o2); [simpl; lra |].
  destruct (has toRemove (id o1) || has toRemove (id o2)); [simpl; lra |].
  destruct (overlapping o1 o2) eqn:Hov; [| simpl; lra].
  unfold resolveOverlap.
  pose proof (canFuse_off st o1 o2 w Hoff) as Hc.
  destruct (canFuse st o1 o2 w) as [fusing w']. simpl in Hc. subst fusing.
  assert (Hr : radius o1 + radius o2 <> 0).
  { pose proof (overlapping_radii o1 o2 Hov). lra. }
  destruct (bounceApart_momentum st o1 o2 Hr) as [_ [_ C]].
  pose proof (radius_bounceApart st o1 o2) as [R1 R2].
  destruct (bounceApart st o1 o2) as [o1' o2']. simpl in C, R1, R2. simpl.
  assert (E2' : nth_error (setNth objects i o1') j = Some o2)
    by (rewrite nth_error_setNth_ne by assumption; exact E2).
  rewrite (weighted_setNth _ _ j o2 o2' E2'),
          (weighted_setNth _ _ i o1 o1' E1), R1, R2.
  assert (P1 : 0 <= radius o1)
    by (apply (proj1 (Forall_forall _ _) Hpos o1), (nth_error_In _ _ E1)).
  assert (P2 : 0 <= radius o2)
    by (apply (proj1 (Forall_forall _ _) Hpos o2), (nth_error_In _ _ E2)).
  pose proof (speed2_nonneg o1) as N1. pose proof (speed2_nonneg o2) as N2.
  unfold speed2 in *.
  set (E := radius o1 * (vx o1 * vx o1 + vy o1 * vy o1)
            + radius o2 * (vx o2 * vx o2 + vy o2 * vy o2)) in *.
  assert (HE : 0 <= E) by (unfold E; nra).
  assert (Hbb : bounce st * bounce st <= 1) by nra.
  assert (Hle : bounce st * bounce st * E <= E) by nra.
  rewrite <- C in Hle. unfold E in Hle. lra.
Qed.

Lemma collisions_energy (st : GameSettings) (s : PhysState) :
  0 <= bounce st <= 1 -> fusionChance st = 0 ->
  Forall (fun o => 0 <= radius o) (fst (fst s)) ->
  weighted speed2 (fst (fst (collisions st s))) <= weighted speed2 (fst (fst s))
  /\ map radius (fst (fst (collisions st s))) = map radius (fst (fst s)).
Proof.
  intros Hb Hoff Hpos. unfold collisions.
  destruct (enableCollisions st); [| split; [lra | reflexivity]].
  unfold collisionPass.
  set (P := fun s' : PhysState =>
              weighted speed2 (fst (fst s')) <= weighted speed2 (fst (fst s))
              /\ map radius (fst (fst s')) = map radius (fst (fst s))).
  apply (fold_left_invariant P); [split; [lra | reflexivity] |].
  intros s1 i H1. unfold collideRow.
  apply (fold_left_invariant_in P); [exact H1 |].
  intros s2 j Hj [H3 H4]. apply in_seq in Hj.
  destruct (collidePair_fusion_off st i j s2 Hoff) as [_ H6].
  pose proof (collidePair_energy st i j s2 Hb Hoff) as H5.
  split; [| congruence].
  eapply Rle_trans; [apply H5; [lia | now apply (nonneg_radii (fst (fst s)))]
                    | exact H3].
Qed.

(** X16. The physics step never adds kinetic energy.  With no gravity, a
    friction factor and a bounce factor in [0, 1], fusion switched off and
    no negative radius, the radius-weighted kinetic energy of the frame's
    objects does not grow in the pairwise pass, nor in the movement pass
    with its wall bounces. *)
Theorem physics_never_adds_energy (inp : FrameInput) (r : Refs) :
  gravity (settings inp) = 0 ->
  0 <= friction (settings inp) <= 1 ->
  0 <= bounce (settings inp) <= 1 ->
  fusionChance (settings inp) = 0 ->
  Forall (fun o => 0 <= radius o) (frameObjects (resolveInteraction inp r)) ->
  let fr := loop inp r in
  weighted speed2 (afterCollisions fr)
  <= weighted speed2 (frameObjects (resolveInteraction inp r))
  /\ weighted speed2 (afterMovement fr) <= weighted speed2 (afterCollisions fr).
Proof.
  intros Hg Hf Hb Hoff Hpos fr. subst fr.
  destruct (loop_stages inp r) as [w1 [w2 [Hcol [Hmove _]]]].
  pose proof (collisions_energy (settings inp)
                (frameObjects (resolveInteraction inp r), [],
                 browser (frameRefs (resolveInteraction inp r)))
                Hb Hoff Hpos) as [H1 H2].
  rewrite Hcol in H1, H2. simpl in H1, H2.
  split; [exact H1 |].
  pose proof (moveEatPass_moved inp (frameMouth (resolveInteraction inp r))
                (afterCollisions (loop inp r)) (fusedAway (loop inp r)) w1) as H.
  rewrite Hmove in H. simpl in H.
  apply (weighted_le speed2 _ (fun o => 0 <= radius o) _ _) with (2 := H);
    [| now apply (nonneg_radii (frameObjects (resolveInteraction inp r)))].
  intros a b Pa [[-> | ->] _]; [lra |].
  destruct (sameBody_integrate inp a) as [_ [-> _]].
  pose proof (speed2_integrate inp a Hg Hf Hb). nra.
Qed.

Lemma physics_never_adds_energy_witness :
  let inp := Scene.frame [] None INITIAL_SETTINGS in
  let o1 := mkObject 1 100 100 2 1 20 "#f43f5e" false None 0 0 in
  let r := Scene.freshRefs [o1; Scene.ball 2 125 100 10] 5000 in
  weighted speed2 (afterMovement (loop inp r)) <= 100.
Proof.
  intros inp o1 r.
  destruct (resolveInteraction_shape inp r) as [new [_ [_ [Hobjs _]]]].
  destruct (physics_never_adds_energy inp r) as [A B].
  - reflexivity.
  - cbn. lra.
  - cbn. lra.
  - reflexivity.
  - rewrite Hobjs. cbn. repeat constructor; cbn; lra.
  - rewrite Hobjs in A. cbn in A. unfold speed2 in A at 2 3. cbn in A. lra.
Defined.

(* ================================================================= *)
(** ** The mouth and the resolution of the canvas *)

Lemma hypot_scale (c a b : R) : 0 <= c -> hypot (c * a) (c * b) = c * hypot a b.
Proof.
  intros Hc. apply hypot_unique.
  - pose proof (hypot_nonneg a b). nra.
  - pose proof (hypot_sq a b). nra.
Qed.

Lemma ltb_scale (c a b : R) : 0 < c -> ltb (c * a) (c * b) = ltb a b.
Proof.
  intros Hc. destruct (ltb a b) eqn:E.
  - apply ltb_true_iff in E. apply ltb_lt. nra.
  - apply ltb_false_iff in E. apply ltb_ge. nra.
Qed.

(** Pixel distance of two normalized points on the scaled canvas. *)
Lemma pixel_distance_scale (c W H x1 y1 x2 y2 : R) :
  0 <= c ->
  hypot (x1 * (c * W) - x2 * (c * W)) (y1 * (c * H) - y2 * (c * H))
  = c * hypot (x1 * W - x2 * W) (y1 * H - y2 * H).
Proof.
  intros Hc. rewrite <- hypot_scale by assumption. f_equal; ring.
Qed.

(** X17. Mouth detection does not depend on the resolution of the canvas:
    on a canvas [c] times as large the mouth is open in exactly the same
    cases, its center and width are [c] times as large, and the eating test
    gives the same answer for an object whose position is scaled alike. *)
Theorem mouth_is_independent_of_resolution
    (inp : FrameInput) (c : R) (o : PhysicsObject) :
  0 < c ->
  let m := mouthLogic inp in
  let m' := mouthLogic (scaleCanvas c inp) in
  isMouthOpen m' = isMouthOpen m
  /\ mouthWidth m' = c * mouthWidth m
  /\ mouthCenterX m' = c * mouthCenterX m
  /\ mouthCenterY m' = c * mouthCenterY m
  /\ inMouth m' (setPos o (c * x o) (c * y o)) = inMouth m o.
Proof.
  intros Hc m m'.
  assert (Hm : isMouthOpen m' = isMouthOpen m
               /\ mouthWidth m' = c * mouthWidth m
               /\ mouthCenterX m' = c * mouthCenterX m
               /\ mouthCenterY m' = c * mouthCenterY m).
  { subst m m'. unfold mouthLogic, scaleCanvas.
    cbn [faceResult canvasWidth canvasHeight].
    destruct (faceResult inp) as [lm|]; cbn [isMouthOpen mouthWidth mouthCenterX
                                               mouthCenterY].
    - rewrite !pixel_distance_scale by lra.
      split; [| split; [reflexivity | split; field]].
      unfold gtb.
      match goal with
      | |- ltb _ _ = ltb ?a ?b => rewrite <- (ltb_scale c a b) by assumption
      end.
      f_equal; ring.
    - split; [reflexivity | repeat split; ring]. }
  destruct Hm as [H1 [H2 [H3 H4]]].
  repeat (split; [assumption |]).
  unfold inMouth. rewrite H2, H3, H4. cbn [x y setPos].
  replace (c * x o - c * mouthCenterX m) with (c * (x o - mouthCenterX m))
    by ring.
  replace (c * y o - c * mouthCenterY m) with (c * (y o - mouthCenterY m))
    by ring.
  rewrite hypot_scale by lra.
  replace (c * mouthWidth m / 2) with (c * (mouthWidth m / 2)) by field.
  now apply ltb_scale.
Qed.

Lemma mouth_is_independent_of_resolution_witness :
  let inp := Scene.frame [] (Some Scene.openMouth) INITIAL_SETTINGS in
  isMouthOpen (mouthLogic (scaleCanvas 3 inp)) = isMouthOpen (mouthLogic inp)
  /\ mouthWidth (mouthLogic (scaleCanvas 3 inp)) = 3 * mouthWidth (mouthLogic inp).
Proof.
  intros inp.
  destruct (mouth_is_independent_of_resolution inp 3 (Scene.ball 1 0 0 10))
    as [H1 [H2 _]]; [lra |].
  split; assumption.
Defined.

(* ================================================================= *)
(** ** The gun pose *)

Lemma hypot_opp_l (a b : R) : hypot (- a) b = hypot a b.
Proof. unfold hypot. f_equal. ring. Qed.

Lemma placeLandmark_distance (mirror : bool) (dx dy : R) (p q : Landmark) :
  hypot (lmx (placeLandmark mirror dx dy p) - lmx (placeLandmark mirror dx dy q))
        (lmy (placeLandmark mirror dx dy p) - lmy (placeLandmark mirror dx dy q))
  = hypot (lmx p - lmx q) (lmy p - lmy q).
Proof.
  unfold placeLandmark. cbn [lmx lmy]. destruct mirror.
  - rewrite <- (hypot_opp_l (lmx p - lmx q)). f_equal; ring.
  - f_equal; ring.
Qed.

(** X18. The gun pose is a property of the shape of the hand only: it is
    the same for the mirror image of the hand (a left or a right hand),
    wherever the hand is in the picture, and whatever the thumb does (the
    thumb tip is never read by the test). *)
Theorem gun_pose_depends_on_shape_only
    (lm : HandLandmarks) (mirror : bool) (dx dy : R) (thumb : Landmark) :
  let place := placeLandmark mirror dx dy in
  isGunGesture (mkHand (place (wrist lm)) thumb (place (indexTip lm))
                       (place (middleTip lm)) (place (ringTip lm))
                       (place (pinkyTip lm)))
  = isGunGesture lm.
Proof.
  intros place. subst place. unfold isGunGesture.
  cbn [wrist indexTip middleTip ringTip pinkyTip].
  now rewrite !placeLandmark_distance.
Qed.

(* ================================================================= *)
(** ** Rendering: the outline of [drawBlob] *)

Lemma hypot_polar (a r : R) : hypot (cos a * r) (sin a * r) = Rabs r.
Proof.
  apply hypot_unique; [apply Rabs_pos |].
  rewrite Rabs_sq. pose proof (cos_sin_unit a) as H.
  replace (cos a * r * (cos a * r) + sin a * r * (sin a * r))
    with ((cos a * cos a + sin a * sin a) * (r * r)) by ring.
  rewrite H. ring.
Qed.

Lemma blob_wobble_bound (st : GameSettings) (a : R) :
  0 <= blobFactor st ->
  - blobFactor st
  <= (if gtb (blobFactor st) 0 then sin a * blobFactor st else 0)
  <= blobFactor st.
Proof.
  intros Hb. destruct (gtb _ _); [| lra].
  pose proof (SIN_bound a). nra.
Qed.

(** X19. The outline that [drawBlob] traces for an object with a
    non-negative radius and blob factor: it starts with a [moveTo], goes on
    with twelve [lineTo] and is closed; its last vertex is its first; and
    every vertex is at a distance from the center between
    [radius - blobFactor] and [radius + blobFactor], hence inside the outer
    circle of the gradient that fills it. *)
Theorem blob_outline_is_closed_and_bounded
    (st : GameSettings) (x y radius phase : R) (w : Browser) :
  0 <= radius -> 0 <= blobFactor st ->
  let time := performanceNow w (nowCalls w) / 200 in
  let v := blobVertex st time x y radius phase in
  fst (drawBlob st x y radius phase w)
  = BeginPath :: MoveTo (fst (v 0%nat)) (snd (v 0%nat))
    :: map (fun i => LineTo (fst (v i)) (snd (v i))) (seq 1 12) ++ [ClosePath]
  /\ v 12%nat = v 0%nat
  /\ forall i,
       radius - blobFactor st
       <= hypot (fst (v i) - x) (snd (v i) - y)
       <= gradientOuterRadius st radius.
Proof.
  intros Hr Hb time v. split; [reflexivity |]. split.
  - subst v. unfold blobVertex, points.
    replace (INR 12 / INR 12 * PI * 2) with (2 * PI) by (simpl; field).
    replace (INR 0 / INR 12 * PI * 2) with 0 by (simpl; field).
    replace (2 * PI * 3 + time + phase)
      with (0 * 3 + time + phase + 2 * INR 3 * PI) by (simpl; ring).
    rewrite sin_period, cos_2PI, sin_2PI, cos_0, sin_0. reflexivity.
  - intros i. subst v. unfold blobVertex, gradientOuterRadius.
    cbn [fst snd].
    set (a := INR i / INR points * PI * 2).
    pose proof (blob_wobble_bound st (a * 3 + time + phase) Hb) as Hw.
    set (wobble := if gtb (blobFactor st) 0
                   then sin (a * 3 + time + phase) * blobFactor st else 0) in *.
    replace (x + cos a * (radius + wobble) - x) with (cos a * (radius + wobble))
      by ring.
    replace (y + sin a * (radius + wobble) - y) with (sin a * (radius + wobble))
      by ring.
    rewrite hypot_polar. unfold Rabs.
    destruct (Rcase_abs (radius + wobble)); lra.
Qed.

Lemma blob_outline_is_closed_and_bounded_witness :
  let v := blobVertex INITIAL_SETTINGS (5000 / 200) 100 100 20 0 in
  v 12%nat = v 0%nat
  /\ 15 <= hypot (fst (v 3%nat) - 100) (snd (v 3%nat) - 100) <= 25.
Proof.
  intros v.
  destruct (blob_outline_is_closed_and_bounded INITIAL_SETTINGS 100 100 20 0
              (Scene.browserAt 5000)) as [_ [Hclosed Hdist]].
  - lra.
  - cbn. lra.
  - split; [exact Hclosed |].
    specialize (Hdist 3%nat).
    change (20 - 5 <= hypot (fst (v 3%nat) - 100) (snd (v 3%nat) - 100)
            <= 20 + 5) in Hdist.
    lra.
Defined.
